(** * The object-store index of s3webui, and its reconciliation engine

    A shallow embedding of the server's indexer module (key decomposition,
    the SQLite-backed index store, full rebuild, delta refresh, status and
    search) and, from [src/server/aws.ts], of [walkAllObjects] and of the
    functions that write to the remote store or name its objects:
    [createFolder], [uploadToPrefix], [deleteFolder], [encodeKey] and
    [objectPublicUrl].

    - Strings are Rocq strings, sequences of 8-bit characters: the bytes of
      the UTF-8 text.  SQLite's [lower] and [LIKE] fold the letters of the
      ASCII range only, and so do the functions here; JavaScript's
      [toLowerCase] and [trim] are given on the texts of the ASCII range,
      and the theorem on the needle of a search asks for a query of that
      range.  A link escapes the bytes of the UTF-8 text of a key.
      Timestamps are the texts that [toISOString] yields, kept as strings
      as the tables keep them.
    - The table [object_index] is a finite map from [key], its primary key,
      to the other columns, with the [rowid] of each row, which fixes the
      order of a scan; [index_state] is an optional single row.
    - The database and the clock are threaded through the functions as a
      [world]; the remote store is what it answers, page by page, to one
      enumeration.  A rejected promise is a result [inl err].
    - Sizes, limits and offsets are integers, counts are natural numbers;
      logging is left out. *)

From Stdlib Require Import ZArith Ascii String List Bool Sorting.Sorted Sorting.Permutation.
From stdpp Require Import gmap strings list fin_maps pretty sorting.

Local Open Scope Z_scope.
#[local] Set Warnings "-clear-no-such-hyp".

(** ** JavaScript string primitives used by the indexer *)

Module JsString.

Definition slash : ascii := "/"%char.
Definition dot : ascii := "."%char.
Definition dquote : ascii := ascii_of_nat 34.

(** [s.lastIndexOf(c)] for a one-character needle; [-1] when absent. *)
Fixpoint lastIndexOf (c : ascii) (s : string) : Z :=
  match s with
  | EmptyString => -1
  | String a r =>
      let i := lastIndexOf c r in
      if 0 <=? i then i + 1
      else if Ascii.eqb a c then 0 else -1
  end.

(** [s.slice(n)] for [0 <= n]. *)
Fixpoint slice (n : nat) (s : string) : string :=
  match n, s with
  | O, _ => s
  | S n', String _ r => slice n' r
  | S _, EmptyString => EmptyString
  end.

Definition is_upper (a : ascii) : bool :=
  let n := nat_of_ascii a in (65 <=? n)%nat && (n <=? 90)%nat.

Definition lower_char (a : ascii) : ascii :=
  if is_upper a then ascii_of_nat (nat_of_ascii a + 32) else a.

(** The letters [A] to [Z] in lower case.  This is SQLite's [lower(s)] on
    every text, and JavaScript's [s.toLowerCase()] on a text of the ASCII
    range; JavaScript also folds letters outside that range, which this
    function leaves as they are. *)
Fixpoint toLowerCase (s : string) : string :=
  match s with
  | EmptyString => EmptyString
  | String a r => String (lower_char a) (toLowerCase r)
  end.

(** [s.split(c)]: never empty, the empty string splits to one empty part. *)
Fixpoint split (c : ascii) (s : string) : list string :=
  match s with
  | EmptyString => [EmptyString]
  | String a r =>
      if Ascii.eqb a c then EmptyString :: split c r
      else match split c r with
           | h :: t => String a h :: t
           | [] => [String a EmptyString]
           end
  end.

(** Truthiness of a string: [Boolean(s)]. *)
Definition truthy (s : string) : bool :=
  match s with EmptyString => false | _ => true end.

(** [s || null]. *)
Definition or_null (s : string) : option string :=
  if truthy s then Some s else None.

(** [o || null] for [o : string | null | undefined]. *)
Definition opt_or_null (o : option string) : option string :=
  match o with Some s => or_null s | None => None end.

Fixpoint endsWith (c : ascii) (s : string) : bool :=
  match s with
  | EmptyString => false
  | String a EmptyString => Ascii.eqb a c
  | String _ r => endsWith c r
  end.

(** The white space of the ASCII range: tab, line feed, vertical tab, form
    feed, carriage return and space.  [trim] below is JavaScript's
    [s.trim()] on a text of that range; JavaScript also removes the white
    space and line ends that Unicode has outside it. *)
Definition is_space (a : ascii) : bool :=
  let n := nat_of_ascii a in ((9 <=? n)%nat && (n <=? 13)%nat) || (n =? 32)%nat.

Fixpoint trimStart (s : string) : string :=
  match s with
  | String a r => if is_space a then trimStart r else s
  | EmptyString => EmptyString
  end.

(** Drops trailing white space. *)
Fixpoint trimEnd (s : string) : string :=
  match s with
  | EmptyString => EmptyString
  | String a r =>
      match trimEnd r with
      | EmptyString => if is_space a then EmptyString else String a EmptyString
      | r' => String a r'
      end
  end.

Definition trim (s : string) : string := trimEnd (trimStart s).

(** Occurrence of a character. *)
Fixpoint has_char (c : ascii) (s : string) : bool :=
  match s with
  | EmptyString => false
  | String a r => Ascii.eqb a c || has_char c r
  end.

End JsString.

Import JsString.

(** ** Key decomposition *)

(** The empty string stands for no extension; callers store [ext || null]. *)
Definition extractExtension (key : string) : string :=
  let lastSlash := lastIndexOf slash key in
  let lastDot := lastIndexOf dot key in
  if (lastDot =? -1) || (lastDot <? lastSlash) then EmptyString
  else toLowerCase (slice (Z.to_nat (lastDot + 1)) key).

(** [parts.pop()] on a list. *)
Definition pop_last (l : list string) : option string := last l.

(** [key.split("/").filter(Boolean)]. *)
Definition nonempty_parts (key : string) : list string :=
  filter (fun s => truthy s = true) (split slash key).

(** [parts.pop() || key]. *)
Definition basename (key : string) : string :=
  match pop_last (nonempty_parts key) with
  | Some s => if truthy s then s else key
  | None => key
  end.

Record folder_ref := { fkey : string; fname : string }.

(** The loop of [folderPrefixesForKey] over [parts[0 .. length-2]], with
    its running [acc]. *)
Fixpoint prefixes_loop (acc : string) (parts : list string) : list folder_ref :=
  match parts with
  | [] => []
  | [_] => []
  | name :: rest =>
      if truthy name then
        let acc' := (acc +:+ name +:+ "/")%string in
        {| fkey := acc'; fname := name |} :: prefixes_loop acc' rest
      else prefixes_loop acc rest
  end.

Definition folderPrefixesForKey (key : string) : list folder_ref :=
  prefixes_loop EmptyString (nonempty_parts key).

(** ** The index store

    Table [object_index], keyed by [key], and the singleton row of
    [index_state]. *)

(** The column [type]: the code writes ['file'] and ['folder'] only. *)
Inductive entry_type := File | Folder.

#[global] Instance entry_type_eq_dec : EqDecision entry_type.
Proof. solve_decision. Defined.

(** The columns of [object_index] other than [key]. *)
Record row := {
  name : string;
  extension : option string;
  size : Z;
  last_modified : option string;
  etag : option string;
  updated_at : string;
  type : entry_type
}.

(** The row of [index_state]; [None] is SQL [NULL]. *)
Record IndexState := {
  last_full_scan : option string;
  last_delta_scan : option string
}.

(** [Partial<IndexState>]: [None] is a key that is not given. *)
Record IndexStateUpdate := {
  set_full_scan : option (option string);
  set_delta_scan : option (option string)
}.

(** The database file together with the number of clock readings taken.
    [rowids] holds the [rowid] that SQLite gives to each row of
    [object_index]: the table is stored, and scanned, in the order of that
    number. *)
Record world := {
  objects : gmap string row;
  rowids : gmap string nat;
  index_state : option IndexState;
  ticks : nat
}.

Definition rowid (w : world) (key : string) : nat := default 0%nat (rowids w !! key).

(** The [rowid] of a new row: one more than the largest in use. *)
Definition next_rowid (w : world) : nat :=
  S (foldr Nat.max 0%nat (map (fun kr => rowid w kr.1) (map_to_list (objects w)))).

(** [row || { last_full_scan: null, last_delta_scan: null }]. *)
Definition getState (w : world) : IndexState :=
  match index_state w with
  | Some r => r
  | None => {| last_full_scan := None; last_delta_scan := None |}
  end.

(** [{ ...current, ...updates }] on one field. *)
Definition spread (current : option string) (upd : option (option string)) : option string :=
  match upd with Some v => v | None => current end.

(** The merge of [updates] into the stored row, each field passed through
    [|| null] before the upsert. *)
Definition updateState (updates : IndexStateUpdate) (w : world) : world :=
  let current := getState w in
  let lastFull := opt_or_null (spread (last_full_scan current) (set_full_scan updates)) in
  let lastDelta := opt_or_null (spread (last_delta_scan current) (set_delta_scan updates)) in
  {| objects := objects w;
     rowids := rowids w;
     index_state := Some {| last_full_scan := lastFull; last_delta_scan := lastDelta |};
     ticks := ticks w |}.

(** [INSERT ... ON CONFLICT(key) DO UPDATE]: every column is replaced.  A
    row that is updated keeps its [rowid], a row that is inserted gets a new
    one. *)
Definition upsertObject (key nm : string) (ext : option string) (sz : Z)
    (lm tag : option string) (now : string) (ty : entry_type) (w : world) : world :=
  {| objects := <[key := {| name := nm; extension := ext; size := sz; last_modified := lm;
                            etag := tag; updated_at := now; type := ty |}]> (objects w);
     rowids := match objects w !! key with
               | Some _ => rowids w
               | None => <[key := next_rowid w]> (rowids w)
               end;
     index_state := index_state w;
     ticks := ticks w |}.

Definition getObject (key : string) (w : world) : option row := objects w !! key.

Definition deleteObjectStmt (key : string) (w : world) : world :=
  {| objects := delete key (objects w); rowids := delete key (rowids w);
     index_state := index_state w; ticks := ticks w |}.

(** Truthiness of the result of [getObject.get]. *)
Definition has_row (o : option row) : bool :=
  match o with Some _ => true | None => false end.

(** [SELECT COUNT( * ) FROM object_index WHERE type = ?]. *)
Definition count_type (ty : entry_type) (m : gmap string row) : nat :=
  length (filter (fun kr => type kr.2 = ty) (map_to_list m)).

Record IndexStatus := {
  objectCount : nat;
  lastFullScan : option string;
  lastDeltaScan : option string
}.

Definition getIndexStatus (w : world) : IndexStatus :=
  let state := getState w in
  {| objectCount := count_type File (objects w);
     lastFullScan := opt_or_null (last_full_scan state);
     lastDeltaScan := opt_or_null (last_delta_scan state) |}.

(** ** The remote lister *)

(** One element of [response.Contents]. *)
Record S3Item := {
  item_Key : option string;
  item_Size : option Z;
  item_LastModified : option string;
  item_ETag : option string
}.

(** What the callback of [walkAllObjects] receives. *)
Record S3ObjectDetail := {
  okey : string;
  osize : Z;
  olastModified : option string;
  oetag : option string
}.

(** What the remote answers to the successive [ListObjectsV2] requests: a
    failure, a page without continuation token, or a page with one. *)
Inductive listing :=
| Fails (err : string)
| LastPage (contents : list S3Item)
| NextPage (contents : list S3Item) (rest : listing).

Definition normalizePrefix (prefix : string) : string :=
  if truthy prefix then (if endsWith slash prefix then prefix else (prefix +:+ "/")%string)
  else EmptyString.

(** Removes every double-quote character, as [replace] with the global
    pattern does. *)
Fixpoint strip_quotes (s : string) : string :=
  match s with
  | EmptyString => EmptyString
  | String a r => if Ascii.eqb a dquote then strip_quotes r else String a (strip_quotes r)
  end.

(** [size: item.Size ?? 0], the modification time as ISO text, the ETag
    without its quotes or undefined when nothing is left. *)
Definition detail_of (key : string) (item : S3Item) : S3ObjectDetail :=
  {| okey := key;
     osize := default 0 (item_Size item);
     olastModified := item_LastModified item;
     oetag := match item_ETag item with Some e => or_null (strip_quotes e) | None => None end |}.

(** The objects of one page that reach the callback: items without key,
    or whose key is the prefix itself, are skipped. *)
Fixpoint page_objects (normalized : string) (contents : list S3Item) : list S3ObjectDetail :=
  match contents with
  | [] => []
  | item :: rest =>
      match item_Key item with
      | Some k =>
          if negb (truthy k) || String.eqb k normalized then page_objects normalized rest
          else detail_of k item :: page_objects normalized rest
      | None => page_objects normalized rest
      end
  end.

Section Walk.
Context {State : Type}.
Variable onObject : S3ObjectDetail -> State -> State.

(** The [do ... while (continuationToken)] loop; [Some err] is a rejected
    promise. *)
Fixpoint walk_pages (normalized : string) (l : listing) (s : State) : State * option string :=
  match l with
  | Fails err => (s, Some err)
  | LastPage contents =>
      (foldl (fun s o => onObject o s) s (page_objects normalized contents), None)
  | NextPage contents rest =>
      walk_pages normalized rest
        (foldl (fun s o => onObject o s) s (page_objects normalized contents))
  end.

Definition walkAllObjects (prefix : string) (l : listing) (s : State) : State * option string :=
  walk_pages (normalizePrefix prefix) l s.
End Walk.

(** ** The reconciliation engine *)

(** What [rebuildIndex] returns. *)
Record RebuildSummary := { indexed : nat; folders : nat }.

(** What [refreshIndex] returns; [rfolders] is its field [folders]. *)
Record RefreshSummary := {
  added : nat;
  updated : nat;
  removed : nat;
  files : nat;
  rfolders : nat
}.

(** The locals of one run, next to the database. *)
Record scan := {
  sworld : world;
  seenKeys : gset string;
  seenFolders : gset string;
  nadded : nat;
  nupdated : nat
}.

Section Engine.
(** [clock n] is what the [n]-th reading of [new Date().toISOString()]
    returns. *)
Variable clock : nat -> string.

(** One reading of the clock. *)
Definition nowIso (w : world) : string * world :=
  (clock (ticks w),
   {| objects := objects w; rowids := rowids w; index_state := index_state w;
      ticks := S (ticks w) |}).

(** [DELETE FROM object_index]. *)
Definition clearObjects (w : world) : world :=
  {| objects := ∅; rowids := ∅; index_state := index_state w; ticks := ticks w |}.

(** *** Full rebuild *)

(** The body of [folders.forEach] in [rebuildIndex]. *)
Definition rebuild_folder (s : scan) (folder : folder_ref) : scan :=
  if bool_decide (fkey folder ∈ seenFolders s) then s
  else
    let '(now, w) := nowIso (sworld s) in
    {| sworld := upsertObject (fkey folder) (fname folder) None 0 None None now Folder w;
       seenKeys := {[fkey folder]} ∪ seenKeys s;
       seenFolders := {[fkey folder]} ∪ seenFolders s;
       nadded := nadded s;
       nupdated := nupdated s |}.

(** The callback of [rebuildIndex]; [nadded] plays the part of [indexed]. *)
Definition rebuild_object (obj : S3ObjectDetail) (s : scan) : scan :=
  let ext := extractExtension (okey obj) in
  let s1 := foldl rebuild_folder s (folderPrefixesForKey (okey obj)) in
  let '(now, w) := nowIso (sworld s1) in
  {| sworld := upsertObject (okey obj) (basename (okey obj)) (or_null ext) (osize obj)
                 (opt_or_null (olastModified obj)) (opt_or_null (oetag obj)) now File w;
     seenKeys := {[okey obj]} ∪ seenKeys s1;
     seenFolders := seenFolders s1;
     nadded := S (nadded s1);
     nupdated := nupdated s1 |}.

(** Empty sets and counters at zero, as a run starts. *)
Definition fresh_scan (w : world) : scan :=
  {| sworld := w; seenKeys := ∅; seenFolders := ∅; nadded := 0; nupdated := 0 |}.

(** The error of the enumeration, when there is one, comes out before the
    scan state is written. *)
Definition rebuildIndex (remote : listing) (w : world) : world * (string + RebuildSummary) :=
  let w0 := clearObjects w in
  match walkAllObjects rebuild_object EmptyString remote (fresh_scan w0) with
  | (s, Some err) => (sworld s, inl err)
  | (s, None) =>
      let '(now, w1) := nowIso (sworld s) in
      let w2 := updateState {| set_full_scan := Some (Some now);
                               set_delta_scan := Some (Some now) |} w1 in
      (w2, inr {| indexed := count_type File (objects w2);
                  folders := count_type Folder (objects w2) |})
  end.

(** *** Delta refresh *)

(** [!existingFolder || type !== "folder" || size !== 0 ||
    last_modified !== null]. *)
Definition needsFolder (existing : option row) : bool :=
  match existing with
  | None => true
  | Some e =>
      negb (bool_decide (type e = Folder))
      || negb (size e =? 0)
      || negb (bool_decide (last_modified e = None))
  end.

(** The body of [folders.forEach] in [refreshIndex]. *)
Definition refresh_folder (s : scan) (folder : folder_ref) : scan :=
  if bool_decide (fkey folder ∈ seenFolders s) then s
  else
    let existingFolder := getObject (fkey folder) (sworld s) in
    let s1 :=
      if needsFolder existingFolder then
        let '(now, w) := nowIso (sworld s) in
        {| sworld := upsertObject (fkey folder) (fname folder) None 0 None None now Folder w;
           seenKeys := seenKeys s;
           seenFolders := seenFolders s;
           nadded := if has_row existingFolder then nadded s else S (nadded s);
           nupdated := if has_row existingFolder then S (nupdated s) else nupdated s |}
      else s in
    {| sworld := sworld s1;
       seenKeys := {[fkey folder]} ∪ seenKeys s1;
       seenFolders := {[fkey folder]} ∪ seenFolders s1;
       nadded := nadded s1;
       nupdated := nupdated s1 |}.

(** [!existing || type !== "file" || size !== obj.size ||
    last_modified !== lastModified || etag !== etag]. *)
Definition needsUpdate (existing : option row) (obj : S3ObjectDetail) : bool :=
  match existing with
  | None => true
  | Some e =>
      negb (bool_decide (type e = File))
      || negb (size e =? osize obj)
      || negb (bool_decide (last_modified e = opt_or_null (olastModified obj)))
      || negb (bool_decide (etag e = opt_or_null (oetag obj)))
  end.

(** The rest of the callback of [refreshIndex]: the object itself, looked
    up after its folders were handled. *)
Definition refresh_file (obj : S3ObjectDetail) (s : scan) : scan :=
  let ext := extractExtension (okey obj) in
  let existing := getObject (okey obj) (sworld s) in
  let lastModified := opt_or_null (olastModified obj) in
  let tag := opt_or_null (oetag obj) in
  let upd := needsUpdate existing obj in
  let added' := if has_row existing then nadded s else S (nadded s) in
  let updated' := if has_row existing then (if upd then S (nupdated s) else nupdated s)
                  else nupdated s in
  let w :=
    if upd then
      let '(now, w) := nowIso (sworld s) in
      upsertObject (okey obj) (basename (okey obj)) (or_null ext) (osize obj)
        lastModified tag now File w
    else sworld s in
  {| sworld := w;
     seenKeys := {[okey obj]} ∪ seenKeys s;
     seenFolders := seenFolders s;
     nadded := added';
     nupdated := updated' |}.

(** The callback of [refreshIndex]. *)
Definition refresh_object (obj : S3ObjectDetail) (s : scan) : scan :=
  refresh_file obj (foldl refresh_folder s (folderPrefixesForKey (okey obj))).

(** The deletion sweep over [SELECT key FROM object_index], one key. *)
Definition sweep_step (seen : gset string) (acc : world * nat) (key : string) : world * nat :=
  if bool_decide (key ∈ seen) then acc
  else (deleteObjectStmt key acc.1, S acc.2).

(** [SELECT key FROM object_index], in the order of the map's listing. *)
Definition all_keys (w : world) : list string := (map_to_list (objects w)).*1.

Definition sweep (seen : gset string) (w : world) : world * nat :=
  foldl (sweep_step seen) (w, 0%nat) (all_keys w).

(** The error of the enumeration, when there is one, comes out before the
    sweep. *)
Definition refreshIndex (remote : listing) (w : world) : world * (string + RefreshSummary) :=
  match walkAllObjects refresh_object EmptyString remote (fresh_scan w) with
  | (s, Some err) => (sworld s, inl err)
  | (s, None) =>
      let '(w1, nremoved) := sweep (seenKeys s) (sworld s) in
      let '(now, w2) := nowIso w1 in
      let w3 := updateState {| set_full_scan := None; set_delta_scan := Some (Some now) |} w2 in
      (w3, inr {| added := nadded s;
                  updated := nupdated s;
                  removed := nremoved;
                  files := count_type File (objects w3);
                  rfolders := count_type Folder (objects w3) |})
  end.
End Engine.

(** ** The query service *)

(** One returned record: [key], [name], [extension], [size],
    [lastModified], [updatedAt], [type]. *)
Record IndexedObjectRow := {
  ikey : string;
  iname : string;
  iextension : option string;
  isize : Z;
  ilastModified : option string;
  iupdatedAt : string;
  itype : entry_type
}.

(** The parameter of [searchIndexedObjects]; [None] is a field left out. *)
Record SearchParams := {
  search : option string;
  limit : option Z;
  offset : option Z
}.

Record SearchResult := { items : list IndexedObjectRow; total : nat }.

Definition percent : ascii := "%"%char.
Definition underscore : ascii := "_"%char.

(** SQLite's [LIKE] with its defaults: [%] is any run of characters, [_] any
    one character, no escape character, letters of the ASCII range compared
    without regard to case.  A character is one byte here, which is
    SQLite's reading on the texts of the ASCII range; outside it SQLite's
    [_] takes the bytes of one UTF-8 character. *)
Fixpoint like_match (pattern : string) (s : string) : bool :=
  match pattern with
  | EmptyString => negb (truthy s)
  | String p pattern' =>
      if Ascii.eqb p percent then
        (fix any (s : string) : bool :=
           like_match pattern' s
           || match s with
              | EmptyString => false
              | String _ s' => any s'
              end) s
      else
        match s with
        | EmptyString => false
        | String a s' =>
            (Ascii.eqb p underscore || Ascii.eqb (lower_char p) (lower_char a))
            && like_match pattern' s'
        end
  end.

(** [lower(column) LIKE ?], false on a [NULL] column. *)
Definition like_lower (pattern : string) (column : option string) : bool :=
  match column with
  | Some v => like_match pattern (toLowerCase v)
  | None => false
  end.

(** The [WHERE] clause of [searchIndexedObjects]; [None] when no condition
    was pushed.  The needle is the one of the code for a query of the ASCII
    range, on which [toLowerCase] and [trim] are JavaScript's. *)
Definition search_pattern (q : option string) : option string :=
  match q with
  | Some text =>
      if truthy text then
        let needle := trim (toLowerCase text) in
        if truthy needle then Some ("%" +:+ needle +:+ "%")%string else None
      else None
  | None => None
  end.

(** [lower(name) LIKE ? OR lower(key) LIKE ? OR lower(extension) LIKE ?],
    or no condition. *)
Definition where_clause (pattern : option string) (kr : string * row) : bool :=
  match pattern with
  | Some like =>
      like_lower like (Some (name kr.2)) || like_lower like (Some kr.1)
      || like_lower like (extension kr.2)
  | None => true
  end.

(** The rows of [object_index] as a scan of the table meets them: by
    ascending [rowid], which is the order in which the rows now stored were
    first inserted. *)
Fixpoint insert_by_rowid (w : world) (x : string * row) (l : list (string * row))
    : list (string * row) :=
  match l with
  | [] => [x]
  | y :: r => if (rowid w x.1 <=? rowid w y.1)%nat then x :: l else y :: insert_by_rowid w x r
  end.

Definition table_rows (w : world) : list (string * row) :=
  foldr (insert_by_rowid w) [] (map_to_list (objects w)).

(** The rows that the [WHERE] clause keeps, in the order of the scan. *)
Definition matching_rows (pattern : option string) (w : world) : list (string * row) :=
  filter (fun kr => where_clause pattern kr = true) (table_rows w).

(** [ORDER BY updated_at DESC], text compared byte by byte; rows with the
    same [updated_at] stay in the order of the scan, as they do in the
    sorting index that SQLite builds for a query with a [LIMIT]. *)
Definition newer_first (a b : string * row) : bool :=
  String.leb (updated_at b.2) (updated_at a.2).

Fixpoint insert_row (x : string * row) (l : list (string * row)) : list (string * row) :=
  match l with
  | [] => [x]
  | y :: r => if newer_first x y then x :: l else y :: insert_row x r
  end.

Definition order_by_updated_desc (l : list (string * row)) : list (string * row) :=
  foldr insert_row [] l.

(** [v.endsWith("Z") ? v : v + "Z"]. *)
Definition with_zone (v : string) : string :=
  if endsWith "Z"%char v then v else (v +:+ "Z")%string.

(** [Math.min(Math.max(params.limit ?? 20, 1), 200)]. *)
Definition clampLimit (requested : option Z) : Z :=
  Z.min (Z.max (default 20 requested) 1) 200.

(** [Math.max(params.offset ?? 0, 0)]. *)
Definition clampOffset (requested : option Z) : Z :=
  Z.max (default 0 requested) 0.

Section Query.
Variable clock : nat -> string.

(** [rows.map(...)], one selected row; the clock is read when [updated_at]
    is empty. *)
Definition present_row (acc : list IndexedObjectRow * world) (kr : string * row)
    : list IndexedObjectRow * world :=
  let '(updatedAt, w) :=
    if truthy (updated_at kr.2) then (with_zone (updated_at kr.2), acc.2)
    else nowIso clock acc.2 in
  (acc.1 ++ [{| ikey := kr.1;
                iname := name kr.2;
                iextension := opt_or_null (extension kr.2);
                isize := size kr.2;
                ilastModified :=
                  match opt_or_null (last_modified kr.2) with
                  | Some v => Some (with_zone v)
                  | None => None
                  end;
                iupdatedAt := updatedAt;
                itype := type kr.2 |}], w).

Definition selected_rows (params : SearchParams) (w : world) : list (string * row) :=
  let pattern := search_pattern (search params) in
  take (Z.to_nat (clampLimit (limit params)))
    (drop (Z.to_nat (clampOffset (offset params)))
       (order_by_updated_desc (matching_rows pattern w))).

Definition searchIndexedObjects (params : SearchParams) (w : world) : SearchResult * world :=
  let pattern := search_pattern (search params) in
  let rows := selected_rows params w in
  let count := length (matching_rows pattern w) in
  let '(its, w') := foldl present_row ([], w) rows in
  ({| items := its; total := count |}, w').
End Query.

(** ** Vocabulary of the specification *)

(** The error that ends the enumeration, if one does. *)
Fixpoint listing_error (l : listing) : option string :=
  match l with
  | Fails err => Some err
  | LastPage _ => None
  | NextPage _ rest => listing_error rest
  end.

(** The objects handed to the callback, page after page, up to the end of
    the enumeration or its failure. *)
Fixpoint listing_objects (normalized : string) (l : listing) : list S3ObjectDetail :=
  match l with
  | Fails _ => []
  | LastPage contents => page_objects normalized contents
  | NextPage contents rest => page_objects normalized contents ++ listing_objects normalized rest
  end.

(** The keys one object makes observed: its own and those of its
    synthesized ancestor folders. *)
Definition object_keys (obj : S3ObjectDetail) : gset string :=
  {[okey obj]} ∪ list_to_set (map fkey (folderPrefixesForKey (okey obj))).

(** The keys a run over [objs] observes. *)
Definition observed_keys (objs : list S3ObjectDetail) : gset string :=
  ⋃ (map object_keys objs).


(** [s.startsWith(needle)]. *)
Fixpoint starts_with (needle s : string) : bool :=
  match needle, s with
  | EmptyString, _ => true
  | String a needle', String b s' => Ascii.eqb a b && starts_with needle' s'
  | String _ _, EmptyString => false
  end.

(** [s.includes(needle)], the decision of [contains]. *)
Fixpoint includes (needle s : string) : bool :=
  starts_with needle s
  || match s with
     | EmptyString => false
     | String _ s' => includes needle s'
     end.


(** Every character of [s] satisfies [P]. *)
Fixpoint all_chars (P : ascii -> bool) (s : string) : bool :=
  match s with
  | EmptyString => true
  | String a r => P a && all_chars P r
  end.




(** The item shows the row: same key, name, size and kind, and the
    extension with the empty string read as absent. *)
Definition presents (it : IndexedObjectRow) (kr : string * row) : Prop :=
  ikey it = kr.1 /\ iname it = name kr.2 /\ isize it = size kr.2 /\ itype it = type kr.2
  /\ iextension it = opt_or_null (extension kr.2).

(** Newest first, as [ORDER BY updated_at DESC] lists rows. *)
Definition newer_or_same (a b : string * row) : Prop := newer_first a b = true.

(** The ancestor folders of a key as the specification words them: every
    proper prefix of the key that ends with the path separator. *)
Fixpoint ancestor_prefixes (key : string) : list string :=
  match key with
  | EmptyString => []
  | String a rest =>
      (if Ascii.eqb a slash && truthy rest then [String a EmptyString] else [])
      ++ map (String a) (ancestor_prefixes rest)
  end.

(** The folder keys that the objects of a list synthesize. *)
Definition folder_keys (objs : list S3ObjectDetail) : gset string :=
  ⋃ (map (fun o => list_to_set (map fkey (folderPrefixesForKey (okey o)))) objs).

(** No object is listed after an object of which its key is an ancestor
    folder key: an object that stands for a folder comes before what the
    folder holds, as it does when keys without empty segment are listed in
    key order.  [synthesized] holds the folder keys of the objects read so
    far. *)
Fixpoint folder_objects_first_from (synthesized : gset string) (objs : list S3ObjectDetail)
    : bool :=
  match objs with
  | [] => true
  | o :: rest =>
      bool_decide (okey o ∉ synthesized)
      && folder_objects_first_from
           (list_to_set (map fkey (folderPrefixesForKey (okey o))) ∪ synthesized) rest
  end.

Definition folder_objects_first (objs : list S3ObjectDetail) : bool :=
  folder_objects_first_from ∅ objs.

(** The key has a row of kind folder. *)
Definition has_folder_row (w : world) (k : string) : Prop :=
  exists r, objects w !! k = Some r /\ type r = Folder.

(** The key has no empty segment before its last one: it neither starts
    with the path separator nor holds two separators in a row. *)
Fixpoint clean_from (after_separator : bool) (key : string) : bool :=
  match key with
  | EmptyString => true
  | String a rest =>
      if Ascii.eqb a slash then negb after_separator && clean_from true rest
      else clean_from false rest
  end.

Definition clean (key : string) : bool := clean_from true key.

(** The parts of a split when the text [cur] is put before the first of
    them: the split of [cur ++ s] from the split of [s] when [cur] holds no
    separator. *)
Definition grow (cur : string) (parts : list string) : list string :=
  match parts with
  | h :: t => (cur +:+ h)%string :: t
  | [] => [cur]
  end.

(** The length of the parts joined by one separator each, plus one. *)
Definition joined_length (parts : list string) : nat :=
  foldr (fun p n => (String.length p + 1 + n)%nat) 0%nat parts.

(** What holds of a full rebuild after the objects [done]: the processed
    folders are the folders of [done], each has a folder row, and every
    file row belongs to an object of [done]. *)
Definition rebuild_inv (done : list S3ObjectDetail) (s : scan) : Prop :=
  seenFolders s = folder_keys done
  /\ (forall k, k ∈ seenFolders s -> has_folder_row (sworld s) k)
  /\ (forall k r, objects (sworld s) !! k = Some r -> type r = File -> k ∈ map okey done).

(** The objects that reach the callbacks of [rebuildIndex] and
    [refreshIndex], which enumerate under the empty prefix. *)
Definition delivered (remote : listing) : list S3ObjectDetail :=
  listing_objects EmptyString remote.

(** The walk of a full rebuild over the delivered objects. *)
Definition rebuild_walk (clock : nat -> string) (objs : list S3ObjectDetail) (s : scan) : scan :=
  foldl (fun s o => rebuild_object clock o s) s objs.

(** The walk of a delta refresh over the delivered objects. *)
Definition refresh_walk (clock : nat -> string) (objs : list S3ObjectDetail) (s : scan) : scan :=
  foldl (fun s o => refresh_object clock o s) s objs.

(** The locals of a run agree with the database: a folder marked as
    processed is an observed key, and an observed key has a row. *)
Definition scan_ok (s : scan) : Prop :=
  seenFolders s ⊆ seenKeys s /\ seenKeys s ⊆ dom (objects (sworld s)).

(** The keys of a list that the run did not observe. *)
Definition unseen (seen : gset string) (keys : list string) : list string :=
  filter (fun k => k ∉ seen) keys.

(** The rows of the listed objects and of their folders are what a delta
    refresh wants them to be: nothing needs a write. *)
Definition settled (m : gmap string row) (objs : list S3ObjectDetail) : Prop :=
  forall o, o ∈ objs ->
    (exists e, m !! okey o = Some e /\ needsUpdate (Some e) o = false)
    /\ (forall f, f ∈ folderPrefixesForKey (okey o) ->
                  exists e, m !! fkey f = Some e /\ needsFolder (Some e) = false).

(** What holds of a delta refresh after the objects [done], when no key is
    listed twice and no object key is a folder key. *)
Definition refresh_inv (done : list S3ObjectDetail) (s : scan) : Prop :=
  seenFolders s = folder_keys done
  /\ (forall o, o ∈ done ->
         exists e, objects (sworld s) !! okey o = Some e /\ needsUpdate (Some e) o = false)
  /\ (forall k, k ∈ seenFolders s ->
         exists e, objects (sworld s) !! k = Some e /\ needsFolder (Some e) = false).

(** What holds of a delta refresh after the objects [done], whatever the
    index held before: the processed folders are the folders of [done],
    each has a folder row, and every file row of an observed key belongs to
    an object of [done]. *)
Definition refresh_folders_inv (done : list S3ObjectDetail) (s : scan) : Prop :=
  seenFolders s = folder_keys done
  /\ (forall k, k ∈ seenFolders s -> has_folder_row (sworld s) k)
  /\ (forall k r, objects (sworld s) !! k = Some r -> type r = File ->
                  k ∈ seenKeys s -> k ∈ map okey done).

(** ** The rest of the query service *)

(** SQLite's [LIMIT n]: a negative [n] puts no bound on the rows. *)
Definition sql_limit {A : Type} (n : Z) (l : list A) : list A :=
  if n <? 0 then l else take (Z.to_nat n) l.

Section Recent.
Variable clock : nat -> string.

(** [getRecentIndexedObjects(limit = 20)]: every row, newest [updated_at]
    first, cut by [LIMIT ?], each row mapped as in the search. *)
Definition getRecentIndexedObjects (limit : option Z) (w : world)
    : list IndexedObjectRow * world :=
  foldl (present_row clock) ([], w)
    (sql_limit (default 20 limit) (order_by_updated_desc (table_rows w))).
End Recent.

(** The timestamps of an item are those of the row with the zone mark:
    an absent or empty modification time shows as null, and [updatedAt] is
    the stored text when there is one. *)
Definition zoned (it : IndexedObjectRow) (kr : string * row) : Prop :=
  ilastModified it = with_zone <$> opt_or_null (last_modified kr.2)
  /\ (truthy (updated_at kr.2) = true -> iupdatedAt it = with_zone (updated_at kr.2)).

(** The text is made of path separators only. *)
Definition slashes (s : string) : bool := all_chars (fun a => Ascii.eqb a slash) s.

(** The folder key of a chain of segments: each followed by a separator. *)
Definition chain_key (segments : list string) : string :=
  foldr (fun p acc => (p +:+ "/" +:+ acc)%string) EmptyString segments.

(** Two runs stand at the same point: same database and clock, same sets. *)
Definition same_core (s s' : scan) : Prop :=
  sworld s = sworld s' /\ seenKeys s = seenKeys s' /\ seenFolders s = seenFolders s'.

(** Folder rows are rows of processed folders, file rows are rows of
    processed objects. *)
Definition rows_accounted (done : list S3ObjectDetail) (s : scan) : Prop :=
  (forall k e, objects (sworld s) !! k = Some e -> type e = Folder -> k ∈ seenFolders s)
  /\ (forall k e, objects (sworld s) !! k = Some e -> type e = File -> k ∈ map okey done).

(** [added] is the number of rows the run has created so far. *)
Definition counted (n0 : nat) (s : scan) : Prop :=
  (nadded s + n0)%nat = base.size (objects (sworld s)).

(** ** Folders, uploads, deletions and links ([src/server/aws.ts])

    The functions that write to the remote store are given by the requests
    they send.  A request that the store rejects ends the function with its
    error: [rejects i] is that error for the request numbered [i] by the
    loop that sends it. *)

(** [s.replace(/\/+$/g, "")]: the text without its trailing separators. *)
Fixpoint strip_trailing_slashes (s : string) : string :=
  match s with
  | EmptyString => EmptyString
  | String a r =>
      let r' := strip_trailing_slashes r in
      if Ascii.eqb a slash && negb (truthy r') then EmptyString else String a r'
  end.

(** [s.replace(/\/+/g, "/")]: every run of separators becomes one. *)
Fixpoint collapse_slashes (s : string) : string :=
  match s with
  | EmptyString => EmptyString
  | String a r =>
      if Ascii.eqb a slash && starts_with "/" r then collapse_slashes r
      else String a (collapse_slashes r)
  end.

(** The input of a [PutObjectCommand]; the bucket is that of the
    configuration. *)
Record PutObject := {
  put_Key : string;
  put_Body : string;
  put_ContentType : option string;
  put_ACL : string
}.

(** One file of an upload: [data], [path], [type]. *)
Record Uploadable := { udata : string; upath : string; utype : option string }.

Section Writes.
(** [serverConfig.defaultObjectAcl]. *)
Variable defaultObjectAcl : string.

(** The request of [createFolder]: an empty object whose key ends with a
    separator.  The function returns that key. *)
Definition createFolder (prefix name : string) : PutObject :=
  let normalized := normalizePrefix prefix in
  let cleanName := strip_trailing_slashes name in
  let key := (normalized +:+ cleanName +:+ "/")%string in
  {| put_Key := key; put_Body := EmptyString; put_ContentType := None;
     put_ACL := defaultObjectAcl |}.

Variable rejects : nat -> option string.

(** The loop of [uploadToPrefix] from the file numbered [i]: the requests
    sent and the error that ended it, if any. *)
Fixpoint upload_loop (normalized : string) (i : nat) (files : list Uploadable)
    : list PutObject * option string :=
  match files with
  | [] => ([], None)
  | file :: rest =>
      let key := collapse_slashes (normalized +:+ upath file) in
      let request :=
        {| put_Key := key;
           put_Body := udata file;
           put_ContentType :=
             Some (default "application/octet-stream"%string (opt_or_null (utype file)));
           put_ACL := defaultObjectAcl |} in
      match rejects i with
      | Some err => ([request], Some err)
      | None =>
          let '(sent, result) := upload_loop normalized (S i) rest in
          (request :: sent, result)
      end
  end.

Definition uploadToPrefix (prefix : string) (files : list Uploadable)
    : list PutObject * option string :=
  upload_loop (normalizePrefix prefix) 0 files.
End Writes.

(** [response.Contents.map((item) => item.Key).filter(Boolean)]. *)
Definition page_keys (contents : list S3Item) : list string :=
  omap (fun item => opt_or_null (item_Key item)) contents.

(** The listing loop of [deleteFolder] with its [allKeys]; [Some err] is a
    rejected promise. *)
Fixpoint list_all_keys (l : listing) (allKeys : list string) : list string * option string :=
  match l with
  | Fails err => (allKeys, Some err)
  | LastPage contents => (allKeys ++ page_keys contents, None)
  | NextPage contents rest => list_all_keys rest (allKeys ++ page_keys contents)
  end.

(** [keys.slice(i, j)] for [0 <= i <= j]. *)
Definition slice_keys (i j : nat) (keys : list string) : list string :=
  take (j - i) (drop i keys).

(** The number of keys of one [DeleteObjectsCommand]. *)
Definition batch_limit : nat := 1000.

Section Delete.
(** What the store answers to the listing requests under a prefix. *)
Variable remote : string -> listing.
(** The error of the deletion request that starts at the key numbered
    [i], if the store rejects it. *)
Variable rejects : nat -> option string.

(** [for (let i = 0; i < allKeys.length; i += 1000)], from [i]: the batches
    sent and the error that ended the loop, if any.  Every turn moves [i]
    forward, so [length allKeys] turns are enough. *)
Fixpoint delete_loop (fuel i : nat) (allKeys : list string)
    : list (list string) * option string :=
  match fuel with
  | O => ([], None)
  | S fuel' =>
      if (i <? length allKeys)%nat then
        let batch := slice_keys i (i + batch_limit) allKeys in
        match rejects i with
        | Some err => ([batch], Some err)
        | None =>
            let '(sent, result) := delete_loop fuel' (i + batch_limit) allKeys in
            (batch :: sent, result)
        end
      else ([], None)
  end.

Definition deleteFolder (prefix : string) : list (list string) * option string :=
  let normalized := normalizePrefix prefix in
  match list_all_keys (remote normalized) [] with
  | (_, Some err) => ([], Some err)
  | (allKeys, None) =>
      if (0 <? length allKeys)%nat then delete_loop (length allKeys) 0 allKeys
      else ([], None)
  end.
End Delete.

(** The characters that [encodeURIComponent] keeps: letters, digits and
    [- _ . ! ~ * ' ( )]. *)
Definition unreserved (a : ascii) : bool :=
  let n := nat_of_ascii a in
  ((65 <=? n)%nat && (n <=? 90)%nat) || ((97 <=? n)%nat && (n <=? 122)%nat)
  || ((48 <=? n)%nat && (n <=? 57)%nat) || has_char a "-_.!~*'()".

Definition hex_digit (n : nat) : ascii :=
  if (n <? 10)%nat then ascii_of_nat (48 + n) else ascii_of_nat (55 + n).

(** [%XX], in upper-case hexadecimal. *)
Definition percent_encode (a : ascii) : string :=
  String percent
    (String (hex_digit (nat_of_ascii a / 16))
       (String (hex_digit (nat_of_ascii a mod 16)) EmptyString)).

(** [encodeURIComponent] on the UTF-8 text of a string: a kept character
    stands for itself, every other byte is escaped. *)
Fixpoint encodeURIComponent (s : string) : string :=
  match s with
  | EmptyString => EmptyString
  | String a r =>
      ((if unreserved a then String a EmptyString else percent_encode a)
       +:+ encodeURIComponent r)%string
  end.

(** [parts.join(sep)]. *)
Fixpoint join (sep : string) (parts : list string) : string :=
  match parts with
  | [] => EmptyString
  | [p] => p
  | p :: rest => (p +:+ sep +:+ join sep rest)%string
  end.

Definition encodeKey (key : string) : string :=
  join "/" (map encodeURIComponent (split slash key)).

(** The part of [serverConfig] that the links read. *)
Record LinkConfig := {
  bucket : string;
  region : string;
  publicBaseUrl : option string
}.

Definition objectPublicUrl (config : LinkConfig) (key : string) : string :=
  let base :=
    match opt_or_null (publicBaseUrl config) with
    | Some b => b
    | None =>
        ("https://" +:+ bucket config +:+ ".s3."
         +:+ (if truthy (region config) then region config else "us-east-1")
         +:+ ".amazonaws.com")%string
    end in
  (base +:+ "/" +:+ encodeKey key)%string.

(** The keys that the listing loop of [deleteFolder] gathers, page after
    page. *)
Fixpoint listing_keys (l : listing) : list string :=
  match l with
  | Fails _ => []
  | LastPage contents => page_keys contents
  | NextPage contents rest => page_keys contents ++ listing_keys rest
  end.

(** No two separators side by side after the first character. *)
Definition single_slashes (key : string) : bool := clean_from false key.

(** The characters of a link path: kept characters, separators, and the
    escape mark with its digits. *)
Definition link_char (a : ascii) : bool :=
  unreserved a || Ascii.eqb a slash || Ascii.eqb a percent.

(** The keys of a list other than [normalized]. *)
Definition except (normalized : string) (keys : list string) : list string :=
  filter (fun k => k <> normalized) keys.

(** One character of a key as [encodeKey] writes it. *)
Definition encode_char (a : ascii) : string :=
  if Ascii.eqb a slash then String slash EmptyString
  else if unreserved a then String a EmptyString else percent_encode a.

Definition hex_value (a : ascii) : nat :=
  let n := nat_of_ascii a in if (n <? 58)%nat then (n - 48)%nat else (n - 55)%nat.

(** The reading of a link path back into a key: each escape gives its
    byte, every other character stands for itself. *)
Fixpoint unescape (s : string) : string :=
  match s with
  | EmptyString => EmptyString
  | String a r =>
      match r with
      | String h (String l r') =>
          if Ascii.eqb a percent
          then String (ascii_of_nat (16 * hex_value h + hex_value l)) (unescape r')
          else String a (unescape r)
      | _ => String a (unescape r)
      end
  end.

(** The items of the pages that the remote answered before the end of the
    enumeration or its failure. *)
Fixpoint listing_items (l : listing) : list S3Item :=
  match l with
  | Fails _ => []
  | LastPage contents => contents
  | NextPage contents rest => contents ++ listing_items rest
  end.

(** The row that the scans write for a listed object, and the row they
    write for a synthesized folder, at the clock reading [now]. *)
Definition file_row_of (obj : S3ObjectDetail) (now : string) : row :=
  {| name := basename (okey obj);
     extension := or_null (extractExtension (okey obj));
     size := osize obj;
     last_modified := opt_or_null (olastModified obj);
     etag := opt_or_null (oetag obj);
     updated_at := now;
     type := File |}.

Definition folder_row_of (key : string) (now : string) : row :=
  {| name := basename key; extension := None; size := 0; last_modified := None;
     etag := None; updated_at := now; type := Folder |}.

(** ** Sample data of the specification's examples *)

Module Sample.
Local Open Scope string_scope.

(** A clock whose readings differ from one another and are never empty. *)
Definition clock (n : nat) : string :=
  "2026-01-01T00:00:00.00" +:+ pretty n +:+ "Z".

Definition item (key : string) (sz : Z) : S3Item :=
  {| item_Key := Some key; item_Size := Some sz;
     item_LastModified := Some "2025-06-01T12:00:00.000Z";
     item_ETag := Some "9b2cf535f27731c974343645a3985328" |}.

(** The row that a scan writes for [item key sz]. *)
Definition file_row (key : string) (sz : Z) (written : string) : row :=
  {| name := basename key; extension := or_null (extractExtension key); size := sz;
     last_modified := Some "2025-06-01T12:00:00.000Z";
     etag := Some "9b2cf535f27731c974343645a3985328";
     updated_at := written; type := File |}.

Definition empty_world : world :=
  {| objects := ∅; rowids := ∅; index_state := None; ticks := 0 |}.

(** An index that holds the files [a.txt] and [b.txt]. *)
Definition two_files : world :=
  {| objects := <["a.txt" := file_row "a.txt" 3 "2025-12-31T08:00:00.000Z"]>
                  (<["b.txt" := file_row "b.txt" 4 "2025-12-31T08:00:01.000Z"]> ∅);
     rowids := <["a.txt" := 1%nat]> (<["b.txt" := 2%nat]> ∅);
     index_state := Some {| last_full_scan := Some "2025-12-31T08:00:02.000Z";
                            last_delta_scan := Some "2025-12-31T08:00:02.000Z" |};
     ticks := 0 |}.

(** The remote holds [a.txt] only. *)
Definition only_a : listing := LastPage [item "a.txt" 3].

(** Two pages, the second of which cannot be fetched. *)
Definition second_page_fails : listing :=
  NextPage [item "a.txt" 3] (Fails "NetworkingError").

(** A folder created through [createFolder], then a file uploaded into
    it, in the order in which the remote lists them. *)
Definition folder_with_file : listing :=
  LastPage [item "docs/" 0; item "docs/a.txt" 5].
(** One object whose key has an empty segment. *)
Definition double_slash : listing := LastPage [item "a//b.txt" 7].

(** The object that stands for the folder listed after the file in it. *)
Definition folder_after_file : listing :=
  LastPage [item "docs/a.txt" 5; item "docs/" 0].
(** An empty folder: the object that [createFolder] puts, alone. *)
Definition empty_folder : listing := LastPage [item "docs/" 0].

(** The index after a refresh that saw the empty folder only. *)
Definition folder_indexed : world := (refreshIndex clock empty_folder empty_world).1.
(** The two objects of the specification's rebuild example. *)
Definition two_documents : listing :=
  LastPage [item "docs/img/logo.png" 20; item "docs/readme.txt" 10].
End Sample.

(** * Properties *)

(** ** Key decomposition *)

Section KeyDecomposition.
Lemma lastIndexOf_absent c s : has_char c s = false -> lastIndexOf c s = -1.
Proof.
  induction s as [|a r IH]; simpl; [reflexivity|].
  intros H. apply orb_false_iff in H as [Ha Hr].
  rewrite (IH Hr), Ha. reflexivity.
Qed.

Lemma lastIndexOf_present c s : has_char c s = true -> 0 <= lastIndexOf c s.
Proof.
  induction s as [|a r IH]; simpl; [discriminate|].
  intros H. destruct (0 <=? lastIndexOf c r) eqn:E.
  - apply Z.leb_le in E. lia.
  - destruct (Ascii.eqb a c) eqn:Ea; [lia|].
    simpl in H. apply IH in H. apply Z.leb_gt in E. lia.
Qed.

Lemma lastIndexOf_upper_bound c s : lastIndexOf c s < Z.of_nat (String.length s).
Proof.
  induction s as [|a r IH]; simpl String.length; simpl lastIndexOf; [lia|].
  destruct (0 <=? lastIndexOf c r); [lia|].
  destruct (Ascii.eqb a c); lia.
Qed.

(** The last occurrence, when the tail after it has none. *)
Lemma lastIndexOf_app_last c pre suf :
  has_char c suf = false ->
  lastIndexOf c (pre +:+ String c suf) = Z.of_nat (String.length pre).
Proof.
  intros H. induction pre as [|a r IH].
  - simpl. rewrite (lastIndexOf_absent _ _ H). simpl. rewrite Ascii.eqb_refl. reflexivity.
  - simpl String.length.
    change (String a r +:+ String c suf) with (String a (r +:+ String c suf)).
    simpl lastIndexOf. rewrite IH.
    destruct (0 <=? Z.of_nat (String.length r)) eqn:E; [lia|].
    apply Z.leb_gt in E. lia.
Qed.

(** An occurrence strictly after position [length pre]. *)
Lemma lastIndexOf_after_head c pre a suf :
  has_char c suf = true ->
  Z.of_nat (String.length pre) < lastIndexOf c (pre +:+ String a suf).
Proof.
  intros H. induction pre as [|b r IH].
  - simpl. pose proof (lastIndexOf_present c suf H) as Hp.
    apply Z.leb_le in Hp. rewrite Hp. apply Z.leb_le in Hp. lia.
  - simpl String.length.
    change (String b r +:+ String a suf) with (String b (r +:+ String a suf)).
    simpl lastIndexOf.
    destruct (0 <=? lastIndexOf c (r +:+ String a suf)) eqn:E; [lia|].
    apply Z.leb_gt in E. lia.
Qed.

(** No occurrence in the tail keeps the last index inside the head. *)
Lemma lastIndexOf_app_not_in_tail c pre suf :
  has_char c suf = false ->
  lastIndexOf c (pre +:+ suf) = lastIndexOf c pre.
Proof.
  intros H. induction pre as [|a r IH].
  - simpl. apply lastIndexOf_absent. exact H.
  - change (String a r +:+ suf) with (String a (r +:+ suf)).
    simpl lastIndexOf. rewrite IH. reflexivity.
Qed.

Lemma slice_after pre a suf :
  slice (S (String.length pre)) (pre +:+ String a suf) = suf.
Proof. induction pre as [|b r IH]; [destruct suf; reflexivity|exact IH]. Qed.

(** C5. [extractExtension] returns the lower-cased text after the last
    dot of the key when no path separator follows that dot, and the empty
    string, which callers store as absent, otherwise: when the key has no
    dot, or when a separator follows the last dot.  The three keys of the
    specification evaluate as it says. *)
Theorem extractExtension_spec (key : string) :
  (has_char dot key = false -> extractExtension key = EmptyString)
  /\ (forall pre suf,
        key = pre +:+ String dot suf ->
        has_char dot suf = false ->
        extractExtension key
        = if has_char slash suf then EmptyString else toLowerCase suf)
  /\ extractExtension "a/b/report.v2.CSV"%string = "csv"%string
  /\ or_null (extractExtension "a/b/noext"%string) = None
  /\ or_null (extractExtension "a.b/noext"%string) = None.
Proof.
  split; [|split; [|repeat split; reflexivity]].
  - intros H. unfold extractExtension.
    rewrite (lastIndexOf_absent _ _ H). reflexivity.
  - intros pre suf -> Hdot. unfold extractExtension.
    rewrite (lastIndexOf_app_last dot pre suf Hdot).
    destruct (has_char slash suf) eqn:Hs.
    + assert (Hs' : has_char slash (String dot suf) = true).
      { simpl. exact Hs. }
      pose proof (lastIndexOf_after_head slash pre dot suf Hs') as Hin.
      destruct (Z.of_nat (String.length pre) =? -1) eqn:E1; [reflexivity|].
      destruct (_ <? lastIndexOf slash (pre +:+ String dot suf)) eqn:E2; [reflexivity|].
      apply Z.ltb_ge in E2. lia.
    + assert (Hs' : has_char slash (String dot suf) = false).
      { simpl. rewrite Hs. reflexivity. }
      rewrite (lastIndexOf_app_not_in_tail slash pre _ Hs').
      pose proof (lastIndexOf_upper_bound slash pre) as Hub.
      destruct (Z.of_nat (String.length pre) =? -1) eqn:E1; [apply Z.eqb_eq in E1; lia|].
      destruct (Z.of_nat (String.length pre) <? lastIndexOf slash pre) eqn:E2;
        [apply Z.ltb_lt in E2; lia|].
      replace (Z.to_nat (Z.of_nat (String.length pre) + 1))
        with (S (String.length pre)) by lia.
      rewrite slice_after. reflexivity.
Qed.

Lemma extractExtension_spec_witness :
  extractExtension "a/b/report.v2.CSV"%string = "csv"%string
  /\ extractExtension "a.b/noext"%string = EmptyString
  /\ extractExtension "a/b/noext"%string = EmptyString.
Proof.
  split; [|split].
  - exact (proj1 (proj2 (extractExtension_spec "a/b/report.v2.CSV"%string))
             "a/b/report.v2"%string "CSV"%string eq_refl eq_refl).
  - exact (proj1 (proj2 (extractExtension_spec "a.b/noext"%string))
             "a"%string "b/noext"%string eq_refl eq_refl).
  - exact (proj1 (extractExtension_spec "a/b/noext"%string) eq_refl).
Defined.
End KeyDecomposition.

(** ** The index store *)

Section Store.

Lemma count_type_insert_fresh ty (m : gmap string row) k r :
  m !! k = None ->
  count_type ty (<[k := r]> m)
  = ((if bool_decide (type r = ty) then 1 else 0) + count_type ty m)%nat.
Proof.
  intros Hk. unfold count_type.
  rewrite (Permutation_length
             (filter_Permutation _ _ _ (map_to_list_insert m k r Hk))).
  rewrite filter_cons. simpl. case_bool_decide as Hd.
  - rewrite decide_True by exact Hd. reflexivity.
  - rewrite decide_False by exact Hd. reflexivity.
Qed.

Lemma count_type_empty ty : count_type ty ∅ = 0%nat.
Proof. unfold count_type. rewrite map_to_list_empty. reflexivity. Qed.

Lemma count_type_split (m : gmap string row) :
  (count_type File m + count_type Folder m)%nat = base.size m.
Proof.
  induction m as [|k r m Hk _ IH] using map_first_key_ind.
  - rewrite !count_type_empty, map_size_empty. reflexivity.
  - rewrite !count_type_insert_fresh by exact Hk.
    rewrite map_size_insert_None by exact Hk.
    destruct (type r); repeat case_bool_decide; try congruence; lia.
Qed.

(** C10. [objectCount] is the number of file rows: with the number of
    folder rows it adds up to the number of stored rows, a folder row
    written under a new key leaves it as it is while a file row adds one,
    and an index with a folder row has an [objectCount] below its number
    of rows. *)
Theorem objectCount_counts_files (w : world) :
  (objectCount (getIndexStatus w) + count_type Folder (objects w))%nat
  = base.size (objects w)
  /\ (forall key nm ext sz lm tag now ty,
        objects w !! key = None ->
        objectCount (getIndexStatus (upsertObject key nm ext sz lm tag now ty w))
        = match ty with
          | File => S (objectCount (getIndexStatus w))
          | Folder => objectCount (getIndexStatus w)
          end
        /\ base.size (objects (upsertObject key nm ext sz lm tag now ty w))
           = S (base.size (objects w)))
  /\ (forall key r,
        objects w !! key = Some r -> type r = Folder ->
        (objectCount (getIndexStatus w) < base.size (objects w))%nat).
Proof.
  split; [|split].
  - apply count_type_split.
  - intros key nm ext sz lm tag now ty Hk. simpl. split.
    + rewrite count_type_insert_fresh by exact Hk. simpl.
      destruct ty; case_bool_decide; try congruence; reflexivity.
    + apply map_size_insert_None. exact Hk.
  - intros key r Hk Hty. simpl.
    rewrite <- (count_type_split (objects w)).
    rewrite <- (insert_delete_id (objects w) key r Hk).
    rewrite !count_type_insert_fresh by apply lookup_delete_eq.
    rewrite Hty. repeat case_bool_decide; try congruence. lia.
Qed.

Lemma objectCount_counts_files_witness :
  let w := upsertObject "docs/" "docs" None 0 None None "t0" Folder
             {| objects := ∅; rowids := ∅; index_state := None; ticks := 0 |} in
  (objectCount (getIndexStatus w) < base.size (objects w))%nat
  /\ objectCount (getIndexStatus
                   (upsertObject "docs/a.txt" "a.txt" (Some "txt"%string) 5 None None "t1" File w))
     = 1%nat.
Proof.
  intros w. split.
  - apply (proj2 (proj2 (objectCount_counts_files w)) "docs/"%string
             {| name := "docs"; extension := None; size := 0; last_modified := None;
                etag := None; updated_at := "t0"; type := Folder |});
      reflexivity.
  - apply (proj1 (proj1 (proj2 (objectCount_counts_files w)) "docs/a.txt"%string "a.txt"%string
                    (Some "txt"%string) 5 None None "t1"%string File eq_refl)).
Defined.
End Store.

(** ** The remote lister *)

Section Lister.
Context {State : Type} (onObject : S3ObjectDetail -> State -> State).

Lemma walk_pages_fold normalized l s :
  walk_pages onObject normalized l s
  = (foldl (fun s o => onObject o s) s (listing_objects normalized l), listing_error l).
Proof.
  revert s. induction l as [err|contents|contents rest IH]; intros s; simpl; try reflexivity.
  rewrite IH, foldl_app. reflexivity.
Qed.

Lemma walkAllObjects_fold l s :
  walkAllObjects onObject EmptyString l s
  = (foldl (fun s o => onObject o s) s (listing_objects EmptyString l), listing_error l).
Proof. apply walk_pages_fold. Qed.
End Lister.

(** ** Delta refresh: what one run touches *)

Section RefreshFrame.
Variable clock : nat -> string.

Lemma fresh_scan_ok w : scan_ok (fresh_scan w).
Proof. split; simpl; set_solver. Qed.

Lemma refresh_folder_state s f :
  index_state (sworld (refresh_folder clock s f)) = index_state (sworld s).
Proof.
  unfold refresh_folder. case_bool_decide; [reflexivity|].
  destruct (needsFolder _); reflexivity.
Qed.

Lemma refresh_folder_other s f k :
  k <> fkey f ->
  objects (sworld (refresh_folder clock s f)) !! k = objects (sworld s) !! k.
Proof.
  intros Hk. unfold refresh_folder. case_bool_decide; [reflexivity|].
  destruct (needsFolder _); simpl; [|reflexivity].
  rewrite lookup_insert_ne by congruence. reflexivity.
Qed.

Lemma refresh_folder_seenKeys s f :
  scan_ok s -> seenKeys (refresh_folder clock s f) = {[fkey f]} ∪ seenKeys s.
Proof.
  intros [Hf _]. unfold refresh_folder. case_bool_decide; [set_solver|].
  destruct (needsFolder _); reflexivity.
Qed.

Lemma refresh_folder_seenFolders s f :
  seenFolders (refresh_folder clock s f) = {[fkey f]} ∪ seenFolders s.
Proof.
  unfold refresh_folder. case_bool_decide; [set_solver|].
  destruct (needsFolder _); reflexivity.
Qed.

Lemma refresh_folder_dom s f :
  scan_ok s ->
  dom (objects (sworld (refresh_folder clock s f))) = {[fkey f]} ∪ dom (objects (sworld s)).
Proof.
  intros [Hf Hk]. unfold refresh_folder. case_bool_decide; [set_solver|].
  unfold needsFolder, getObject.
  destruct (objects (sworld s) !! fkey f) as [e|] eqn:He; simpl.
  - assert (fkey f ∈ dom (objects (sworld s))) by (apply elem_of_dom; eauto).
    destruct (_ || _); simpl; [rewrite dom_insert_L|]; set_solver.
  - rewrite dom_insert_L. reflexivity.
Qed.

Lemma refresh_folder_ok s f : scan_ok s -> scan_ok (refresh_folder clock s f).
Proof.
  intros Hs. split.
  - rewrite refresh_folder_seenFolders, refresh_folder_seenKeys by exact Hs.
    destruct Hs. set_solver.
  - rewrite refresh_folder_seenKeys, refresh_folder_dom by exact Hs.
    destruct Hs. set_solver.
Qed.

Lemma refresh_folders_ok fs s : scan_ok s -> scan_ok (foldl (refresh_folder clock) s fs).
Proof.
  revert s. induction fs as [|f fs IH]; intros s Hs; simpl; [exact Hs|].
  apply IH, refresh_folder_ok, Hs.
Qed.

Lemma refresh_folders_seenKeys fs s :
  scan_ok s ->
  seenKeys (foldl (refresh_folder clock) s fs) = list_to_set (map fkey fs) ∪ seenKeys s.
Proof.
  revert s. induction fs as [|f fs IH]; intros s Hs; simpl; [set_solver|].
  rewrite IH by (apply refresh_folder_ok, Hs).
  rewrite refresh_folder_seenKeys by exact Hs. set_solver.
Qed.

Lemma refresh_folders_dom fs s :
  scan_ok s ->
  dom (objects (sworld (foldl (refresh_folder clock) s fs)))
  = list_to_set (map fkey fs) ∪ dom (objects (sworld s)).
Proof.
  revert s. induction fs as [|f fs IH]; intros s Hs; simpl; [set_solver|].
  rewrite IH by (apply refresh_folder_ok, Hs).
  rewrite refresh_folder_dom by exact Hs. set_solver.
Qed.

Lemma refresh_folders_state fs s :
  index_state (sworld (foldl (refresh_folder clock) s fs)) = index_state (sworld s).
Proof.
  revert s. induction fs as [|f fs IH]; intros s; simpl; [reflexivity|].
  rewrite IH. apply refresh_folder_state.
Qed.

Lemma refresh_folders_other fs s k :
  k ∉ map fkey fs ->
  objects (sworld (foldl (refresh_folder clock) s fs)) !! k = objects (sworld s) !! k.
Proof.
  revert s. induction fs as [|f fs IH]; intros s Hk; simpl; [reflexivity|].
  simpl in Hk. apply not_elem_of_cons in Hk as [Hne Hk].
  rewrite IH by exact Hk. apply refresh_folder_other. exact Hne.
Qed.

Lemma refresh_file_state obj s :
  index_state (sworld (refresh_file clock obj s)) = index_state (sworld s).
Proof. unfold refresh_file. simpl. destruct (needsUpdate _ _); reflexivity. Qed.

Lemma refresh_file_other obj s k :
  k <> okey obj ->
  objects (sworld (refresh_file clock obj s)) !! k = objects (sworld s) !! k.
Proof.
  intros Hk. unfold refresh_file. simpl. destruct (needsUpdate _ _); simpl; [|reflexivity].
  rewrite lookup_insert_ne by congruence. reflexivity.
Qed.

Lemma refresh_file_dom obj s :
  dom (objects (sworld (refresh_file clock obj s))) = {[okey obj]} ∪ dom (objects (sworld s)).
Proof.
  unfold refresh_file, needsUpdate, getObject. simpl.
  destruct (objects (sworld s) !! okey obj) as [e|] eqn:He; simpl.
  - assert (okey obj ∈ dom (objects (sworld s))) by (apply elem_of_dom; eauto).
    destruct (_ || _); simpl; [rewrite dom_insert_L|]; set_solver.
  - rewrite dom_insert_L. reflexivity.
Qed.

Lemma refresh_object_ok obj s : scan_ok s -> scan_ok (refresh_object clock obj s).
Proof.
  intros Hs. unfold refresh_object.
  pose proof (refresh_folders_ok (folderPrefixesForKey (okey obj)) s Hs) as [Hf Hk].
  split.
  - unfold refresh_file at 1 2. simpl. set_solver.
  - rewrite refresh_file_dom. unfold refresh_file at 1. simpl. set_solver.
Qed.

Lemma refresh_object_seenKeys obj s :
  scan_ok s -> seenKeys (refresh_object clock obj s) = object_keys obj ∪ seenKeys s.
Proof.
  intros Hs. unfold refresh_object, refresh_file at 1. simpl.
  rewrite refresh_folders_seenKeys by exact Hs. unfold object_keys. set_solver.
Qed.

Lemma refresh_object_dom obj s :
  scan_ok s ->
  dom (objects (sworld (refresh_object clock obj s)))
  = object_keys obj ∪ dom (objects (sworld s)).
Proof.
  intros Hs. unfold refresh_object. rewrite refresh_file_dom.
  rewrite refresh_folders_dom by exact Hs. unfold object_keys. set_solver.
Qed.

Lemma refresh_object_state obj s :
  index_state (sworld (refresh_object clock obj s)) = index_state (sworld s).
Proof. unfold refresh_object. rewrite refresh_file_state. apply refresh_folders_state. Qed.

Lemma refresh_object_other obj s k :
  k ∉ object_keys obj ->
  objects (sworld (refresh_object clock obj s)) !! k = objects (sworld s) !! k.
Proof.
  intros Hk. unfold object_keys in Hk. unfold refresh_object.
  rewrite refresh_file_other by set_solver.
  apply refresh_folders_other. set_solver.
Qed.

Lemma refresh_walk_cons o objs s :
  refresh_walk clock (o :: objs) s = refresh_walk clock objs (refresh_object clock o s).
Proof. reflexivity. Qed.

Lemma observed_keys_cons o objs : observed_keys (o :: objs) = object_keys o ∪ observed_keys objs.
Proof. reflexivity. Qed.

Lemma observed_keys_nil : observed_keys [] = ∅.
Proof. reflexivity. Qed.

Lemma refresh_walk_ok objs s : scan_ok s -> scan_ok (refresh_walk clock objs s).
Proof.
  revert s. induction objs as [|o objs IH]; intros s Hs; [exact Hs|].
  rewrite refresh_walk_cons. apply IH, refresh_object_ok, Hs.
Qed.

Lemma refresh_walk_seenKeys objs s :
  scan_ok s -> seenKeys (refresh_walk clock objs s) = observed_keys objs ∪ seenKeys s.
Proof.
  revert s. induction objs as [|o objs IH]; intros s Hs.
  - rewrite observed_keys_nil. simpl. set_solver.
  - rewrite refresh_walk_cons, observed_keys_cons, IH by (apply refresh_object_ok, Hs).
    rewrite refresh_object_seenKeys by exact Hs. set_solver.
Qed.

Lemma refresh_walk_dom objs s :
  scan_ok s ->
  dom (objects (sworld (refresh_walk clock objs s))) = observed_keys objs ∪ dom (objects (sworld s)).
Proof.
  revert s. induction objs as [|o objs IH]; intros s Hs.
  - rewrite observed_keys_nil. simpl. set_solver.
  - rewrite refresh_walk_cons, observed_keys_cons, IH by (apply refresh_object_ok, Hs).
    rewrite refresh_object_dom by exact Hs. set_solver.
Qed.

Lemma refresh_walk_state objs s :
  index_state (sworld (refresh_walk clock objs s)) = index_state (sworld s).
Proof.
  revert s. induction objs as [|o objs IH]; intros s; [reflexivity|].
  rewrite refresh_walk_cons, IH. apply refresh_object_state.
Qed.

Lemma refresh_walk_other objs s k :
  k ∉ observed_keys objs ->
  objects (sworld (refresh_walk clock objs s)) !! k = objects (sworld s) !! k.
Proof.
  revert s. induction objs as [|o objs IH]; intros s Hk; [reflexivity|].
  rewrite observed_keys_cons in Hk.
  rewrite refresh_walk_cons, IH by set_solver.
  apply refresh_object_other. set_solver.
Qed.
End RefreshFrame.

(** ** Delta refresh: failure, sweep and summary *)

Section Refresh.
Variable clock : nat -> string.

Lemma refreshIndex_failed remote w err :
  listing_error remote = Some err ->
  refreshIndex clock remote w
  = (sworld (refresh_walk clock (delivered remote) (fresh_scan w)), inl err).
Proof.
  intros He. unfold refreshIndex. rewrite walkAllObjects_fold, He. reflexivity.
Qed.

(** C1. When the enumeration fails, [refreshIndex] returns the error and
    no summary, the scan state is not written, and every row of the index
    is still there: unchanged unless its key was observed on the pages
    processed before the failure, in which case an upsert of the run may
    have overwritten it. *)
Theorem refreshIndex_failure_deletes_nothing remote w err :
  listing_error remote = Some err ->
  snd (refreshIndex clock remote w) = inl err
  /\ index_state (fst (refreshIndex clock remote w)) = index_state w
  /\ dom (objects w) ⊆ dom (objects (fst (refreshIndex clock remote w)))
  /\ forall key r,
       objects w !! key = Some r ->
       is_Some (objects (fst (refreshIndex clock remote w)) !! key)
       /\ (key ∉ observed_keys (delivered remote) ->
           objects (fst (refreshIndex clock remote w)) !! key = Some r).
Proof.
  intros He. rewrite (refreshIndex_failed remote w err He). simpl.
  pose proof (refresh_walk_dom clock (delivered remote) (fresh_scan w) (fresh_scan_ok w)) as Hd.
  simpl in Hd. split; [reflexivity|]. split; [apply refresh_walk_state|].
  split; [rewrite Hd; set_solver|].
  intros key r Hk. split.
  - apply elem_of_dom. rewrite Hd. apply elem_of_union_r, elem_of_dom. eauto.
  - intros Hno. rewrite refresh_walk_other by exact Hno. exact Hk.
Qed.

End Refresh.

Lemma refreshIndex_failure_deletes_nothing_witness :
  snd (refreshIndex Sample.clock Sample.second_page_fails Sample.two_files)
  = inl "NetworkingError"%string
  /\ is_Some (objects (fst (refreshIndex Sample.clock Sample.second_page_fails Sample.two_files))
              !! "b.txt"%string).
Proof.
  pose proof (refreshIndex_failure_deletes_nothing Sample.clock Sample.second_page_fails
                Sample.two_files "NetworkingError"%string eq_refl) as (H1 & _ & _ & H4).
  split; [exact H1|].
  exact (proj1 (H4 "b.txt"%string
                  (Sample.file_row "b.txt" 4 "2025-12-31T08:00:01.000Z") eq_refl)).
Defined.

Section Sweep.

(** The sweep, key by key. *)
Lemma sweep_fold seen keys w n :
  let r := foldl (sweep_step seen) (w, n) keys in
  index_state r.1 = index_state w
  /\ ticks r.1 = ticks w
  /\ (forall k, objects r.1 !! k
                = if bool_decide (k ∈ keys /\ k ∉ seen) then None else objects w !! k)
  /\ r.2 = (n + length (unseen seen keys))%nat.
Proof.
  revert w n. induction keys as [|key keys IH]; intros w n; cbn [foldl fst snd].
  - split; [reflexivity|]. split; [reflexivity|].
    split; [|unfold unseen; rewrite filter_nil; simpl; lia].
    intros k. rewrite bool_decide_eq_false_2; [reflexivity|]. intros [Hk _]. inversion Hk.
  - change (sweep_step seen (w, n) key)
      with (if bool_decide (key ∈ seen) then (w, n) else (deleteObjectStmt key w, S n)).
    case_bool_decide as Hseen.
    + destruct (IH w n) as (H1 & H2 & H3 & H4). repeat split; try assumption.
      * intros k. rewrite H3. repeat case_bool_decide; try reflexivity.
        -- exfalso. set_solver.
        -- exfalso. set_solver.
      * rewrite H4. unfold unseen.
        rewrite filter_cons_False by (intros Hn; apply Hn; exact Hseen). reflexivity.
    + destruct (IH (deleteObjectStmt key w) (S n)) as (H1 & H2 & H3 & H4).
      repeat split; try assumption.
      * intros k. rewrite H3. cbn [deleteObjectStmt objects].
        destruct (decide (k = key)) as [->|Hne].
        -- rewrite lookup_delete_eq.
           rewrite (bool_decide_eq_true_2 (key ∈ key :: keys /\ key ∉ seen)) by set_solver.
           case_bool_decide; reflexivity.
        -- rewrite lookup_delete_ne by congruence.
           repeat case_bool_decide; try reflexivity; exfalso; set_solver.
      * rewrite H4. unfold unseen. rewrite filter_cons_True by exact Hseen. simpl. lia.
Qed.

Lemma elem_of_all_keys w k : k ∈ all_keys w <-> k ∈ dom (objects w).
Proof.
  unfold all_keys. rewrite elem_of_dom. split.
  - intros Hk. apply list_elem_of_fmap in Hk as ([k' r] & -> & Hin).
    apply elem_of_map_to_list in Hin. eauto.
  - intros [r Hr]. apply list_elem_of_fmap. exists (k, r). split; [reflexivity|].
    apply elem_of_map_to_list. exact Hr.
Qed.

Lemma sweep_removed_count seen w :
  length (unseen seen (all_keys w)) = base.size (dom (objects w) ∖ seen).
Proof.
  assert (Hnd : NoDup (unseen seen (all_keys w))).
  { apply NoDup_filter, NoDup_fst_map_to_list. }
  etrans; [symmetry; apply (size_list_to_set (C := gset string)), Hnd|]. f_equal.
  apply set_eq. intros k.
  unfold unseen. rewrite elem_of_list_to_set, list_elem_of_filter, elem_of_all_keys. set_solver.
Qed.

Lemma sweep_spec seen w :
  index_state (sweep seen w).1 = index_state w
  /\ ticks (sweep seen w).1 = ticks w
  /\ (forall k, objects (sweep seen w).1 !! k
                = if bool_decide (k ∈ seen) then objects w !! k else None)
  /\ (sweep seen w).2 = base.size (dom (objects w) ∖ seen).
Proof.
  unfold sweep. destruct (sweep_fold seen (all_keys w) w 0) as (H1 & H2 & H3 & H4).
  repeat split; try assumption.
  - intros k. rewrite H3. repeat case_bool_decide; try reflexivity.
    + exfalso. tauto.
    + apply not_elem_of_dom_1. rewrite <- elem_of_all_keys. tauto.
  - rewrite H4. simpl. apply sweep_removed_count.
Qed.

End Sweep.

Section RefreshSweep.
Variable clock : nat -> string.

Lemma refreshIndex_completed remote w :
  listing_error remote = None ->
  let s := refresh_walk clock (delivered remote) (fresh_scan w) in
  let swept := sweep (seenKeys s) (sworld s) in
  let w3 := updateState {| set_full_scan := None;
                           set_delta_scan := Some (Some (clock (ticks swept.1))) |}
              (nowIso clock swept.1).2 in
  refreshIndex clock remote w
  = (w3, inr {| added := nadded s; updated := nupdated s; removed := swept.2;
                files := count_type File (objects w3);
                rfolders := count_type Folder (objects w3) |}).
Proof.
  intros He. unfold refreshIndex. rewrite walkAllObjects_fold, He.
  fold (delivered remote). unfold refresh_walk.
  destruct (sweep _ _) as [w1 n]. reflexivity.
Qed.

(** C4. When the enumeration completes, [refreshIndex] returns a summary;
    the keys it deletes are exactly the keys of the index that the run
    did not observe, as an object key or as a synthesized folder key;
    every observed key keeps the row it had when the walk ended, so that
    the keys stored afterwards are the observed keys; and [removed] is the
    number of deleted keys.  With [a.txt] and [b.txt] indexed and only
    [a.txt] on the remote, the summary is added 0, updated 0, removed 1,
    files 1, folders 0, and a search no longer returns [b.txt]. *)
Theorem refreshIndex_deletes_unobserved :
  (forall remote w,
     listing_error remote = None ->
     (exists summary,
        snd (refreshIndex clock remote w) = inr summary
        /\ removed summary
           = base.size (dom (objects w) ∖ observed_keys (delivered remote)))
     /\ (forall key,
           key ∈ dom (objects w) -> key ∉ observed_keys (delivered remote) ->
           objects (fst (refreshIndex clock remote w)) !! key = None)
     /\ (forall key,
           key ∈ observed_keys (delivered remote) ->
           is_Some (objects (fst (refreshIndex clock remote w)) !! key)
           /\ objects (fst (refreshIndex clock remote w)) !! key
              = objects (sworld (refresh_walk clock (delivered remote) (fresh_scan w))) !! key)
     /\ dom (objects (fst (refreshIndex clock remote w))) = observed_keys (delivered remote))
  /\ snd (refreshIndex Sample.clock Sample.only_a Sample.two_files)
     = inr {| added := 0; updated := 0; removed := 1; files := 1; rfolders := 0 |}
  /\ map ikey (items (fst (searchIndexedObjects Sample.clock
                             {| search := None; limit := None; offset := None |}
                             (fst (refreshIndex Sample.clock Sample.only_a Sample.two_files)))))
     = ["a.txt"%string].
Proof.
  split; [|split; vm_compute; reflexivity].
  intros remote w He. rewrite (refreshIndex_completed remote w He). cbn [fst snd].
  set (s := refresh_walk clock (delivered remote) (fresh_scan w)).
  assert (Hseen : seenKeys s = observed_keys (delivered remote)).
  { unfold s. rewrite refresh_walk_seenKeys by apply fresh_scan_ok. simpl. set_solver. }
  assert (Hdom : dom (objects (sworld s)) = observed_keys (delivered remote) ∪ dom (objects w)).
  { unfold s. rewrite refresh_walk_dom by apply fresh_scan_ok. reflexivity. }
  destruct (sweep_spec (seenKeys s) (sworld s)) as (_ & _ & Hl & Hn).
  rewrite Hseen in Hl, Hn. rewrite Hseen.
  cbn [updateState objects nowIso snd].
  split; [|split; [|split]].
  - eexists. split; [reflexivity|]. cbn [removed]. rewrite Hn, Hdom. f_equal. set_solver.
  - intros key _ Hno. rewrite Hl. rewrite bool_decide_eq_false_2 by exact Hno. reflexivity.
  - intros key Hin. rewrite Hl. rewrite bool_decide_eq_true_2 by exact Hin.
    split; [|reflexivity]. apply elem_of_dom. rewrite Hdom. set_solver.
  - apply set_eq. intros key. rewrite elem_of_dom, Hl. case_bool_decide as Hin.
    + rewrite <- elem_of_dom, Hdom. set_solver.
    + split; [intros [? ?]; discriminate|tauto].
Qed.

End RefreshSweep.

Lemma refreshIndex_deletes_unobserved_witness :
  objects (fst (refreshIndex Sample.clock Sample.only_a Sample.two_files)) !! "b.txt"%string
  = None
  /\ is_Some (objects (fst (refreshIndex Sample.clock Sample.only_a Sample.two_files))
              !! "a.txt"%string).
Proof.
  pose proof (proj1 (refreshIndex_deletes_unobserved Sample.clock)
                Sample.only_a Sample.two_files eq_refl) as (_ & Hgone & Hkept & _).
  split.
  - apply Hgone; vm_compute; set_solver.
  - apply Hkept. vm_compute. set_solver.
Defined.

(** ** The scan state *)

Section ScanState.
Variable clock : nat -> string.

Lemma rebuildIndex_completed remote w :
  listing_error remote = None ->
  let s := rebuild_walk clock (delivered remote) (fresh_scan (clearObjects w)) in
  let w2 := updateState {| set_full_scan := Some (Some (clock (ticks (sworld s))));
                           set_delta_scan := Some (Some (clock (ticks (sworld s)))) |}
              (nowIso clock (sworld s)).2 in
  rebuildIndex clock remote w
  = (w2, inr {| indexed := count_type File (objects w2);
                folders := count_type Folder (objects w2) |}).
Proof.
  intros He. unfold rebuildIndex. rewrite walkAllObjects_fold, He. reflexivity.
Qed.

Lemma rebuildIndex_failed remote w err :
  listing_error remote = Some err ->
  rebuildIndex clock remote w
  = (sworld (rebuild_walk clock (delivered remote) (fresh_scan (clearObjects w))), inl err).
Proof.
  intros He. unfold rebuildIndex. rewrite walkAllObjects_fold, He. reflexivity.
Qed.

(** What [updateState] stores is never the empty string. *)
Lemma updateState_normalises updates w :
  last_full_scan (getState (updateState updates w)) <> Some EmptyString
  /\ last_delta_scan (getState (updateState updates w)) <> Some EmptyString.
Proof.
  unfold updateState, getState. cbn [index_state last_full_scan last_delta_scan].
  split; (destruct (spread _ _) as [[|a r]|]; cbv; congruence).
Qed.

Lemma or_null_nonempty v : v <> EmptyString -> or_null v = Some v.
Proof. destruct v; [congruence|reflexivity]. Qed.

Lemma opt_or_null_stored o : o <> Some EmptyString -> opt_or_null o = o.
Proof. intros H. destruct o as [[|a r]|]; [congruence|reflexivity|reflexivity]. Qed.

(** C9. With a clock that never reads as the empty string and a stored
    [lastFullScan] that is null or a non-empty string (all that
    [updateState] ever stores), a completed [rebuildIndex] stores the
    reading of the clock taken when its walk has ended in both
    [lastFullScan] and [lastDeltaScan]; a completed [refreshIndex] stores
    the reading taken after its sweep in [lastDeltaScan] and leaves
    [lastFullScan] as it was. *)
Theorem completed_scans_stamp_state remote w :
  (forall n, clock n <> EmptyString) ->
  last_full_scan (getState w) <> Some EmptyString ->
  listing_error remote = None ->
  let rebuilt := rebuildIndex clock remote w in
  let refreshed := refreshIndex clock remote w in
  let t_rebuild :=
    clock (ticks (sworld (rebuild_walk clock (delivered remote) (fresh_scan (clearObjects w))))) in
  let t_refresh :=
    clock (ticks (sworld (refresh_walk clock (delivered remote) (fresh_scan w)))) in
  (exists summary, snd rebuilt = inr summary)
  /\ last_full_scan (getState (fst rebuilt)) = Some t_rebuild
  /\ last_delta_scan (getState (fst rebuilt)) = Some t_rebuild
  /\ (exists summary, snd refreshed = inr summary)
  /\ last_delta_scan (getState (fst refreshed)) = Some t_refresh
  /\ last_full_scan (getState (fst refreshed)) = last_full_scan (getState w).
Proof.
  intros Hclock Hstored He. cbv zeta.
  rewrite (rebuildIndex_completed remote w He), (refreshIndex_completed clock remote w He).
  cbn [fst snd].
  set (s := refresh_walk clock (delivered remote) (fresh_scan w)).
  destruct (sweep_spec (seenKeys s) (sworld s)) as (Hst & Htk & _ & _).
  unfold updateState, getState. cbn [index_state nowIso snd last_full_scan last_delta_scan
                                      set_full_scan set_delta_scan spread opt_or_null].
  rewrite Htk, Hst.
  rewrite !or_null_nonempty by apply Hclock.
  repeat split; eauto.
  unfold s. rewrite refresh_walk_state. cbn [fresh_scan sworld].
  apply opt_or_null_stored. exact Hstored.
Qed.
End ScanState.

Lemma completed_scans_stamp_state_witness :
  last_full_scan (getState (fst (refreshIndex Sample.clock Sample.only_a Sample.two_files)))
  = Some "2025-12-31T08:00:02.000Z"%string
  /\ last_delta_scan (getState (fst (refreshIndex Sample.clock Sample.only_a Sample.two_files)))
     = Some "2026-01-01T00:00:00.000Z"%string
  /\ last_full_scan (getState (fst (rebuildIndex Sample.clock Sample.only_a Sample.two_files)))
     = Some "2026-01-01T00:00:00.001Z"%string.
Proof.
  assert (Hclock : forall n, Sample.clock n <> EmptyString) by (intros n; discriminate).
  pose proof (completed_scans_stamp_state Sample.clock Sample.only_a Sample.two_files
                Hclock ltac:(discriminate) eq_refl) as (_ & Hfull & _ & _ & Hdelta & Hkept).
  split; [exact Hkept|]. split; [exact Hdelta|exact Hfull].
Defined.

(** ** The query service *)

Section Ordering.

Lemma insert_row_perm x l : insert_row x l ≡ₚ x :: l.
Proof.
  induction l as [|y r IH]; simpl; [reflexivity|].
  destruct (newer_first x y); [reflexivity|].
  rewrite IH. apply perm_swap.
Qed.

Lemma order_by_updated_desc_perm l : order_by_updated_desc l ≡ₚ l.
Proof.
  induction l as [|x l IH]; simpl; [reflexivity|].
  unfold order_by_updated_desc in *. simpl. rewrite insert_row_perm, IH. reflexivity.
Qed.

Lemma insert_by_rowid_perm w x l : insert_by_rowid w x l ≡ₚ x :: l.
Proof.
  induction l as [|y r IH]; simpl; [reflexivity|].
  destruct (_ <=? _)%nat; [reflexivity|].
  rewrite IH. apply perm_swap.
Qed.

(** A scan of the table meets every row once. *)
Lemma table_rows_perm w : table_rows w ≡ₚ map_to_list (objects w).
Proof.
  unfold table_rows. induction (map_to_list (objects w)) as [|x l IH]; [reflexivity|].
  cbn [foldr]. rewrite insert_by_rowid_perm, IH. reflexivity.
Qed.

Lemma elem_of_table_rows w key r : (key, r) ∈ table_rows w <-> objects w !! key = Some r.
Proof. rewrite table_rows_perm. apply elem_of_map_to_list. Qed.

Lemma NoDup_table_rows w : NoDup (table_rows w).*1.
Proof. rewrite table_rows_perm. apply NoDup_fst_map_to_list. Qed.

Lemma length_table_rows w : length (table_rows w) = base.size (objects w).
Proof. rewrite table_rows_perm. apply length_map_to_list. Qed.

Lemma newer_first_total x y : newer_first x y = false -> newer_first y x = true.
Proof.
  unfold newer_first. intros H.
  destruct (String.leb_total (updated_at x.2) (updated_at y.2)) as [Hle|Hle];
    [exact Hle|congruence].
Qed.

Lemma insert_row_hd x y l :
  HdRel newer_or_same y l -> newer_or_same y x -> HdRel newer_or_same y (insert_row x l).
Proof.
  intros Hl Hx. destruct l as [|z r]; simpl; [constructor; exact Hx|].
  destruct (newer_first x z); constructor; [exact Hx|].
  inversion Hl; assumption.
Qed.

Lemma insert_row_sorted x l :
  Sorted newer_or_same l -> Sorted newer_or_same (insert_row x l).
Proof.
  induction 1 as [|y r Hs IH Hhd]; simpl; [repeat constructor|].
  destruct (newer_first x y) eqn:E.
  - constructor; [constructor; assumption|constructor; exact E].
  - constructor; [exact IH|]. apply insert_row_hd; [exact Hhd|].
    apply newer_first_total, E.
Qed.

Lemma order_by_updated_desc_sorted l : Sorted newer_or_same (order_by_updated_desc l).
Proof.
  induction l as [|x l IH]; [constructor|].
  unfold order_by_updated_desc in *. simpl. apply insert_row_sorted, IH.
Qed.
End Ordering.

Section Presentation.
Variable clock : nat -> string.

Lemma present_rows_keys rows acc :
  map ikey (foldl (present_row clock) acc rows).1 = map ikey acc.1 ++ rows.*1.
Proof.
  revert acc. induction rows as [|kr rows IH]; intros acc; cbn [foldl].
  - simpl. rewrite app_nil_r. reflexivity.
  - rewrite IH. unfold present_row.
    destruct (if truthy (updated_at kr.2) then _ else _) as [u w'].
    cbn [fst]. rewrite map_app, <- app_assoc. reflexivity.
Qed.

Lemma searchIndexedObjects_keys params w :
  map ikey (items (searchIndexedObjects clock params w).1) = (selected_rows params w).*1.
Proof.
  unfold searchIndexedObjects.
  pose proof (present_rows_keys (selected_rows params w) ([], w)) as H.
  destruct (foldl _ _ _) as [its w']. exact H.
Qed.

Lemma present_rows_fields rows acc shown :
  Forall2 presents acc.1 shown ->
  Forall2 presents (foldl (present_row clock) acc rows).1 (shown ++ rows).
Proof.
  revert acc shown. induction rows as [|kr rows IH]; intros acc shown Hacc; cbn [foldl].
  - rewrite app_nil_r. exact Hacc.
  - replace (shown ++ kr :: rows) with ((shown ++ [kr]) ++ rows)
      by (rewrite <- app_assoc; reflexivity).
    apply IH. unfold present_row.
    destruct (if truthy (updated_at kr.2) then _ else _) as [u w'].
    cbn [fst]. apply Forall2_app; [exact Hacc|].
    constructor; [|constructor]. repeat split.
Qed.

Lemma searchIndexedObjects_fields params w :
  Forall2 presents (items (searchIndexedObjects clock params w).1) (selected_rows params w).
Proof.
  unfold searchIndexedObjects.
  pose proof (present_rows_fields (selected_rows params w) ([], w) []
                ltac:(constructor)) as H.
  destruct (foldl _ _ _) as [its w']. exact H.
Qed.

Lemma searchIndexedObjects_total params w :
  total (searchIndexedObjects clock params w).1
  = length (matching_rows (search_pattern (search params)) w).
Proof.
  unfold searchIndexedObjects. destruct (foldl _ _ _) as [its w']. reflexivity.
Qed.

End Presentation.

Section Substrings.










End Substrings.

Section Search.
Variable clock : nat -> string.



End Search.



(** The needle goes into the [LIKE] pattern as it is: an underscore in
    the query stands for any one character, so that the query [_] returns
    both files although no name, key or extension holds an underscore. *)
Lemma search_underscore_is_wildcard :
  total (searchIndexedObjects Sample.clock
           {| search := Some "_"%string; limit := None; offset := None |}
           Sample.two_files).1
  = 2%nat
  /\ includes "_" "a.txt" = false /\ includes "_" "b.txt" = false /\ includes "_" "txt" = false.
Proof. repeat split; vm_compute; reflexivity. Qed.

(** ** Full rebuild: folder synthesis *)

Section RebuildFolders.
Variable clock : nat -> string.

Lemma rebuild_folder_seenFolders s f :
  seenFolders (rebuild_folder clock s f) = {[fkey f]} ∪ seenFolders s.
Proof. unfold rebuild_folder. case_bool_decide; [set_solver|reflexivity]. Qed.

Lemma rebuild_folder_rows s f :
  (forall k, k ∈ seenFolders s -> has_folder_row (sworld s) k) ->
  forall k, k ∈ seenFolders (rebuild_folder clock s f) ->
            has_folder_row (sworld (rebuild_folder clock s f)) k.
Proof.
  intros Hs k. unfold rebuild_folder. case_bool_decide as Hin; [apply Hs|].
  cbn [seenFolders sworld nowIso]. unfold has_folder_row. cbn [upsertObject objects].
  intros Hk. destruct (decide (k = fkey f)) as [->|Hne].
  - rewrite lookup_insert_eq. eexists. split; reflexivity.
  - rewrite lookup_insert_ne by congruence. apply Hs. set_solver.
Qed.

Lemma rebuild_folder_files s f k r :
  objects (sworld (rebuild_folder clock s f)) !! k = Some r -> type r = File ->
  objects (sworld s) !! k = Some r.
Proof.
  unfold rebuild_folder. case_bool_decide as Hin; [tauto|].
  cbn [sworld nowIso upsertObject objects].
  destruct (decide (k = fkey f)) as [->|Hne].
  - rewrite lookup_insert_eq. intros [= <-]. discriminate.
  - rewrite lookup_insert_ne by congruence. tauto.
Qed.

Lemma rebuild_folders_seenFolders fs s :
  seenFolders (foldl (rebuild_folder clock) s fs) = list_to_set (map fkey fs) ∪ seenFolders s.
Proof.
  revert s. induction fs as [|f fs IH]; intros s; cbn [foldl]; [set_solver|].
  rewrite IH, rebuild_folder_seenFolders. set_solver.
Qed.

Lemma rebuild_folders_rows fs s :
  (forall k, k ∈ seenFolders s -> has_folder_row (sworld s) k) ->
  forall k, k ∈ seenFolders (foldl (rebuild_folder clock) s fs) ->
            has_folder_row (sworld (foldl (rebuild_folder clock) s fs)) k.
Proof.
  revert s. induction fs as [|f fs IH]; intros s Hs; cbn [foldl]; [exact Hs|].
  apply IH, rebuild_folder_rows, Hs.
Qed.

Lemma rebuild_folders_files fs s k r :
  objects (sworld (foldl (rebuild_folder clock) s fs)) !! k = Some r -> type r = File ->
  objects (sworld s) !! k = Some r.
Proof.
  revert s. induction fs as [|f fs IH]; intros s; cbn [foldl]; [tauto|].
  intros Hk Hty. eapply rebuild_folder_files; [|exact Hty]. exact (IH _ Hk Hty).
Qed.

Lemma folder_keys_snoc done o :
  folder_keys (done ++ [o])
  = folder_keys done ∪ list_to_set (map fkey (folderPrefixesForKey (okey o))).
Proof.
  unfold folder_keys. rewrite map_app, union_list_app_L. simpl. set_solver.
Qed.

(** One object of the walk keeps the invariant, unless its key was
    synthesized as a folder before. *)
Lemma rebuild_object_inv done o s :
  rebuild_inv done s ->
  okey o ∉ list_to_set (C := gset string) (map fkey (folderPrefixesForKey (okey o)))
           ∪ seenFolders s ->
  rebuild_inv (done ++ [o]) (rebuild_object clock o s).
Proof.
  intros (Hseen & Hrows & Hfiles) Hnew.
  set (s1 := foldl (rebuild_folder clock) s (folderPrefixesForKey (okey o))).
  assert (Hs1 : seenFolders s1
                = list_to_set (map fkey (folderPrefixesForKey (okey o))) ∪ seenFolders s)
    by apply rebuild_folders_seenFolders.
  unfold rebuild_inv, rebuild_object. fold s1.
  cbn [seenFolders sworld nowIso upsertObject objects].
  split; [|split].
  - rewrite Hs1, Hseen, folder_keys_snoc. set_solver.
  - intros k Hk.
    destruct (rebuild_folders_rows (folderPrefixesForKey (okey o)) s Hrows k Hk) as (r & Hr & Hty).
    exists r. unfold upsertObject. cbn [objects]. split; [|exact Hty].
    rewrite lookup_insert_ne; [exact Hr|]. intros <-. apply Hnew. rewrite <- Hs1. exact Hk.
  - intros k r Hk Hty. rewrite map_app. apply elem_of_app.
    destruct (decide (k = okey o)) as [->|Hne]; [right; simpl; set_solver|left].
    rewrite lookup_insert_ne in Hk by congruence.
    eapply Hfiles; [|exact Hty]. eapply rebuild_folders_files; eassumption.
Qed.
End RebuildFolders.

(** ** Folder keys are shorter than the key they come from *)

Section FolderKeyLengths.

Lemma string_app_cons x (a b : string) : (String x a +:+ b)%string = String x (a +:+ b).
Proof. reflexivity. Qed.

Lemma string_app_assoc (a b c : string) : ((a +:+ b) +:+ c = a +:+ b +:+ c)%string.
Proof. induction a as [|x a IH]; [reflexivity|]. rewrite !string_app_cons, IH. reflexivity. Qed.

Lemma string_app_nil_r (a : string) : (a +:+ EmptyString)%string = a.
Proof. induction a as [|x a IH]; [reflexivity|]. rewrite string_app_cons, IH. reflexivity. Qed.

Lemma string_length_app (a b : string) :
  String.length (a +:+ b) = (String.length a + String.length b)%nat.
Proof.
  induction a as [|x a IH]; [reflexivity|]. rewrite string_app_cons. simpl. rewrite IH. reflexivity.
Qed.

Lemma split_not_nil c s : split c s <> [].
Proof.
  destruct s as [|a r]; simpl; [discriminate|].
  destruct (Ascii.eqb a c); [discriminate|]. destruct (split c r); discriminate.
Qed.

Lemma joined_length_split c s : joined_length (split c s) = (String.length s + 1)%nat.
Proof.
  induction s as [|a r IH]; [reflexivity|]. simpl split.
  destruct (Ascii.eqb a c).
  - simpl. rewrite IH. lia.
  - destruct (split c r) as [|h t] eqn:E; [exfalso; exact (split_not_nil c r E)|].
    simpl in *. lia.
Qed.

Lemma joined_length_nonempty_parts key :
  (joined_length (nonempty_parts key) <= String.length key + 1)%nat.
Proof.
  unfold nonempty_parts. rewrite <- (joined_length_split slash key).
  induction (split slash key) as [|p l IH]; [reflexivity|].
  rewrite filter_cons. destruct (decide (truthy p = true)); simpl; lia.
Qed.

Lemma nonempty_parts_truthy key : Forall (fun p => truthy p = true) (nonempty_parts key).
Proof.
  unfold nonempty_parts. apply Forall_forall. intros p Hp.
  apply list_elem_of_filter in Hp as [Hp _]. exact Hp.
Qed.

Lemma truthy_length p : truthy p = true -> (1 <= String.length p)%nat.
Proof. destruct p; [discriminate|simpl; lia]. Qed.

Lemma prefixes_loop_length acc parts f :
  Forall (fun p => truthy p = true) parts ->
  f ∈ prefixes_loop acc parts ->
  (String.length (fkey f) + 2 <= String.length acc + joined_length parts)%nat.
Proof.
  revert acc. induction parts as [|name rest IH]; intros acc Hne Hf; [inversion Hf|].
  destruct rest as [|next rest']; [inversion Hf|].
  apply Forall_cons in Hne as [Hname Hrest].
  cbn [prefixes_loop] in Hf. rewrite Hname in Hf.
  apply elem_of_cons in Hf as [->|Hf].
  - cbn [fkey]. rewrite !string_length_app.
    apply Forall_cons in Hrest as [Hnext _]. apply truthy_length in Hnext.
    change (String.length "/") with 1%nat. simpl joined_length. lia.
  - specialize (IH _ Hrest Hf). rewrite !string_length_app in IH.
    change (String.length "/") with 1%nat in IH.
    change (joined_length (name :: next :: rest'))
      with (String.length name + 1 + joined_length (next :: rest'))%nat. lia.
Qed.

(** No key is among the folder keys synthesized from it. *)
Lemma key_not_own_folder key : key ∉ map fkey (folderPrefixesForKey key).
Proof.
  intros Hin. apply list_elem_of_fmap in Hin as (f & -> & Hf).
  pose proof (prefixes_loop_length EmptyString _ f (nonempty_parts_truthy (fkey f)) Hf) as Hlen.
  pose proof (joined_length_nonempty_parts (fkey f)). simpl in Hlen. lia.
Qed.

Lemma endsWith_app_slash s : endsWith slash (s +:+ "/") = true.
Proof.
  induction s as [|a r IH]; [reflexivity|].
  change (String a r +:+ "/")%string with (String a (r +:+ "/")).
  cbn [endsWith]. destruct (r +:+ "/")%string eqn:E; [destruct r; discriminate|exact IH].
Qed.

Lemma prefixes_loop_slash acc parts f :
  f ∈ prefixes_loop acc parts -> endsWith slash (fkey f) = true.
Proof.
  revert acc. induction parts as [|name rest IH]; intros acc Hf; [inversion Hf|].
  destruct rest as [|next rest']; [inversion Hf|].
  cbn [prefixes_loop] in Hf. destruct (truthy name).
  - apply elem_of_cons in Hf as [->|Hf]; [|exact (IH _ Hf)].
    cbn [fkey]. rewrite <- string_app_assoc. apply endsWith_app_slash.
  - exact (IH _ Hf).
Qed.

Lemma folder_key_ends_with_slash key f :
  f ∈ folderPrefixesForKey key -> endsWith slash (fkey f) = true.
Proof. apply prefixes_loop_slash. Qed.
End FolderKeyLengths.

(** ** Keys without empty segments *)

Section CleanKeys.

Lemma split_cons_other a s :
  Ascii.eqb a slash = false -> split slash (String a s) = grow (String a EmptyString) (split slash s).
Proof.
  intros H. simpl. rewrite H. destruct (split slash s) as [|h t]; reflexivity.
Qed.

Lemma grow_grow cur a parts :
  parts <> [] ->
  grow cur (grow (String a EmptyString) parts) = grow (cur +:+ String a EmptyString) parts.
Proof.
  destruct parts as [|h t]; [congruence|]. intros _. simpl.
  rewrite string_app_assoc. reflexivity.
Qed.

Lemma truthy_app_r a b : truthy b = true -> truthy (a +:+ b) = true.
Proof. destruct a; [tauto|reflexivity]. Qed.

Lemma truthy_app_l a b : truthy a = true -> truthy (a +:+ b) = true.
Proof. destruct a; [discriminate|reflexivity]. Qed.

Lemma prefixes_loop_cons acc name next rest :
  truthy name = true ->
  prefixes_loop acc (name :: next :: rest)
  = {| fkey := (acc +:+ name +:+ "/")%string; fname := name |}
    :: prefixes_loop (acc +:+ name +:+ "/")%string (next :: rest).
Proof. intros H. simpl. rewrite H. reflexivity. Qed.

(** The folder keys of the code and the ancestor prefixes of the
    specification, with [acc] already emitted and [cur] the segment being
    read. *)
Lemma prefixes_loop_ancestors s :
  forall acc cur,
    clean_from (negb (truthy cur)) s = true ->
    map fkey (prefixes_loop acc (filter (fun p => truthy p = true) (grow cur (split slash s))))
    = map (fun p => (acc +:+ cur +:+ p)%string) (ancestor_prefixes s).
Proof.
  induction s as [|a r IH]; intros acc cur Hclean.
  - simpl. rewrite string_app_nil_r. rewrite filter_cons.
    destruct (decide (truthy cur = true)); reflexivity.
  - cbn [clean_from ancestor_prefixes] in *. destruct (Ascii.eqb a slash) eqn:Ea.
    + apply Ascii.eqb_eq in Ea as ->.
      apply andb_true_iff in Hclean as [Hcur Hr]. rewrite negb_involutive in Hcur.
      change (split slash (String slash r)) with (EmptyString :: split slash r).
      cbn [grow]. rewrite string_app_nil_r, filter_cons, decide_True by exact Hcur.
      destruct r as [|b r'].
      * reflexivity.
      * assert (Hb : Ascii.eqb b slash = false).
        { cbn [clean_from] in Hr. destruct (Ascii.eqb b slash); [discriminate|reflexivity]. }
        specialize (IH (acc +:+ cur +:+ "/")%string EmptyString Hr).
        change (grow EmptyString (split slash (String b r'))) with
          (match split slash (String b r') with h :: t => h :: t | [] => [EmptyString] end) in IH.
        destruct (split slash (String b r')) as [|h t] eqn:Es;
          [exfalso; exact (split_not_nil _ _ Es)|].
        assert (Hh : truthy h = true).
        { rewrite split_cons_other in Es by exact Hb.
          destruct (split slash r') as [|h' t']; simpl in Es; injection Es as <- <-; reflexivity. }
        rewrite filter_cons, decide_True in * by exact Hh.
        rewrite prefixes_loop_cons by exact Hcur. cbn [map fkey truthy andb app].
        change (Ascii.eqb slash slash) with true. cbn [andb app map]. f_equal.
        rewrite IH, map_map. apply map_ext. intros p.
        rewrite !string_app_assoc. reflexivity.
    + rewrite split_cons_other by exact Ea.
      rewrite grow_grow by apply split_not_nil.
      rewrite IH.
      * cbn [andb app]. rewrite map_map. apply map_ext. intros p.
        rewrite !string_app_assoc. reflexivity.
      * rewrite truthy_app_r by reflexivity. exact Hclean.
Qed.

(** For a key without empty segment, [folderPrefixesForKey] yields its
    separator-ended proper prefixes, shallowest first. *)
Lemma folderPrefixes_clean key :
  clean key = true -> map fkey (folderPrefixesForKey key) = ancestor_prefixes key.
Proof.
  intros Hc. unfold folderPrefixesForKey, nonempty_parts.
  pose proof (prefixes_loop_ancestors key EmptyString EmptyString Hc) as H.
  assert (Hg : grow EmptyString (split slash key) = split slash key).
  { destruct (split slash key) eqn:E; [exfalso; exact (split_not_nil _ _ E)|reflexivity]. }
  rewrite Hg in H. rewrite H. rewrite <- (map_id (ancestor_prefixes key)) at 2.
  apply map_ext. reflexivity.
Qed.

Lemma ancestor_prefixes_root key : has_char slash key = false -> ancestor_prefixes key = [].
Proof.
  induction key as [|a r IH]; [reflexivity|]. simpl. intros H.
  apply orb_false_iff in H as [Ha Hr]. rewrite Ha, (IH Hr). reflexivity.
Qed.

Lemma clean_root key : has_char slash key = false -> forall b, clean_from b key = true.
Proof.
  induction key as [|a r IH]; [reflexivity|]. simpl. intros H b.
  apply orb_false_iff in H as [Ha Hr]. rewrite Ha. apply IH, Hr.
Qed.

Lemma folderPrefixes_root key : has_char slash key = false -> folderPrefixesForKey key = [].
Proof.
  intros H. pose proof (folderPrefixes_clean key (clean_root key H true)) as Hc.
  rewrite (ancestor_prefixes_root key H) in Hc.
  destruct (folderPrefixesForKey key); [reflexivity|discriminate].
Qed.
End CleanKeys.

(** ** Full rebuild: the ancestor folders of every file row *)

Section RebuildInvariant.
Variable clock : nat -> string.

Lemma rebuild_inv_start w : rebuild_inv [] (fresh_scan (clearObjects w)).
Proof.
  split; [reflexivity|]. split.
  - intros k Hk. simpl in Hk. set_solver.
  - intros k r Hk. simpl in Hk. rewrite lookup_empty in Hk. discriminate.
Qed.

Lemma rebuild_walk_inv objs :
  forall done s,
    rebuild_inv done s ->
    folder_objects_first_from (seenFolders s) objs = true ->
    rebuild_inv (done ++ objs) (rebuild_walk clock objs s).
Proof.
  induction objs as [|o rest IH]; intros done s Hinv Hfirst.
  - rewrite app_nil_r. exact Hinv.
  - cbn [folder_objects_first_from] in Hfirst.
    apply andb_true_iff in Hfirst as [Ho Hrest]. apply bool_decide_eq_true in Ho.
    assert (Hstep : rebuild_inv (done ++ [o]) (rebuild_object clock o s)).
    { apply rebuild_object_inv; [exact Hinv|].
      pose proof (key_not_own_folder (okey o)). set_solver. }
    change (rebuild_walk clock (o :: rest) s)
      with (rebuild_walk clock rest (rebuild_object clock o s)).
    replace (done ++ o :: rest) with ((done ++ [o]) ++ rest) by (rewrite <- app_assoc; reflexivity).
    apply IH; [exact Hstep|].
    destruct Hstep as (Hseen' & _). destruct Hinv as (Hseen & _).
    rewrite Hseen', folder_keys_snoc, <- Hseen.
    rewrite (union_comm_L (seenFolders s)). exact Hrest.
Qed.

(** The folders of every file row of a completed rebuild have their
    folder rows. *)
Lemma rebuild_ancestor_folders (remote : listing) (w : world) :
  listing_error remote = None ->
  folder_objects_first (delivered remote) = true ->
  forall key r,
    objects (rebuildIndex clock remote w).1 !! key = Some r ->
    type r = File ->
    forall f, f ∈ folderPrefixesForKey key ->
              has_folder_row (rebuildIndex clock remote w).1 (fkey f).
Proof.
  intros He Hfirst key r. rewrite (rebuildIndex_completed clock remote w He). cbn [fst].
  pose proof (rebuild_walk_inv (delivered remote) [] _ (rebuild_inv_start w) Hfirst)
    as (Hseen & Hrows & Hfiles).
  set (s := rebuild_walk clock (delivered remote) (fresh_scan (clearObjects w))) in *.
  unfold has_folder_row, updateState. cbn [objects nowIso snd].
  intros Hk Hty f Hf.
  apply Hrows. rewrite Hseen. rewrite app_nil_l in *.
  specialize (Hfiles key r Hk Hty).
  apply list_elem_of_fmap in Hfiles as (o & -> & Ho).
  unfold folder_keys. apply elem_of_union_list.
  exists (list_to_set (map fkey (folderPrefixesForKey (okey o)))). split.
  - apply list_elem_of_fmap. exists o. split; [reflexivity|exact Ho].
  - apply elem_of_list_to_set, list_elem_of_fmap. exists f. split; [reflexivity|exact Hf].
Qed.
End RebuildInvariant.

(** C2 as the claim words it fails on a key with an empty segment: after
    the rebuild the file [a//b.txt] is stored, [a//] is one of its
    separator-ended proper prefixes, and no row has that key. *)
Lemma rebuildIndex_empty_segment_counterexample :
  listing_error Sample.double_slash = None
  /\ (exists r, objects (rebuildIndex Sample.clock Sample.double_slash Sample.empty_world).1
                !! "a//b.txt"%string = Some r /\ type r = File)
  /\ "a//"%string ∈ ancestor_prefixes "a//b.txt"
  /\ objects (rebuildIndex Sample.clock Sample.double_slash Sample.empty_world).1
     !! "a//"%string = None.
Proof.
  split; [reflexivity|]. split; [eexists; split; reflexivity|].
  split; [simpl; set_solver|reflexivity].
Qed.

(** A folder object listed after a file of the folder takes the folder's
    row: the row of [docs/] is then of kind file. *)
Lemma rebuildIndex_folder_after_file :
  folder_objects_first (delivered Sample.folder_after_file) = false
  /\ type <$> (objects (rebuildIndex Sample.clock Sample.folder_after_file Sample.empty_world).1
               !! "docs/"%string) = Some File.
Proof. split; reflexivity. Qed.

(** ** Delta refresh: rows that match, and folder objects *)

Section RefreshMatch.
Variable clock : nat -> string.

(** The step for the object itself writes nothing and counts nothing when
    the stored row matches. *)
Lemma refresh_file_match_no_write obj s e :
  getObject (okey obj) (sworld s) = Some e ->
  needsUpdate (Some e) obj = false ->
  sworld (refresh_file clock obj s) = sworld s
  /\ nadded (refresh_file clock obj s) = nadded s
  /\ nupdated (refresh_file clock obj s) = nupdated s.
Proof.
  intros He Hm. unfold refresh_file. rewrite He, Hm. repeat split; reflexivity.
Qed.

(** [needsUpdate] is false exactly on a file row of the same size,
    modification time and checksum tag. *)
Lemma needsUpdate_false e obj :
  needsUpdate (Some e) obj = false
  <-> type e = File /\ size e = osize obj
      /\ last_modified e = opt_or_null (olastModified obj)
      /\ etag e = opt_or_null (oetag obj).
Proof.
  unfold needsUpdate. rewrite !orb_false_iff, !negb_false_iff, !bool_decide_eq_true, Z.eqb_eq.
  tauto.
Qed.
End RefreshMatch.

(** C3 at a folder with a file in it.  The remote lists the object [docs/]
    that stands for the folder and the file [docs/a.txt].  The first refresh
    leaves the row of [docs/] as a folder row; the second refresh, over the
    same listing, rewrites it as a file row and then as a folder row again,
    and reports two updates. *)
Lemma refreshIndex_twice_folder_object :
  (refreshIndex Sample.clock Sample.folder_with_file Sample.empty_world).2
  = inr {| added := 2; updated := 1; removed := 0; files := 1; rfolders := 1 |}
  /\ (refreshIndex Sample.clock Sample.folder_with_file
        (refreshIndex Sample.clock Sample.folder_with_file Sample.empty_world).1).2
     = inr {| added := 0; updated := 2; removed := 0; files := 1; rfolders := 1 |}.
Proof. split; vm_compute; reflexivity. Qed.

(** C8 at the same folder.  The index holds the file row of the object
    [docs/], which matches the listed object in kind, size, modification
    time and checksum tag.  A refresh that also lists [docs/a.txt] rewrites
    that row as a folder row, with a new [updated_at], and counts it as
    updated. *)
Lemma refreshIndex_rewrites_matching_folder_object :
  (exists e, objects Sample.folder_indexed !! "docs/"%string = Some e
             /\ type e = File
             /\ updated_at e = "2026-01-01T00:00:00.000Z"%string
             /\ forall obj, obj ∈ delivered Sample.folder_with_file ->
                            okey obj = "docs/"%string -> needsUpdate (Some e) obj = false)
  /\ (exists e', objects (refreshIndex Sample.clock Sample.folder_with_file
                            Sample.folder_indexed).1 !! "docs/"%string = Some e'
                 /\ type e' = Folder
                 /\ last_modified e' = None
                 /\ updated_at e' = "2026-01-01T00:00:00.002Z"%string)
  /\ (refreshIndex Sample.clock Sample.folder_with_file Sample.folder_indexed).2
     = inr {| added := 1; updated := 1; removed := 0; files := 1; rfolders := 1 |}.
Proof.
  split; [|split].
  - eexists. split; [vm_compute; reflexivity|]. split; [reflexivity|]. split; [reflexivity|].
    intros obj Hin Hkey. vm_compute in Hin.
    apply elem_of_cons in Hin as [->|Hin]; [reflexivity|].
    apply elem_of_cons in Hin as [->|Hin]; [discriminate|inversion Hin].
  - eexists. split; [vm_compute; reflexivity|]. repeat split; reflexivity.
  - vm_compute. reflexivity.
Qed.

(** ** Delta refresh twice, when no object key is a folder key *)

Section RefreshTwice.
Variable clock : nat -> string.

Lemma refresh_folder_settled s f e :
  objects (sworld s) !! fkey f = Some e -> needsFolder (Some e) = false ->
  sworld (refresh_folder clock s f) = sworld s
  /\ nadded (refresh_folder clock s f) = nadded s
  /\ nupdated (refresh_folder clock s f) = nupdated s.
Proof.
  intros He Hn. unfold refresh_folder. case_bool_decide; [repeat split; reflexivity|].
  unfold getObject. rewrite He, Hn. repeat split; reflexivity.
Qed.

Lemma refresh_folders_settled fs s :
  (forall f, f ∈ fs -> exists e, objects (sworld s) !! fkey f = Some e
                                 /\ needsFolder (Some e) = false) ->
  sworld (foldl (refresh_folder clock) s fs) = sworld s
  /\ nadded (foldl (refresh_folder clock) s fs) = nadded s
  /\ nupdated (foldl (refresh_folder clock) s fs) = nupdated s.
Proof.
  revert s. induction fs as [|f fs IH]; intros s Hfs; cbn [foldl]; [repeat split; reflexivity|].
  destruct (Hfs f) as (e & He & Hn); [left|].
  destruct (refresh_folder_settled s f e He Hn) as (Hw & Ha & Hu).
  destruct (IH (refresh_folder clock s f)) as (Hw' & Ha' & Hu').
  { intros g Hg. rewrite Hw. apply Hfs. right. exact Hg. }
  rewrite Hw', Ha', Hu'. repeat split; assumption.
Qed.

(** A walk over settled rows writes nothing and counts nothing. *)
Lemma refresh_walk_settled objs s :
  settled (objects (sworld s)) objs ->
  sworld (refresh_walk clock objs s) = sworld s
  /\ nadded (refresh_walk clock objs s) = nadded s
  /\ nupdated (refresh_walk clock objs s) = nupdated s.
Proof.
  revert s. induction objs as [|o objs IH]; intros s Hs; [repeat split; reflexivity|].
  rewrite refresh_walk_cons.
  destruct (Hs o) as ((e & He & Hm) & Hfs); [left|].
  destruct (refresh_folders_settled (folderPrefixesForKey (okey o)) s Hfs) as (Hw & Ha & Hu).
  assert (Hstep : sworld (refresh_object clock o s) = sworld s
                  /\ nadded (refresh_object clock o s) = nadded s
                  /\ nupdated (refresh_object clock o s) = nupdated s).
  { unfold refresh_object.
    destruct (refresh_file_match_no_write clock o
                (foldl (refresh_folder clock) s (folderPrefixesForKey (okey o))) e)
      as (Hw' & Ha' & Hu'); [unfold getObject; rewrite Hw; exact He|exact Hm|].
    rewrite Hw', Ha', Hu'. repeat split; assumption. }
  destruct Hstep as (Hw1 & Ha1 & Hu1).
  destruct (IH (refresh_object clock o s)) as (Hw2 & Ha2 & Hu2).
  { intros o' Ho'. rewrite Hw1. apply Hs. right. exact Ho'. }
  rewrite Hw2, Ha2, Hu2. repeat split; assumption.
Qed.
End RefreshTwice.

Section RefreshSettles.
Variable clock : nat -> string.

Lemma refresh_folders_seenFolders fs s :
  seenFolders (foldl (refresh_folder clock) s fs) = list_to_set (map fkey fs) ∪ seenFolders s.
Proof.
  revert s. induction fs as [|f fs IH]; intros s; cbn [foldl]; [set_solver|].
  rewrite IH, refresh_folder_seenFolders. set_solver.
Qed.

Lemma refresh_folder_rows_settled s f :
  (forall k, k ∈ seenFolders s ->
             exists e, objects (sworld s) !! k = Some e /\ needsFolder (Some e) = false) ->
  forall k, k ∈ seenFolders (refresh_folder clock s f) ->
            exists e, objects (sworld (refresh_folder clock s f)) !! k = Some e
                      /\ needsFolder (Some e) = false.
Proof.
  intros Hs k. unfold refresh_folder. case_bool_decide as Hin; [apply Hs|].
  unfold getObject. cbn [seenFolders sworld].
  destruct (needsFolder (objects (sworld s) !! fkey f)) eqn:Hn;
    cbn [seenFolders sworld nowIso upsertObject objects]; intros Hk.
  - destruct (decide (k = fkey f)) as [->|Hne].
    + rewrite lookup_insert_eq. eexists. split; reflexivity.
    + rewrite lookup_insert_ne by congruence. apply Hs. set_solver.
  - destruct (decide (k = fkey f)) as [->|Hne]; [|apply Hs; set_solver].
    destruct (objects (sworld s) !! fkey f) as [e|]; [|discriminate]. eauto.
Qed.

Lemma refresh_folders_rows_settled fs s :
  (forall k, k ∈ seenFolders s ->
             exists e, objects (sworld s) !! k = Some e /\ needsFolder (Some e) = false) ->
  forall k, k ∈ seenFolders (foldl (refresh_folder clock) s fs) ->
            exists e, objects (sworld (foldl (refresh_folder clock) s fs)) !! k = Some e
                      /\ needsFolder (Some e) = false.
Proof.
  revert s. induction fs as [|f fs IH]; intros s Hs; cbn [foldl]; [exact Hs|].
  apply IH, refresh_folder_rows_settled, Hs.
Qed.

Lemma refresh_file_row_settled obj s :
  exists e, objects (sworld (refresh_file clock obj s)) !! okey obj = Some e
            /\ needsUpdate (Some e) obj = false.
Proof.
  unfold refresh_file, getObject. cbn [sworld].
  destruct (needsUpdate (objects (sworld s) !! okey obj) obj) eqn:Hn.
  - cbn [nowIso upsertObject objects]. rewrite lookup_insert_eq. eexists. split; [reflexivity|].
    apply needsUpdate_false. cbn. tauto.
  - destruct (objects (sworld s) !! okey obj) as [e|]; [|discriminate]. eauto.
Qed.

Lemma refresh_file_seenFolders obj s :
  seenFolders (refresh_file clock obj s) = seenFolders s.
Proof. reflexivity. Qed.

Lemma refresh_object_inv done o s :
  refresh_inv done s ->
  okey o ∉ map okey done ->
  okey o ∉ folder_keys (done ++ [o]) ->
  (forall o', o' ∈ done -> okey o' ∉ map fkey (folderPrefixesForKey (okey o))) ->
  refresh_inv (done ++ [o]) (refresh_object clock o s).
Proof.
  intros (Hseen & Hfiles & Hrows) Hfresh Hapart Hdone.
  set (s1 := foldl (refresh_folder clock) s (folderPrefixesForKey (okey o))).
  assert (Hs1 : seenFolders s1 = folder_keys (done ++ [o])).
  { unfold s1. rewrite refresh_folders_seenFolders, Hseen, folder_keys_snoc. set_solver. }
  pose proof (refresh_folders_rows_settled (folderPrefixesForKey (okey o)) s Hrows) as Hrows1.
  fold s1 in Hrows1.
  unfold refresh_inv, refresh_object. fold s1. rewrite refresh_file_seenFolders.
  split; [exact Hs1|]. split.
  - intros o' Ho'. apply elem_of_app in Ho' as [Ho'|Ho'].
    + assert (okey o' <> okey o).
      { intros Heq. apply Hfresh. rewrite <- Heq. apply list_elem_of_fmap. eauto. }
      rewrite refresh_file_other by assumption.
      unfold s1. rewrite refresh_folders_other by (apply Hdone, Ho').
      apply Hfiles, Ho'.
    + apply list_elem_of_singleton in Ho' as ->. apply refresh_file_row_settled.
  - intros k Hk. rewrite refresh_file_other; [apply Hrows1, Hk|].
    intros ->. apply Hapart. rewrite <- Hs1. exact Hk.
Qed.

Lemma refresh_inv_start w : refresh_inv [] (fresh_scan w).
Proof.
  split; [reflexivity|]. split.
  - intros o Ho. inversion Ho.
  - intros k Hk. simpl in Hk. set_solver.
Qed.

Lemma folder_keys_elem objs k :
  k ∈ folder_keys objs
  <-> exists o f, o ∈ objs /\ f ∈ folderPrefixesForKey (okey o) /\ k = fkey f.
Proof.
  unfold folder_keys. rewrite elem_of_union_list. split.
  - intros (X & HX & Hk). apply list_elem_of_fmap in HX as (o & -> & Ho).
    apply elem_of_list_to_set, list_elem_of_fmap in Hk as (f & -> & Hf). eauto.
  - intros (o & f & Ho & Hf & ->).
    exists (list_to_set (map fkey (folderPrefixesForKey (okey o)))). split.
    + apply list_elem_of_fmap. eauto.
    + apply elem_of_list_to_set, list_elem_of_fmap. eauto.
Qed.

Lemma refresh_walk_inv objs :
  forall done s,
    refresh_inv done s ->
    NoDup (map okey (done ++ objs)) ->
    (forall o, o ∈ done ++ objs -> okey o ∉ folder_keys (done ++ objs)) ->
    refresh_inv (done ++ objs) (refresh_walk clock objs s).
Proof.
  induction objs as [|o rest IH]; intros done s Hinv Hnd Hapart.
  - rewrite app_nil_r. exact Hinv.
  - rewrite refresh_walk_cons.
    replace (done ++ o :: rest) with ((done ++ [o]) ++ rest) in *
      by (rewrite <- app_assoc; reflexivity).
    apply IH; [|exact Hnd|exact Hapart].
    apply refresh_object_inv; [exact Hinv| | |].
    + rewrite !map_app in Hnd. apply NoDup_app in Hnd as [Hnd _].
      apply NoDup_app in Hnd as (_ & Hd & _). intros Hin. apply (Hd _ Hin). simpl. left.
    + intros Hin. apply (Hapart o); [set_solver|].
      apply folder_keys_elem in Hin as (o' & f & Ho' & Hf & ->).
      apply folder_keys_elem. exists o', f. split; [set_solver|]. split; [exact Hf|reflexivity].
    + intros o' Ho' Hin. apply (Hapart o'); [set_solver|].
      apply list_elem_of_fmap in Hin as (f & -> & Hf).
      apply folder_keys_elem. exists o, f. split; [set_solver|]. split; [exact Hf|reflexivity].
Qed.
End RefreshSettles.

Section RefreshIdempotent.
Variable clock : nat -> string.

Lemma refreshIndex_objects remote w k :
  listing_error remote = None ->
  objects (refreshIndex clock remote w).1 !! k
  = if bool_decide (k ∈ observed_keys (delivered remote))
    then objects (sworld (refresh_walk clock (delivered remote) (fresh_scan w))) !! k
    else None.
Proof.
  intros He. rewrite (refreshIndex_completed clock remote w He). cbn [fst].
  set (s := refresh_walk clock (delivered remote) (fresh_scan w)).
  destruct (sweep_spec (seenKeys s) (sworld s)) as (_ & _ & Hl & _).
  unfold updateState. cbn [objects nowIso snd]. rewrite Hl.
  unfold s. rewrite refresh_walk_seenKeys by apply fresh_scan_ok.
  cbn [fresh_scan seenKeys]. rewrite union_empty_r_L. reflexivity.
Qed.

Lemma observed_keys_elem objs k :
  k ∈ observed_keys objs <-> k ∈ map okey objs \/ k ∈ folder_keys objs.
Proof.
  induction objs as [|o objs IH].
  - rewrite observed_keys_nil. unfold folder_keys. simpl. set_solver.
  - rewrite observed_keys_cons. unfold object_keys, folder_keys in *. simpl. set_solver.
Qed.

(** After a completed refresh the rows of the listing are settled, when no
    key is listed twice and no object key is a folder key. *)
Lemma refreshIndex_settles remote w :
  listing_error remote = None ->
  NoDup (map okey (delivered remote)) ->
  (forall o, o ∈ delivered remote -> okey o ∉ folder_keys (delivered remote)) ->
  settled (objects (refreshIndex clock remote w).1) (delivered remote).
Proof.
  intros He Hnd Hapart.
  pose proof (refresh_walk_inv clock (delivered remote) [] (fresh_scan w)
                (refresh_inv_start w) Hnd Hapart) as (Hseen & Hfiles & Hrows).
  rewrite app_nil_l in *.
  intros o Ho. split.
  - rewrite (refreshIndex_objects remote w _ He).
    rewrite bool_decide_eq_true_2; [apply Hfiles, Ho|].
    apply observed_keys_elem. left. apply list_elem_of_fmap. eauto.
  - intros f Hf.
    assert (Hk : fkey f ∈ folder_keys (delivered remote)).
    { apply folder_keys_elem. eauto. }
    rewrite (refreshIndex_objects remote w _ He).
    rewrite bool_decide_eq_true_2; [apply Hrows; rewrite Hseen; exact Hk|].
    apply observed_keys_elem. right. exact Hk.
Qed.

(** A refresh over settled rows that are all observed reports nothing. *)
Lemma refreshIndex_settled remote w :
  listing_error remote = None ->
  settled (objects w) (delivered remote) ->
  dom (objects w) ⊆ observed_keys (delivered remote) ->
  exists summary,
    (refreshIndex clock remote w).2 = inr summary
    /\ added summary = 0%nat /\ updated summary = 0%nat /\ removed summary = 0%nat.
Proof.
  intros He Hs Hdom. rewrite (refreshIndex_completed clock remote w He). cbn [snd].
  eexists. split; [reflexivity|]. cbn [added updated removed].
  destruct (refresh_walk_settled clock (delivered remote) (fresh_scan w) Hs) as (Hw & Ha & Hu).
  split; [exact Ha|]. split; [exact Hu|].
  destruct (sweep_spec (seenKeys (refresh_walk clock (delivered remote) (fresh_scan w)))
              (sworld (refresh_walk clock (delivered remote) (fresh_scan w))))
    as (_ & _ & _ & Hn).
  rewrite Hn, Hw, refresh_walk_seenKeys by apply fresh_scan_ok.
  cbn [fresh_scan sworld seenKeys]. apply size_empty_iff. set_solver.
Qed.

(** X11. Idempotence of the delta refresh, where it holds.  When the
    enumeration completes, lists no key twice and lists no object whose key
    is an ancestor folder key of a listed object, a second [refreshIndex]
    over the same listing reports added 0, updated 0 and removed 0. *)
Theorem refreshIndex_twice_without_folder_objects remote w :
  listing_error remote = None ->
  NoDup (map okey (delivered remote)) ->
  (forall o, o ∈ delivered remote -> okey o ∉ folder_keys (delivered remote)) ->
  exists summary,
    (refreshIndex clock remote (refreshIndex clock remote w).1).2 = inr summary
    /\ added summary = 0%nat /\ updated summary = 0%nat /\ removed summary = 0%nat.
Proof.
  intros He Hnd Hapart. apply refreshIndex_settled; [exact He| |].
  - apply refreshIndex_settles; assumption.
  - intros k Hk. apply elem_of_dom in Hk as [e Hk].
    rewrite (refreshIndex_objects remote w k He) in Hk.
    case_bool_decide; [assumption|discriminate].
Qed.
End RefreshIdempotent.

(** ** Completed scans: the ancestor folders of every file row *)

Section ScanFolders.
Variable clock : nat -> string.

Lemma needsFolder_false_folder e : needsFolder (Some e) = false -> type e = Folder.
Proof.
  cbn [needsFolder]. intros H.
  apply orb_false_iff in H as [H _]. apply orb_false_iff in H as [H _].
  apply negb_false_iff, bool_decide_eq_true in H. exact H.
Qed.

Lemma needsUpdate_false_file e o : needsUpdate (Some e) o = false -> type e = File.
Proof.
  cbn [needsUpdate]. intros H.
  apply orb_false_iff in H as [H _]. apply orb_false_iff in H as [H _].
  apply orb_false_iff in H as [H _].
  apply negb_false_iff, bool_decide_eq_true in H. exact H.
Qed.

(** After its step a folder has a folder row. *)
Lemma refresh_folder_row s f :
  fkey f ∉ seenFolders s -> has_folder_row (sworld (refresh_folder clock s f)) (fkey f).
Proof.
  intros Hseen. unfold refresh_folder. rewrite bool_decide_eq_false_2 by exact Hseen.
  unfold getObject. destruct (needsFolder (objects (sworld s) !! fkey f)) eqn:Hn.
  - unfold has_folder_row, nowIso, upsertObject. cbn [sworld objects].
    eexists. rewrite lookup_insert_eq. split; reflexivity.
  - destruct (objects (sworld s) !! fkey f) as [e|] eqn:He; [|discriminate].
    exists e. cbn [sworld]. split; [exact He|apply needsFolder_false_folder, Hn].
Qed.

Lemma refresh_folder_seen s f : fkey f ∈ seenFolders s -> refresh_folder clock s f = s.
Proof. intros H. unfold refresh_folder. rewrite bool_decide_eq_true_2 by exact H. reflexivity. Qed.

Lemma refresh_folder_rows s f :
  (forall k, k ∈ seenFolders s -> has_folder_row (sworld s) k) ->
  forall k, k ∈ seenFolders (refresh_folder clock s f) ->
            has_folder_row (sworld (refresh_folder clock s f)) k.
Proof.
  intros Hrows k Hk.
  destruct (decide (fkey f ∈ seenFolders s)) as [Hseen|Hseen].
  - rewrite (refresh_folder_seen s f Hseen) in *. apply Hrows, Hk.
  - rewrite refresh_folder_seenFolders in Hk.
    destruct (decide (k = fkey f)) as [->|Hne]; [apply refresh_folder_row, Hseen|].
    destruct (Hrows k) as (r & Hr & Hty); [set_solver|].
    exists r. rewrite refresh_folder_other by exact Hne. tauto.
Qed.

(** A file row of an observed key was there, observed, before the step of
    a folder. *)
Lemma refresh_folder_files s f k r :
  scan_ok s ->
  (forall k, k ∈ seenFolders s -> has_folder_row (sworld s) k) ->
  objects (sworld (refresh_folder clock s f)) !! k = Some r -> type r = File ->
  k ∈ seenKeys (refresh_folder clock s f) ->
  objects (sworld s) !! k = Some r /\ k ∈ seenKeys s.
Proof.
  intros Hok Hrows Hk Hty Hin.
  destruct (decide (fkey f ∈ seenFolders s)) as [Hseen|Hseen].
  - rewrite (refresh_folder_seen s f Hseen) in *. tauto.
  - rewrite refresh_folder_seenKeys in Hin by exact Hok.
    destruct (decide (k = fkey f)) as [->|Hne].
    + destruct (refresh_folder_row s f Hseen) as (r' & Hr' & Hty').
      rewrite Hk in Hr'. injection Hr' as <-. congruence.
    + rewrite refresh_folder_other in Hk by exact Hne. split; [exact Hk|set_solver].
Qed.

Lemma refresh_folders_rows fs :
  forall s,
    (forall k, k ∈ seenFolders s -> has_folder_row (sworld s) k) ->
    forall k, k ∈ seenFolders (foldl (refresh_folder clock) s fs) ->
              has_folder_row (sworld (foldl (refresh_folder clock) s fs)) k.
Proof.
  induction fs as [|f fs IH]; intros s Hrows; cbn [foldl]; [exact Hrows|].
  apply IH, refresh_folder_rows, Hrows.
Qed.

Lemma refresh_folders_files fs :
  forall s k r,
    scan_ok s ->
    (forall k, k ∈ seenFolders s -> has_folder_row (sworld s) k) ->
    objects (sworld (foldl (refresh_folder clock) s fs)) !! k = Some r -> type r = File ->
    k ∈ seenKeys (foldl (refresh_folder clock) s fs) ->
    objects (sworld s) !! k = Some r /\ k ∈ seenKeys s.
Proof.
  induction fs as [|f fs IH]; intros s k r Hok Hrows Hk Hty Hin; cbn [foldl] in *; [tauto|].
  destruct (IH _ k r (refresh_folder_ok clock s f Hok) (refresh_folder_rows s f Hrows)
              Hk Hty Hin) as [Hk' Hin'].
  exact (refresh_folder_files s f k r Hok Hrows Hk' Hty Hin').
Qed.

Lemma refresh_object_folders_inv done o s :
  scan_ok s ->
  refresh_folders_inv done s ->
  okey o ∉ list_to_set (C := gset string) (map fkey (folderPrefixesForKey (okey o)))
           ∪ seenFolders s ->
  refresh_folders_inv (done ++ [o]) (refresh_object clock o s).
Proof.
  intros Hok (Hseen & Hrows & Hfiles) Hnew. unfold refresh_object.
  set (s1 := foldl (refresh_folder clock) s (folderPrefixesForKey (okey o))).
  assert (Hs1 : seenFolders s1
                = list_to_set (map fkey (folderPrefixesForKey (okey o))) ∪ seenFolders s)
    by apply refresh_folders_seenFolders.
  assert (Hf1 : seenFolders (refresh_file clock o s1) = seenFolders s1) by reflexivity.
  assert (Hk1 : seenKeys (refresh_file clock o s1) = {[okey o]} ∪ seenKeys s1) by reflexivity.
  split; [|split].
  - rewrite Hf1, Hs1, Hseen, folder_keys_snoc. set_solver.
  - intros k Hk. rewrite Hf1 in Hk.
    destruct (refresh_folders_rows _ s Hrows k Hk) as (r & Hr & Hty).
    exists r. split; [|exact Hty]. rewrite refresh_file_other; [exact Hr|].
    intros ->. apply Hnew. rewrite <- Hs1. exact Hk.
  - intros k r Hk Hty Hin. rewrite map_app. apply elem_of_app.
    destruct (decide (k = okey o)) as [->|Hne]; [right; simpl; set_solver|left].
    rewrite refresh_file_other in Hk by exact Hne.
    rewrite Hk1 in Hin.
    destruct (refresh_folders_files _ s k r Hok Hrows Hk Hty) as [Hk' Hin']; [set_solver|].
    exact (Hfiles k r Hk' Hty Hin').
Qed.

Lemma refresh_folders_inv_start w : refresh_folders_inv [] (fresh_scan w).
Proof.
  split; [reflexivity|]. split.
  - intros k Hk. simpl in Hk. set_solver.
  - intros k r _ _ Hk. simpl in Hk. set_solver.
Qed.

Lemma refresh_walk_folders_inv objs :
  forall done s,
    scan_ok s ->
    refresh_folders_inv done s ->
    folder_objects_first_from (seenFolders s) objs = true ->
    refresh_folders_inv (done ++ objs) (refresh_walk clock objs s).
Proof.
  induction objs as [|o rest IH]; intros done s Hok Hinv Hfirst.
  - rewrite app_nil_r. exact Hinv.
  - cbn [folder_objects_first_from] in Hfirst.
    apply andb_true_iff in Hfirst as [Ho Hrest]. apply bool_decide_eq_true in Ho.
    assert (Hstep : refresh_folders_inv (done ++ [o]) (refresh_object clock o s)).
    { apply refresh_object_folders_inv; [exact Hok|exact Hinv|].
      pose proof (key_not_own_folder (okey o)). set_solver. }
    rewrite refresh_walk_cons.
    replace (done ++ o :: rest) with ((done ++ [o]) ++ rest) by (rewrite <- app_assoc; reflexivity).
    apply IH; [apply refresh_object_ok, Hok|exact Hstep|].
    destruct Hstep as (Hseen' & _). destruct Hinv as (Hseen & _).
    rewrite Hseen', folder_keys_snoc, <- Hseen.
    rewrite (union_comm_L (seenFolders s)). exact Hrest.
Qed.

Lemma refresh_ancestor_folders (remote : listing) (w : world) :
  listing_error remote = None ->
  folder_objects_first (delivered remote) = true ->
  forall key r,
    objects (refreshIndex clock remote w).1 !! key = Some r ->
    type r = File ->
    forall f, f ∈ folderPrefixesForKey key ->
              has_folder_row (refreshIndex clock remote w).1 (fkey f).
Proof.
  intros He Hfirst key r Hk Hty f Hf.
  pose proof (refresh_walk_folders_inv (delivered remote) [] (fresh_scan w)
                (fresh_scan_ok w) (refresh_folders_inv_start w) Hfirst)
    as (Hseen & Hrows & Hfiles).
  rewrite app_nil_l in *.
  set (s := refresh_walk clock (delivered remote) (fresh_scan w)) in *.
  assert (Hkeys : seenKeys s = observed_keys (delivered remote)).
  { unfold s. rewrite refresh_walk_seenKeys by apply fresh_scan_ok. simpl. set_solver. }
  rewrite (refreshIndex_objects clock remote w key He) in Hk. fold s in Hk.
  case_bool_decide as Hobs; [|discriminate].
  assert (Hlisted : key ∈ map okey (delivered remote)).
  { apply (Hfiles key r Hk Hty). rewrite Hkeys. exact Hobs. }
  apply list_elem_of_fmap in Hlisted as (o & -> & Ho).
  assert (Hfolder : fkey f ∈ folder_keys (delivered remote)).
  { apply folder_keys_elem. eauto. }
  destruct (Hrows (fkey f)) as (rf & Hrf & Htf); [rewrite Hseen; exact Hfolder|].
  exists rf. split; [|exact Htf].
  rewrite (refreshIndex_objects clock remote w (fkey f) He). fold s.
  rewrite bool_decide_eq_true_2; [exact Hrf|].
  apply observed_keys_elem. right. exact Hfolder.
Qed.

(** C2, as the code has it.  After a completed scan, full rebuild or delta
    refresh, of a listing in which no object is listed after an object of
    which its key is an ancestor folder key, every file row has, for each
    folder that [folderPrefixesForKey] derives from the non-empty segments
    of its key, a folder row whose key ends with the separator.  When the
    key has no empty segment these folders are all its separator-ended
    proper prefixes.  A key without separator has no ancestor folder. *)
Theorem completed_scan_ancestor_folders (remote : listing) (w after : world) :
  listing_error remote = None ->
  folder_objects_first (delivered remote) = true ->
  after = (rebuildIndex clock remote w).1 \/ after = (refreshIndex clock remote w).1 ->
  forall key r,
    objects after !! key = Some r ->
    type r = File ->
    (forall f, f ∈ folderPrefixesForKey key ->
               endsWith slash (fkey f) = true /\ has_folder_row after (fkey f))
    /\ (clean key = true ->
        forall p, p ∈ ancestor_prefixes key ->
                  endsWith slash p = true /\ has_folder_row after p)
    /\ (has_char slash key = false ->
        folderPrefixesForKey key = [] /\ ancestor_prefixes key = []).
Proof.
  intros He Hfirst Hafter key r Hk Hty.
  assert (Hall : forall f, f ∈ folderPrefixesForKey key ->
                           endsWith slash (fkey f) = true /\ has_folder_row after (fkey f)).
  { intros f Hf. split; [exact (folder_key_ends_with_slash key f Hf)|].
    destruct Hafter as [->| ->].
    - exact (rebuild_ancestor_folders clock remote w He Hfirst key r Hk Hty f Hf).
    - exact (refresh_ancestor_folders remote w He Hfirst key r Hk Hty f Hf). }
  split; [exact Hall|]. split.
  - intros Hclean p Hp. rewrite <- (folderPrefixes_clean key Hclean) in Hp.
    apply list_elem_of_fmap in Hp as (f & -> & Hf). exact (Hall f Hf).
  - intros Hroot. split; [apply folderPrefixes_root|apply ancestor_prefixes_root]; exact Hroot.
Qed.
End ScanFolders.

Lemma completed_scan_ancestor_folders_witness :
  has_folder_row (rebuildIndex Sample.clock Sample.folder_with_file Sample.two_files).1 "docs/"
  /\ has_folder_row (refreshIndex Sample.clock Sample.folder_with_file Sample.two_files).1
       "docs/".
Proof.
  split.
  - pose proof (completed_scan_ancestor_folders Sample.clock Sample.folder_with_file
                  Sample.two_files _ eq_refl eq_refl (or_introl eq_refl) "docs/a.txt"%string
                  (Sample.file_row "docs/a.txt" 5 "2026-01-01T00:00:00.002Z")
                  eq_refl eq_refl) as (_ & Hclean & _).
    apply (Hclean eq_refl "docs/"%string). simpl. set_solver.
  - pose proof (completed_scan_ancestor_folders Sample.clock Sample.folder_with_file
                  Sample.two_files _ eq_refl eq_refl (or_intror eq_refl) "docs/a.txt"%string
                  (Sample.file_row "docs/a.txt" 5 "2026-01-01T00:00:00.002Z")
                  eq_refl eq_refl) as (_ & Hclean & _).
    apply (Hclean eq_refl "docs/"%string). simpl. set_solver.
Defined.

(** ** The order of a scan of the table *)

Section ScanOrder.

Lemma foldr_max_bound (l : list nat) n : n ∈ l -> (n <= foldr Nat.max 0 l)%nat.
Proof.
  induction l as [|m l IH]; [intros H; inversion H|].
  intros H. cbn [foldr]. apply elem_of_cons in H as [->|H]; [lia|].
  specialize (IH H). lia.
Qed.

Lemma rowid_below_next w key r :
  objects w !! key = Some r -> (rowid w key < next_rowid w)%nat.
Proof.
  intros H. unfold next_rowid. apply Nat.lt_succ_r, foldr_max_bound.
  apply list_elem_of_fmap. exists (key, r). split; [reflexivity|].
  apply elem_of_map_to_list, H.
Qed.

(** A row that is inserted comes after every row of the table in a scan,
    and a row that is updated stays where it is: the [rowid]s of the other
    rows are never changed. *)
Lemma upsertObject_rowid key nm ext sz lm tag now ty w :
  let w' := upsertObject key nm ext sz lm tag now ty w in
  (forall k, k <> key -> rowid w' k = rowid w k)
  /\ (objects w !! key = None ->
      forall k r, objects w !! k = Some r -> (rowid w k < rowid w' key)%nat)
  /\ (forall r, objects w !! key = Some r -> rowid w' key = rowid w key).
Proof.
  unfold upsertObject, rowid. cbn [rowids objects]. split; [|split].
  - intros k Hne. destruct (objects w !! key); [reflexivity|].
    rewrite lookup_insert_ne by congruence. reflexivity.
  - intros Hnone k r Hk. rewrite Hnone, lookup_insert_eq. cbn.
    exact (rowid_below_next w k r Hk).
  - intros r Hr. rewrite Hr. reflexivity.
Qed.
End ScanOrder.

(** Rows written at the same clock reading are listed in the order in which
    they were inserted: an update leaves a row in its place, and a row that
    is deleted and inserted again goes last. *)
Lemma search_ties_in_insertion_order :
  let put := fun key w => upsertObject key key None 1 None None "t1" File w in
  let w := put "z" (deleteObjectStmt "z" (put "m" (put "a" (put "m" (put "z"
             Sample.empty_world))))) in
  map ikey (items (searchIndexedObjects Sample.clock
                     {| search := None; limit := Some 2; offset := None |} w).1)
  = ["m"; "a"]%string
  /\ map ikey (items (searchIndexedObjects Sample.clock
                        {| search := None; limit := Some 2; offset := Some 2 |} w).1)
     = ["z"]%string
  /\ map ikey (getRecentIndexedObjects Sample.clock (Some (-1)) w).1
     = ["m"; "a"; "z"]%string.
Proof. repeat split; vm_compute; reflexivity. Qed.

(** ** The examples of the specification *)

(** Two refreshes over the two documents: the second reports nothing. *)
Lemma refreshIndex_twice_without_folder_objects_example :
  exists summary,
    (refreshIndex Sample.clock Sample.two_documents
       (refreshIndex Sample.clock Sample.two_documents Sample.two_files).1).2 = inr summary
    /\ added summary = 0%nat /\ updated summary = 0%nat /\ removed summary = 0%nat.
Proof.
  apply (refreshIndex_twice_without_folder_objects Sample.clock Sample.two_documents
           Sample.two_files eq_refl).
  - apply (bool_decide_unpack _). vm_compute. reflexivity.
  - intros o Ho.
    apply elem_of_cons in Ho as [->|Ho]; [apply (bool_decide_unpack _); vm_compute; reflexivity|].
    apply elem_of_cons in Ho as [->|Ho]; [|inversion Ho].
    apply (bool_decide_unpack _). vm_compute. reflexivity.
Defined.

(** The rebuild example of the specification: two folders and two files,
    and the summary indexed 2, folders 2. *)
Lemma rebuildIndex_two_documents :
  (rebuildIndex Sample.clock Sample.two_documents Sample.two_files).2
  = inr {| indexed := 2; folders := 2 |}
  /\ dom (objects (rebuildIndex Sample.clock Sample.two_documents Sample.two_files).1)
     = {[ "docs/"; "docs/img/"; "docs/readme.txt"; "docs/img/logo.png" ]}%string
  /\ extension <$> (objects (rebuildIndex Sample.clock Sample.two_documents Sample.two_files).1
                    !! "docs/img/logo.png"%string)
     = Some (Some "png"%string).
Proof.
  repeat split; vm_compute; reflexivity.
Qed.


(** * Further properties *)

(** ** The order of [updated_at] *)

Section UpdatedOrder.

Lemma ascii_compare_refl a : Ascii.compare a a = Eq.
Proof. unfold Ascii.compare. apply N.compare_refl. Qed.

Lemma ascii_compare_lt_trans a b c :
  Ascii.compare a b = Lt -> Ascii.compare b c = Lt -> Ascii.compare a c = Lt.
Proof.
  unfold Ascii.compare. rewrite !N.compare_lt_iff. apply N.lt_trans.
Qed.

Lemma string_compare_lt_trans s1 :
  forall s2 s3, String.compare s1 s2 = Lt -> String.compare s2 s3 = Lt ->
                String.compare s1 s3 = Lt.
Proof.
  induction s1 as [|a s1 IH]; intros [|b s2] [|c s3]; simpl; try congruence.
  destruct (Ascii.compare a b) eqn:Hab; try discriminate.
  - apply Ascii.compare_eq_iff in Hab as ->.
    destruct (Ascii.compare b c); try congruence. apply IH.
  - intros _. destruct (Ascii.compare b c) eqn:Hbc; try discriminate.
    + apply Ascii.compare_eq_iff in Hbc as <-. rewrite Hab. reflexivity.
    + rewrite (ascii_compare_lt_trans a b c Hab Hbc). reflexivity.
Qed.

Lemma string_compare_refl s : String.compare s s = Eq.
Proof. induction s as [|a s IH]; [reflexivity|]. simpl. rewrite ascii_compare_refl. exact IH. Qed.

Lemma string_leb_trans s1 s2 s3 :
  String.leb s1 s2 = true -> String.leb s2 s3 = true -> String.leb s1 s3 = true.
Proof.
  unfold String.leb. intros H12 H23.
  destruct (String.compare s1 s2) eqn:E12; [|clear H12|discriminate].
  - apply String.compare_eq_iff in E12 as ->. exact H23.
  - destruct (String.compare s2 s3) eqn:E23; [|clear H23|discriminate].
    + apply String.compare_eq_iff in E23 as <-. rewrite E12. reflexivity.
    + rewrite (string_compare_lt_trans s1 s2 s3 E12 E23). reflexivity.
Qed.

Lemma newer_or_same_trans a b c :
  newer_or_same a b -> newer_or_same b c -> newer_or_same a c.
Proof.
  unfold newer_or_same, newer_first. intros Hab Hbc. eapply string_leb_trans; eassumption.
Qed.

Lemma order_by_updated_desc_strongly l :
  StronglySorted newer_or_same (order_by_updated_desc l).
Proof.
  apply Sorted_StronglySorted; [|apply order_by_updated_desc_sorted].
  intros a b c. apply newer_or_same_trans.
Qed.
End UpdatedOrder.

(** ** Recent entries *)

Section RecentEntries.
Variable clock : nat -> string.

Lemma present_rows_world rows acc :
  objects (foldl (present_row clock) acc rows).2 = objects acc.2
  /\ index_state (foldl (present_row clock) acc rows).2 = index_state acc.2
  /\ (ticks acc.2 <= ticks (foldl (present_row clock) acc rows).2)%nat
  /\ (Forall (fun kr => truthy (updated_at kr.2) = true) rows ->
      ticks (foldl (present_row clock) acc rows).2 = ticks acc.2).
Proof.
  revert acc. induction rows as [|kr rows IH]; intros acc; cbn [foldl].
  - repeat split; try reflexivity.
  - destruct (IH (present_row clock acc kr)) as (Ho & Hs & Ht & Hq).
    rewrite Ho, Hs. unfold present_row in *.
    destruct (truthy (updated_at kr.2)) eqn:Hu; cbn [snd nowIso objects index_state ticks] in *.
    + repeat split; try reflexivity; [exact Ht|].
      intros Hall. apply Forall_cons in Hall as [_ Hall]. exact (Hq Hall).
    + repeat split; try reflexivity; [lia|].
      intros Hall. apply Forall_cons in Hall as [Hkr _]. congruence.
Qed.

Lemma sql_limit_split {A : Type} (n : Z) (l : list A) :
  exists rest, sql_limit n l ++ rest = l
               /\ length (sql_limit n l)
                  = if n <? 0 then length l else Nat.min (Z.to_nat n) (length l).
Proof.
  unfold sql_limit. destruct (n <? 0).
  - exists []. rewrite app_nil_r. split; reflexivity.
  - exists (drop (Z.to_nat n) l). rewrite take_drop, length_take. split; reflexivity.
Qed.

(** X1. [getRecentIndexedObjects] shows the most recently written rows: the
    items present a run of rows that is sorted from newest to oldest
    [updated_at], every row left out is not newer than any row shown, and
    their number is the limit (20 when none is given) or the number of rows
    when that is smaller; a negative limit, which SQLite reads as no limit,
    shows every row. *)
Theorem getRecentIndexedObjects_newest (limit : option Z) (w : world) :
  exists shown rest : list (string * row),
    shown ++ rest ≡ₚ map_to_list (objects w)
    /\ Forall2 presents (getRecentIndexedObjects clock limit w).1 shown
    /\ StronglySorted newer_or_same shown
    /\ (forall a b, a ∈ shown -> b ∈ rest -> newer_or_same a b)
    /\ length shown
       = if default 20 limit <? 0 then base.size (objects w)
         else Nat.min (Z.to_nat (default 20 limit)) (base.size (objects w)).
Proof.
  set (sorted := order_by_updated_desc (table_rows w)).
  destruct (sql_limit_split (default 20 limit) sorted) as (rest & Hsplit & Hlen).
  exists (sql_limit (default 20 limit) sorted), rest.
  assert (Hstrong : StronglySorted newer_or_same (sql_limit (default 20 limit) sorted ++ rest)).
  { rewrite Hsplit. apply order_by_updated_desc_strongly. }
  split; [rewrite Hsplit; unfold sorted; rewrite order_by_updated_desc_perm;
          apply table_rows_perm|].
  split.
  { unfold getRecentIndexedObjects. fold sorted.
    apply (present_rows_fields clock _ ([], w) []). constructor. }
  split; [exact (StronglySorted_app_1_l _ _ _ Hstrong)|].
  split; [intros a b; apply (StronglySorted_app_1_elem_of _ _ _ _ _ Hstrong)|].
  rewrite Hlen. unfold sorted.
  rewrite (Permutation_length (order_by_updated_desc_perm _)), length_table_rows.
  reflexivity.
Qed.
End RecentEntries.

(** ** Search: pages and timestamps *)

Section SearchPages.
Variable clock : nat -> string.

Lemma matching_rows_all w : matching_rows None w = table_rows w.
Proof.
  unfold matching_rows. induction (table_rows w) as [|kr l IH]; [reflexivity|].
  rewrite filter_cons, decide_True by reflexivity. rewrite IH. reflexivity.
Qed.

Lemma search_pattern_blank q :
  match q with
  | Some text => truthy (trim (toLowerCase text)) = false
  | None => True
  end ->
  search_pattern q = None.
Proof.
  destruct q as [text|]; [|reflexivity]. intros H. unfold search_pattern.
  destruct (truthy text); [rewrite H|]; reflexivity.
Qed.

(** X2. A search without query, or whose query is empty or only white space,
    has no filter: [total] is the number of rows of the index and the items
    are the page of all the rows, newest first. *)
Theorem search_without_needle (q : option string) (lim off : option Z) (w : world) :
  match q with
  | Some text => truthy (trim (toLowerCase text)) = false
  | None => True
  end ->
  total (searchIndexedObjects clock {| search := q; limit := lim; offset := off |} w).1
  = base.size (objects w)
  /\ exists every : list (string * row),
       every ≡ₚ map_to_list (objects w)
       /\ StronglySorted newer_or_same every
       /\ Forall2 presents
            (items (searchIndexedObjects clock
                      {| search := q; limit := lim; offset := off |} w).1)
            (take (Z.to_nat (clampLimit lim)) (drop (Z.to_nat (clampOffset off)) every)).
Proof.
  intros Hq. pose proof (search_pattern_blank q Hq) as Hpat. split.
  - rewrite searchIndexedObjects_total. cbn [search]. rewrite Hpat, matching_rows_all.
    apply length_table_rows.
  - exists (order_by_updated_desc (table_rows w)).
    split; [rewrite order_by_updated_desc_perm; apply table_rows_perm|].
    split; [apply order_by_updated_desc_strongly|].
    pose proof (searchIndexedObjects_fields clock
                  {| search := q; limit := lim; offset := off |} w) as H.
    unfold selected_rows in H. cbn [search limit offset] in H.
    rewrite Hpat, matching_rows_all in H. exact H.
Qed.

Lemma selected_rows_length params w :
  length (selected_rows params w)
  = Nat.min (Z.to_nat (clampLimit (limit params)))
      (length (matching_rows (search_pattern (search params)) w)
       - Z.to_nat (clampOffset (offset params))).
Proof.
  unfold selected_rows. rewrite length_take, length_drop.
  rewrite (Permutation_length (order_by_updated_desc_perm _)). reflexivity.
Qed.

(** X3. The number of items of a search is what is left of the matches after
    the clamped offset, up to the clamped limit; an offset at or beyond the
    total gives no item.  [total] does not depend on the limit nor on the
    offset. *)
Theorem search_page_length (params : SearchParams) (w : world) :
  length (items (searchIndexedObjects clock params w).1)
  = Nat.min (Z.to_nat (clampLimit (limit params)))
      (total (searchIndexedObjects clock params w).1 - Z.to_nat (clampOffset (offset params)))
  /\ ((total (searchIndexedObjects clock params w).1
       <= Z.to_nat (clampOffset (offset params)))%nat ->
      items (searchIndexedObjects clock params w).1 = [])
  /\ forall lim off,
       total (searchIndexedObjects clock
                {| search := search params; limit := lim; offset := off |} w).1
       = total (searchIndexedObjects clock params w).1.
Proof.
  assert (Hlen : length (items (searchIndexedObjects clock params w).1)
                 = Nat.min (Z.to_nat (clampLimit (limit params)))
                     (total (searchIndexedObjects clock params w).1
                      - Z.to_nat (clampOffset (offset params)))).
  { rewrite (Forall2_length _ _ _ (searchIndexedObjects_fields clock params w)).
    rewrite selected_rows_length, searchIndexedObjects_total. reflexivity. }
  split; [exact Hlen|]. split.
  - intros Hle. apply length_zero_iff_nil. rewrite Hlen. lia.
  - intros lim off. rewrite !searchIndexedObjects_total. reflexivity.
Qed.

Lemma take_next_page {A : Type} (n m : nat) (l : list A) :
  take n l ++ take m (drop n l) = take (n + m) l.
Proof.
  revert l. induction n as [|n IH]; intros l; [reflexivity|].
  destruct l as [|x l]; [destruct m; reflexivity|].
  cbn [take drop Nat.add app]. rewrite IH. reflexivity.
Qed.

Lemma searchIndexedObjects_objects params w :
  objects (searchIndexedObjects clock params w).2 = objects w
  /\ index_state (searchIndexedObjects clock params w).2 = index_state w.
Proof.
  unfold searchIndexedObjects.
  pose proof (present_rows_world clock (selected_rows params w) ([], w)) as (Ho & Hs & _).
  destruct (foldl _ _ _) as [its w']. split; assumption.
Qed.

Lemma present_rows_rowids rows acc :
  rowids (foldl (present_row clock) acc rows).2 = rowids acc.2.
Proof.
  revert acc. induction rows as [|kr rows IH]; intros acc; cbn [foldl]; [reflexivity|].
  rewrite IH. unfold present_row. destruct (truthy (updated_at kr.2)); reflexivity.
Qed.

Lemma searchIndexedObjects_rowids params w :
  rowids (searchIndexedObjects clock params w).2 = rowids w.
Proof.
  unfold searchIndexedObjects.
  pose proof (present_rows_rowids (selected_rows params w) ([], w)) as H.
  destruct (foldl _ _ _) as [its w']. exact H.
Qed.

Lemma insert_by_rowid_same w w' x l :
  rowids w' = rowids w -> insert_by_rowid w' x l = insert_by_rowid w x l.
Proof.
  intros H. induction l as [|y r IH]; [reflexivity|].
  cbn [insert_by_rowid]. unfold rowid. rewrite H, IH. reflexivity.
Qed.

(** The scan of a table depends on its rows and on their [rowid]s only. *)
Lemma table_rows_same w w' :
  objects w' = objects w -> rowids w' = rowids w -> table_rows w' = table_rows w.
Proof.
  intros Ho Hr. unfold table_rows. rewrite Ho.
  induction (map_to_list (objects w)) as [|x l IH]; [reflexivity|].
  cbn [foldr]. rewrite IH. apply insert_by_rowid_same, Hr.
Qed.

Lemma selected_rows_same params w w' :
  objects w' = objects w -> rowids w' = rowids w ->
  selected_rows params w' = selected_rows params w.
Proof.
  intros Ho Hr. unfold selected_rows, matching_rows.
  rewrite (table_rows_same w w' Ho Hr). reflexivity.
Qed.

Lemma selected_keys_NoDup (n o : nat) (pattern : option string) (w : world) :
  NoDup (take n (drop o (order_by_updated_desc (matching_rows pattern w)))).*1.
Proof.
  assert (Hall : NoDup (order_by_updated_desc (matching_rows pattern w)).*1).
  { rewrite (order_by_updated_desc_perm (matching_rows pattern w)).
    unfold matching_rows.
    apply (sublist_NoDup _ (table_rows w).*1); [apply NoDup_table_rows|].
    apply fmap_sublist, sublist_filter. }
  eapply sublist_NoDup; [exact Hall|].
  apply fmap_sublist. etrans; [apply sublist_take|apply sublist_drop].
Qed.

(** X4. Two searches in a row, the second from where the first page ends,
    never show an entry twice: a page of [a] entries followed by the page
    of the next [b] entries is the page of [a + b] entries, which shows
    no key twice; and the first search leaves the table as it was, so that
    the second counts the same total. *)
Theorem search_consecutive_pages (q : option string) (a b : Z) (off : option Z) (w : world) :
  1 <= a -> 1 <= b -> a + b <= 200 ->
  let first := searchIndexedObjects clock {| search := q; limit := Some a; offset := off |} w in
  let second :=
    searchIndexedObjects clock
      {| search := q; limit := Some b; offset := Some (clampOffset off + a) |} first.2 in
  let both :=
    searchIndexedObjects clock {| search := q; limit := Some (a + b); offset := off |} w in
  map ikey (items first.1) ++ map ikey (items second.1) = map ikey (items both.1)
  /\ NoDup (map ikey (items both.1))
  /\ objects first.2 = objects w
  /\ total second.1 = total first.1.
Proof.
  intros Ha Hb Hab first second both.
  destruct (searchIndexedObjects_objects
              {| search := q; limit := Some a; offset := off |} w) as (Hobj & _).
  pose proof (searchIndexedObjects_rowids
                {| search := q; limit := Some a; offset := off |} w) as Hrow.
  fold first in Hobj, Hrow.
  assert (Ho : 0 <= clampOffset off) by (unfold clampOffset; lia).
  assert (Hla : clampLimit (Some a) = a) by (unfold clampLimit; simpl; lia).
  assert (Hlb : clampLimit (Some b) = b) by (unfold clampLimit; simpl; lia).
  assert (Hlab : clampLimit (Some (a + b)) = a + b) by (unfold clampLimit; simpl; lia).
  assert (Hoff : clampOffset (Some (clampOffset off + a)) = clampOffset off + a)
    by (unfold clampOffset at 1; simpl; lia).
  split; [|split; [|split]].
  - unfold first, second, both. rewrite !searchIndexedObjects_keys.
    rewrite (selected_rows_same _ w _ Hobj Hrow).
    unfold selected_rows. cbn [search limit offset].
    rewrite Hla, Hlb, Hlab, Hoff, !Z2Nat.inj_add by lia.
    rewrite <- drop_drop, <- fmap_app, take_next_page. reflexivity.
  - unfold both. rewrite searchIndexedObjects_keys. apply selected_keys_NoDup.
  - exact Hobj.
  - unfold second. rewrite searchIndexedObjects_total. cbn [search].
    unfold matching_rows at 1. rewrite (table_rows_same w first.2 Hobj Hrow).
    unfold first. rewrite searchIndexedObjects_total. reflexivity.
Qed.

Lemma endsWith_with_zone v : endsWith "Z" (with_zone v) = true.
Proof.
  unfold with_zone. destruct (endsWith "Z" v) eqn:E; [exact E|].
  clear E. induction v as [|a r IH]; [reflexivity|].
  change (String a r +:+ "Z")%string with (String a (r +:+ "Z")).
  cbn [endsWith]. destruct (r +:+ "Z")%string eqn:Er; [destruct r; discriminate|exact IH].
Qed.

Lemma present_rows_zoned rows acc shown :
  Forall2 zoned acc.1 shown ->
  Forall2 zoned (foldl (present_row clock) acc rows).1 (shown ++ rows).
Proof.
  revert acc shown. induction rows as [|kr rows IH]; intros acc shown Hacc; cbn [foldl].
  - rewrite app_nil_r. exact Hacc.
  - replace (shown ++ kr :: rows) with ((shown ++ [kr]) ++ rows)
      by (rewrite <- app_assoc; reflexivity).
    apply IH. unfold present_row.
    destruct (truthy (updated_at kr.2)) eqn:Hu; cbn [fst].
    + apply Forall2_app; [exact Hacc|]. constructor; [|constructor].
      split; [|reflexivity]. cbn [ilastModified].
      destruct (opt_or_null (last_modified kr.2)); reflexivity.
    + apply Forall2_app; [exact Hacc|]. constructor; [|constructor].
      split; [|congruence]. cbn [ilastModified].
      destruct (opt_or_null (last_modified kr.2)); reflexivity.
Qed.

(** X5. Every modification time that a search returns is null or ends with
    [Z], the stored text being kept when it ends with [Z] already; and when
    every stored row has a non-empty [updated_at], as the rows that the
    scans write have, every [updatedAt] returned ends with [Z] and the
    search does not read the clock. *)
Theorem search_timestamps_zoned (params : SearchParams) (w : world) :
  Forall2 zoned (items (searchIndexedObjects clock params w).1) (selected_rows params w)
  /\ Forall (fun it => match ilastModified it with
                       | Some v => endsWith "Z" v = true
                       | None => True
                       end)
       (items (searchIndexedObjects clock params w).1)
  /\ ((forall key r, objects w !! key = Some r -> truthy (updated_at r) = true) ->
      Forall (fun it => endsWith "Z" (iupdatedAt it) = true)
        (items (searchIndexedObjects clock params w).1)
      /\ ticks (searchIndexedObjects clock params w).2 = ticks w).
Proof.
  assert (Hz : Forall2 zoned (items (searchIndexedObjects clock params w).1)
                 (selected_rows params w)).
  { unfold searchIndexedObjects.
    pose proof (present_rows_zoned (selected_rows params w) ([], w) []
                  ltac:(constructor)) as H.
    destruct (foldl _ _ _) as [its w']. exact H. }
  assert (Hsel : forall kr, kr ∈ selected_rows params w -> objects w !! kr.1 = Some kr.2).
  { intros [k r] Hin. unfold selected_rows in Hin.
    apply subseteq_take, subseteq_drop in Hin.
    rewrite order_by_updated_desc_perm in Hin. unfold matching_rows in Hin.
    apply list_elem_of_filter in Hin as [_ Hin]. apply elem_of_table_rows in Hin. exact Hin. }
  split; [exact Hz|]. split.
  - clear Hsel. induction Hz as [|it kr its krs [Hlm _] _ IH]; constructor; [|exact IH].
    rewrite Hlm. destruct (opt_or_null (last_modified kr.2)); [|exact I].
    apply endsWith_with_zone.
  - intros Hstored. split.
    + revert Hsel. induction Hz as [|it kr its krs [_ Hu] _ IH]; intros Hsel; constructor.
      * rewrite Hu; [apply endsWith_with_zone|].
        apply (Hstored kr.1 kr.2), Hsel. left.
      * apply IH. intros kr' Hin. apply Hsel. right. exact Hin.
    + unfold searchIndexedObjects.
      pose proof (present_rows_world clock (selected_rows params w) ([], w)) as (_ & _ & _ & Ht).
      destruct (foldl _ _ _) as [its w']. apply Ht.
      apply Forall_forall. intros kr Hin. apply (Hstored kr.1 kr.2), Hsel, Hin.
Qed.
End SearchPages.

Lemma search_without_needle_witness :
  total (searchIndexedObjects Sample.clock
           {| search := Some "   "%string; limit := None; offset := None |}
           Sample.two_files).1
  = base.size (objects Sample.two_files).
Proof.
  exact (proj1 (search_without_needle Sample.clock (Some "   "%string) None None
                  Sample.two_files eq_refl)).
Defined.

Lemma search_page_length_witness :
  items (searchIndexedObjects Sample.clock
           {| search := None; limit := Some 10; offset := Some 5 |} Sample.two_files).1
  = [].
Proof.
  apply (proj1 (proj2 (search_page_length Sample.clock
                         {| search := None; limit := Some 10; offset := Some 5 |}
                         Sample.two_files))).
  vm_compute. lia.
Defined.

Lemma search_consecutive_pages_witness :
  map ikey (items (searchIndexedObjects Sample.clock
                     {| search := None; limit := Some 1; offset := None |}
                     Sample.two_files).1)
  ++ map ikey (items (searchIndexedObjects Sample.clock
                        {| search := None; limit := Some 1; offset := Some 1 |}
                        (searchIndexedObjects Sample.clock
                           {| search := None; limit := Some 1; offset := None |}
                           Sample.two_files).2).1)
  = ["b.txt"; "a.txt"]%string.
Proof.
  refine (eq_trans (proj1 (search_consecutive_pages Sample.clock None 1 1 None
                             Sample.two_files _ _ _)) _); [lia|lia|lia|reflexivity].
Defined.

Lemma search_timestamps_zoned_witness :
  Forall (fun it => endsWith "Z" (iupdatedAt it) = true)
    (items (searchIndexedObjects Sample.clock
              {| search := Some "txt"%string; limit := None; offset := None |}
              Sample.two_files).1).
Proof.
  apply (proj2 (proj2 (search_timestamps_zoned Sample.clock
                         {| search := Some "txt"%string; limit := None; offset := None |}
                         Sample.two_files))).
  apply map_Forall_lookup. apply (bool_decide_unpack _). vm_compute. reflexivity.
Defined.


(** ** Full rebuild: the keys it leaves *)

Section RebuildKeys.
Variable clock : nat -> string.

Lemma rebuild_folder_dom s f :
  seenFolders s ⊆ dom (objects (sworld s)) ->
  dom (objects (sworld (rebuild_folder clock s f))) = {[fkey f]} ∪ dom (objects (sworld s))
  /\ seenFolders (rebuild_folder clock s f) ⊆ dom (objects (sworld (rebuild_folder clock s f)))
  /\ index_state (sworld (rebuild_folder clock s f)) = index_state (sworld s).
Proof.
  intros Hs. unfold rebuild_folder. case_bool_decide as Hin.
  - split; [set_solver|]. split; [exact Hs|reflexivity].
  - cbn [sworld seenFolders nowIso upsertObject objects index_state].
    rewrite dom_insert_L. split; [reflexivity|]. split; [set_solver|reflexivity].
Qed.

Lemma rebuild_folders_dom fs s :
  seenFolders s ⊆ dom (objects (sworld s)) ->
  dom (objects (sworld (foldl (rebuild_folder clock) s fs)))
  = list_to_set (map fkey fs) ∪ dom (objects (sworld s))
  /\ seenFolders (foldl (rebuild_folder clock) s fs)
     ⊆ dom (objects (sworld (foldl (rebuild_folder clock) s fs)))
  /\ index_state (sworld (foldl (rebuild_folder clock) s fs)) = index_state (sworld s).
Proof.
  revert s. induction fs as [|f fs IH]; intros s Hs; cbn [foldl].
  - split; [set_solver|]. split; [exact Hs|reflexivity].
  - destruct (rebuild_folder_dom s f Hs) as (Hd & Hs' & Hi).
    destruct (IH _ Hs') as (Hd2 & Hs2 & Hi2).
    split; [rewrite Hd2, Hd; set_solver|]. split; [exact Hs2|]. rewrite Hi2. exact Hi.
Qed.

Lemma rebuild_object_dom o s :
  seenFolders s ⊆ dom (objects (sworld s)) ->
  dom (objects (sworld (rebuild_object clock o s))) = object_keys o ∪ dom (objects (sworld s))
  /\ seenFolders (rebuild_object clock o s) ⊆ dom (objects (sworld (rebuild_object clock o s)))
  /\ index_state (sworld (rebuild_object clock o s)) = index_state (sworld s).
Proof.
  intros Hs. destruct (rebuild_folders_dom (folderPrefixesForKey (okey o)) s Hs) as (Hd & Hs' & Hi).
  unfold rebuild_object. cbn [sworld seenFolders nowIso upsertObject objects index_state].
  rewrite dom_insert_L. unfold object_keys.
  split; [rewrite Hd; set_solver|]. split; [set_solver|exact Hi].
Qed.

Lemma rebuild_walk_dom objs s :
  seenFolders s ⊆ dom (objects (sworld s)) ->
  dom (objects (sworld (rebuild_walk clock objs s))) = observed_keys objs ∪ dom (objects (sworld s))
  /\ index_state (sworld (rebuild_walk clock objs s)) = index_state (sworld s).
Proof.
  revert s. induction objs as [|o objs IH]; intros s Hs.
  - rewrite observed_keys_nil. split; [set_solver|reflexivity].
  - change (rebuild_walk clock (o :: objs) s)
      with (rebuild_walk clock objs (rebuild_object clock o s)).
    destruct (rebuild_object_dom o s Hs) as (Hd & Hs' & Hi).
    destruct (IH _ Hs') as (Hd2 & Hi2).
    split; [rewrite Hd2, Hd, observed_keys_cons; set_solver|]. rewrite Hi2. exact Hi.
Qed.

Lemma rebuild_walk_keys remote w :
  dom (objects (sworld (rebuild_walk clock (delivered remote) (fresh_scan (clearObjects w)))))
  = observed_keys (delivered remote)
  /\ index_state (sworld (rebuild_walk clock (delivered remote) (fresh_scan (clearObjects w))))
     = index_state w.
Proof.
  destruct (rebuild_walk_dom (delivered remote) (fresh_scan (clearObjects w))) as (Hd & Hi).
  { simpl. set_solver. }
  rewrite Hd, Hi. simpl. rewrite dom_empty_L. split; [set_solver|reflexivity].
Qed.

(** X6. After a completed rebuild the index holds the observed keys and no
    other: the keys of the listed objects and the folder keys synthesized
    from them, whatever the index held before.  The two counts of the
    summary add up to their number. *)
Theorem rebuildIndex_keeps_observed_keys (remote : listing) (w : world) :
  listing_error remote = None ->
  dom (objects (rebuildIndex clock remote w).1) = observed_keys (delivered remote)
  /\ (forall key, key ∉ observed_keys (delivered remote) ->
                  objects (rebuildIndex clock remote w).1 !! key = None)
  /\ exists summary,
       (rebuildIndex clock remote w).2 = inr summary
       /\ (indexed summary + folders summary)%nat
          = base.size (observed_keys (delivered remote)).
Proof.
  intros He. rewrite (rebuildIndex_completed clock remote w He). cbn [fst snd].
  destruct (rebuild_walk_keys remote w) as (Hd & _).
  unfold updateState. cbn [objects nowIso snd].
  split; [exact Hd|]. split.
  - intros key Hk. apply not_elem_of_dom. rewrite Hd. exact Hk.
  - eexists. split; [reflexivity|]. cbn [indexed folders].
    rewrite count_type_split, <- Hd. symmetry. apply size_dom.
Qed.

(** X7. A rebuild whose enumeration fails returns the error and does not
    write the scan state, but the index is not what it was: it holds the
    keys observed before the failure and no other, so that every row of the
    old index whose key was not read again is lost. *)
Theorem rebuildIndex_failure_loses_old_rows (remote : listing) (w : world) (err : string) :
  listing_error remote = Some err ->
  (rebuildIndex clock remote w).2 = inl err
  /\ index_state (rebuildIndex clock remote w).1 = index_state w
  /\ dom (objects (rebuildIndex clock remote w).1) = observed_keys (delivered remote)
  /\ forall key, key ∈ dom (objects w) -> key ∉ observed_keys (delivered remote) ->
                 objects (rebuildIndex clock remote w).1 !! key = None.
Proof.
  intros He. rewrite (rebuildIndex_failed clock remote w err He). cbn [fst snd].
  destruct (rebuild_walk_keys remote w) as (Hd & Hi).
  split; [reflexivity|]. split; [exact Hi|]. split; [exact Hd|].
  intros key _ Hk. apply not_elem_of_dom. rewrite Hd. exact Hk.
Qed.
End RebuildKeys.

Lemma rebuildIndex_keeps_observed_keys_witness :
  objects (rebuildIndex Sample.clock Sample.only_a Sample.two_files).1 !! "b.txt"%string = None.
Proof.
  apply (proj1 (proj2 (rebuildIndex_keeps_observed_keys Sample.clock Sample.only_a
                         Sample.two_files eq_refl))).
  apply (bool_decide_unpack _). vm_compute. reflexivity.
Defined.

Lemma rebuildIndex_failure_loses_old_rows_witness :
  (rebuildIndex Sample.clock Sample.second_page_fails Sample.two_files).2
  = inl "NetworkingError"%string
  /\ objects (rebuildIndex Sample.clock Sample.second_page_fails Sample.two_files).1
     !! "b.txt"%string = None.
Proof.
  pose proof (rebuildIndex_failure_loses_old_rows Sample.clock Sample.second_page_fails
                Sample.two_files "NetworkingError"%string eq_refl) as (H1 & _ & _ & H4).
  split; [exact H1|]. apply H4; apply (bool_decide_unpack _); vm_compute; reflexivity.
Defined.

(** ** Delta refresh of an empty index *)

Section RefreshFromEmpty.
Variable clock : nat -> string.

Lemma folder_step_agrees done s s' f :
  same_core s s' -> rows_accounted done s ->
  same_core (refresh_folder clock s f) (rebuild_folder clock s' f)
  /\ rows_accounted done (refresh_folder clock s f).
Proof.
  intros (Hw & Hk & Hf) (Hfolders & Hfiles).
  unfold refresh_folder, rebuild_folder. rewrite <- Hf.
  case_bool_decide as Hin; [repeat split; assumption|].
  assert (Hneeds : needsFolder (getObject (fkey f) (sworld s)) = true).
  { unfold needsFolder, getObject.
    destruct (objects (sworld s) !! fkey f) as [e|] eqn:He; [|reflexivity].
    destruct (type e) eqn:Hty; [reflexivity|].
    exfalso. apply Hin. exact (Hfolders _ _ He Hty). }
  rewrite Hneeds, <- Hw, <- Hk.
  unfold nowIso, upsertObject; cbn [sworld seenKeys seenFolders objects].
  split; [repeat split|split].
  - intros k e. cbn [objects sworld seenFolders seenKeys]. destruct (decide (k = fkey f)) as [->|Hne]; [set_solver|].
    rewrite lookup_insert_ne by congruence. intros He Hty.
    apply elem_of_union_r. exact (Hfolders _ _ He Hty).
  - intros k e. cbn [objects sworld seenFolders seenKeys]. destruct (decide (k = fkey f)) as [->|Hne].
    + rewrite lookup_insert_eq. intros [= <-]. discriminate.
    + rewrite lookup_insert_ne by congruence. apply Hfiles.
Qed.

Lemma folders_step_agrees done fs s s' :
  same_core s s' -> rows_accounted done s ->
  same_core (foldl (refresh_folder clock) s fs) (foldl (rebuild_folder clock) s' fs)
  /\ rows_accounted done (foldl (refresh_folder clock) s fs).
Proof.
  revert s s'. induction fs as [|f fs IH]; intros s s' Hc Hr; cbn [foldl]; [split; assumption|].
  destruct (folder_step_agrees done s s' f Hc Hr) as (Hc' & Hr'). exact (IH _ _ Hc' Hr').
Qed.

Lemma object_step_agrees done o s s' :
  same_core s s' -> rows_accounted done s -> okey o ∉ map okey done ->
  same_core (refresh_object clock o s) (rebuild_object clock o s')
  /\ rows_accounted (done ++ [o]) (refresh_object clock o s).
Proof.
  intros Hc Hr Hnew.
  destruct (folders_step_agrees done (folderPrefixesForKey (okey o)) s s' Hc Hr)
    as ((Hw & Hk & Hf) & (Hfolders & Hfiles)).
  unfold refresh_object, rebuild_object.
  set (s1 := foldl (refresh_folder clock) s (folderPrefixesForKey (okey o))) in *.
  set (s1' := foldl (rebuild_folder clock) s' (folderPrefixesForKey (okey o))) in *.
  assert (Hneeds : needsUpdate (getObject (okey o) (sworld s1)) o = true).
  { unfold needsUpdate, getObject.
    destruct (objects (sworld s1) !! okey o) as [e|] eqn:He; [|reflexivity].
    destruct (type e) eqn:Hty; [|reflexivity].
    exfalso. apply Hnew. exact (Hfiles _ _ He Hty). }
  unfold refresh_file. rewrite Hneeds, <- Hw, <- Hk, <- Hf.
  unfold nowIso, upsertObject; cbn [sworld seenKeys seenFolders objects].
  split; [repeat split|split].
  - intros k e. cbn [objects sworld seenFolders seenKeys]. destruct (decide (k = okey o)) as [->|Hne].
    + rewrite lookup_insert_eq. intros [= <-]. discriminate.
    + rewrite lookup_insert_ne by congruence. apply Hfolders.
  - intros k e. cbn [objects sworld seenFolders seenKeys]. rewrite map_app. destruct (decide (k = okey o)) as [->|Hne].
    + intros _ _. apply elem_of_app. right. simpl. left.
    + rewrite lookup_insert_ne by congruence. intros He Hty.
      apply elem_of_app. left. exact (Hfiles _ _ He Hty).
Qed.

Lemma walk_agrees objs :
  forall done s s',
    same_core s s' -> rows_accounted done s -> NoDup (map okey (done ++ objs)) ->
    same_core (refresh_walk clock objs s) (rebuild_walk clock objs s').
Proof.
  induction objs as [|o objs IH]; intros done s s' Hc Hr Hnd; [exact Hc|].
  rewrite refresh_walk_cons.
  change (rebuild_walk clock (o :: objs) s')
    with (rebuild_walk clock objs (rebuild_object clock o s')).
  replace (done ++ o :: objs) with ((done ++ [o]) ++ objs) in Hnd
    by (rewrite <- app_assoc; reflexivity).
  assert (Hnew : okey o ∉ map okey done).
  { rewrite !map_app in Hnd. apply NoDup_app in Hnd as [Hnd _].
    apply NoDup_app in Hnd as (_ & Hd & _). intros Hin. apply (Hd _ Hin). simpl. left. }
  destruct (object_step_agrees done o s s' Hc Hr Hnew) as (Hc' & Hr').
  exact (IH _ _ _ Hc' Hr' Hnd).
Qed.

Lemma refresh_of_empty_index_agrees (remote : listing) (w : world) :
  NoDup (map okey (delivered remote)) ->
  objects (refreshIndex clock remote (clearObjects w)).1
  = objects (rebuildIndex clock remote w).1
  /\ match (refreshIndex clock remote (clearObjects w)).2, (rebuildIndex clock remote w).2 with
     | inr refreshed, inr rebuilt =>
         files refreshed = indexed rebuilt
         /\ rfolders refreshed = folders rebuilt
         /\ removed refreshed = 0%nat
     | inl e, inl e' => e = e'
     | _, _ => False
     end.
Proof.
  intros Hnd.
  assert (Hstart : rows_accounted [] (fresh_scan (clearObjects w))).
  { split; intros k e Hk; simpl in Hk; rewrite lookup_empty in Hk; discriminate. }
  destruct (walk_agrees (delivered remote) [] (fresh_scan (clearObjects w))
              (fresh_scan (clearObjects w)) ltac:(repeat split) Hstart Hnd)
    as (Hw & _ & _).
  set (s := refresh_walk clock (delivered remote) (fresh_scan (clearObjects w))) in *.
  destruct (listing_error remote) as [err|] eqn:He.
  - rewrite (refreshIndex_failed clock remote _ err He),
      (rebuildIndex_failed clock remote w err He).
    cbn [fst snd]. fold s. rewrite Hw. split; reflexivity.
  - rewrite (refreshIndex_completed clock remote _ He), (rebuildIndex_completed clock remote w He).
    cbn [fst snd]. fold s. rewrite <- Hw.
    destruct (sweep_spec (seenKeys s) (sworld s)) as (_ & _ & Hl & Hn).
    assert (Hseen : dom (objects (sworld s)) = seenKeys s).
    { unfold s. rewrite refresh_walk_dom, refresh_walk_seenKeys by apply fresh_scan_ok.
      simpl. rewrite dom_empty_L. reflexivity. }
    assert (Hsame : objects (sweep (seenKeys s) (sworld s)).1 = objects (sworld s)).
    { apply map_eq. intros k. rewrite Hl. case_bool_decide as Hin; [reflexivity|].
      symmetry. apply not_elem_of_dom. rewrite Hseen. exact Hin. }
    unfold updateState. cbn [objects nowIso snd files rfolders indexed folders removed].
    rewrite Hsame. split; [reflexivity|]. split; [reflexivity|]. split; [reflexivity|].
    rewrite Hn, Hseen. apply size_empty_iff. set_solver.
Qed.

(** X8. A delta refresh of an index without rows builds the index that a full
    rebuild builds, when no key is listed twice: the same rows, with the
    same [updated_at], whether the enumeration completes or fails.  When it
    completes nothing is removed and the two summaries count the same files
    and folders; when it fails both return the error. *)
Theorem refreshIndex_of_empty_index_is_rebuild (remote : listing) (w : world) :
  NoDup (map okey (delivered remote)) ->
  objects (refreshIndex clock remote (clearObjects w)).1
  = objects (rebuildIndex clock remote w).1
  /\ match (refreshIndex clock remote (clearObjects w)).2, (rebuildIndex clock remote w).2 with
     | inr refreshed, inr rebuilt =>
         files refreshed = indexed rebuilt
         /\ rfolders refreshed = folders rebuilt
         /\ removed refreshed = 0%nat
     | inl e, inl e' => e = e'
     | _, _ => False
     end.
Proof. apply refresh_of_empty_index_agrees. Qed.

(** X9. A delta refresh that follows a completed full rebuild of the same
    listing finds nothing to do, when no key is listed twice and no listed
    object has the key of a folder of a listed object: it reports added 0,
    updated 0 and removed 0, and leaves every row as the rebuild wrote
    it. *)
Theorem refreshIndex_after_rebuildIndex_reports_nothing (remote : listing) (w : world) :
  listing_error remote = None ->
  NoDup (map okey (delivered remote)) ->
  (forall o, o ∈ delivered remote -> okey o ∉ folder_keys (delivered remote)) ->
  exists summary,
    (refreshIndex clock remote (rebuildIndex clock remote w).1).2 = inr summary
    /\ added summary = 0%nat /\ updated summary = 0%nat /\ removed summary = 0%nat
    /\ objects (refreshIndex clock remote (rebuildIndex clock remote w).1).1
       = objects (rebuildIndex clock remote w).1.
Proof.
  intros He Hnd Hapart.
  destruct (refresh_of_empty_index_agrees remote w Hnd) as [Hobjs _].
  assert (Hsettled : settled (objects (rebuildIndex clock remote w).1) (delivered remote)).
  { rewrite <- Hobjs. apply refreshIndex_settles; assumption. }
  assert (Hdom : dom (objects (rebuildIndex clock remote w).1)
                 ⊆ observed_keys (delivered remote)).
  { rewrite <- Hobjs. intros k Hk. apply elem_of_dom in Hk as [e Hk].
    rewrite (refreshIndex_objects clock remote _ k He) in Hk.
    case_bool_decide; [assumption|discriminate]. }
  destruct (refreshIndex_settled clock remote _ He Hsettled Hdom)
    as (summary & Hs & Ha & Hu & Hr).
  exists summary. repeat (split; [assumption|]).
  apply map_eq. intros k. rewrite (refreshIndex_objects clock remote _ k He).
  destruct (refresh_walk_settled clock (delivered remote)
              (fresh_scan (rebuildIndex clock remote w).1) Hsettled) as (Hw & _ & _).
  rewrite Hw. cbn [fresh_scan sworld]. case_bool_decide as Hin; [reflexivity|].
  symmetry. apply not_elem_of_dom. intros Hk. apply Hin, Hdom, Hk.
Qed.
End RefreshFromEmpty.

Lemma refreshIndex_of_empty_index_is_rebuild_witness :
  objects (refreshIndex Sample.clock Sample.folder_with_file
             (clearObjects Sample.two_files)).1
  = objects (rebuildIndex Sample.clock Sample.folder_with_file Sample.two_files).1.
Proof.
  refine (proj1 (refreshIndex_of_empty_index_is_rebuild Sample.clock Sample.folder_with_file
                   Sample.two_files _)).
  apply (bool_decide_unpack _). vm_compute. reflexivity.
Defined.

(** ** Delta refresh: what [added] counts *)

Section RefreshAccounting.
Variable clock : nat -> string.

Lemma size_insert_row (m : gmap string row) k v :
  base.size (<[k := v]> m) = if has_row (m !! k) then base.size m else S (base.size m).
Proof.
  destruct (m !! k) as [e|] eqn:He; simpl.
  - apply map_size_insert_Some. eauto.
  - apply map_size_insert_None, He.
Qed.

Lemma refresh_folder_counted n0 s f : counted n0 s -> counted n0 (refresh_folder clock s f).
Proof.
  unfold counted, refresh_folder. intros Hc. case_bool_decide; [exact Hc|].
  unfold getObject. destruct (needsFolder _); [|exact Hc].
  unfold nowIso, upsertObject. cbn [sworld nadded objects]. rewrite size_insert_row.
  destruct (has_row _); lia.
Qed.

Lemma refresh_folders_counted n0 fs s :
  counted n0 s -> counted n0 (foldl (refresh_folder clock) s fs).
Proof.
  revert s. induction fs as [|f fs IH]; intros s Hc; cbn [foldl]; [exact Hc|].
  apply IH, refresh_folder_counted, Hc.
Qed.

Lemma refresh_file_counted n0 o s : counted n0 s -> counted n0 (refresh_file clock o s).
Proof.
  unfold counted, refresh_file, getObject. intros Hc. cbn [sworld nadded].
  destruct (objects (sworld s) !! okey o) as [e|] eqn:He.
  - cbn [has_row]. destruct (needsUpdate _ _); [|exact Hc].
    unfold nowIso, upsertObject. cbn [objects]. rewrite size_insert_row, He. exact Hc.
  - cbn [has_row needsUpdate]. unfold nowIso, upsertObject. cbn [objects].
    rewrite size_insert_row, He. cbn [has_row]. lia.
Qed.

Lemma refresh_walk_counted n0 objs s :
  counted n0 s -> counted n0 (refresh_walk clock objs s).
Proof.
  revert s. induction objs as [|o objs IH]; intros s Hc; [exact Hc|].
  rewrite refresh_walk_cons. apply IH. unfold refresh_object.
  apply refresh_file_counted, refresh_folders_counted, Hc.
Qed.

(** X10. A completed delta refresh reports as [added] the number of observed
    keys, object keys and synthesized folder keys, that had no row before
    the run, whatever the order and repetitions of the listing; together
    with [removed] it accounts for the change in the number of rows. *)
Theorem refreshIndex_added_counts_new_keys (remote : listing) (w : world) :
  listing_error remote = None ->
  exists summary,
    (refreshIndex clock remote w).2 = inr summary
    /\ added summary
       = base.size (observed_keys (delivered remote) ∖ dom (objects w))
    /\ (base.size (objects (refreshIndex clock remote w).1) + removed summary
        = base.size (objects w) + added summary)%nat.
Proof.
  intros He. rewrite (refreshIndex_completed clock remote w He). cbn [fst snd].
  eexists. split; [reflexivity|]. cbn [added removed].
  set (s := refresh_walk clock (delivered remote) (fresh_scan w)).
  assert (Hc : counted (base.size (objects w)) s).
  { apply refresh_walk_counted. unfold counted. reflexivity. }
  assert (Hdom : dom (objects (sworld s)) = observed_keys (delivered remote) ∪ dom (objects w)).
  { unfold s. rewrite refresh_walk_dom by apply fresh_scan_ok. reflexivity. }
  assert (Hseen : seenKeys s = observed_keys (delivered remote)).
  { unfold s. rewrite refresh_walk_seenKeys by apply fresh_scan_ok. simpl. set_solver. }
  unfold counted in Hc. rewrite <- !size_dom in *. pose proof Hc as Hc0. rewrite Hdom in Hc.
  assert (Hsplit : observed_keys (delivered remote) ∪ dom (objects w)
                   = (observed_keys (delivered remote) ∖ dom (objects w)) ∪ dom (objects w)).
  { apply set_eq. intros k. rewrite !elem_of_union, elem_of_difference.
    destruct (decide (k ∈ dom (objects w))); tauto. }
  assert (Hadded : nadded s
                   = base.size (observed_keys (delivered remote) ∖ dom (objects w))).
  { rewrite Hsplit, size_union in Hc by set_solver. lia. }
  split; [exact Hadded|].
  destruct (sweep_spec (seenKeys s) (sworld s)) as (_ & _ & Hl & Hn).
  rewrite Hn. unfold updateState. cbn [objects nowIso snd].
  assert (Hleft : dom (objects (sweep (seenKeys s) (sworld s)).1) = seenKeys s).
  { apply set_eq. intros k. rewrite elem_of_dom, Hl. case_bool_decide as Hin.
    - split; [intros _; exact Hin|]. intros _. apply elem_of_dom. rewrite Hdom, <- Hseen.
      apply elem_of_union_l, Hin.
    - split; [intros [? ?]; discriminate|tauto]. }
  rewrite Hleft.
  assert (Hparts : dom (objects (sworld s))
                   = seenKeys s ∪ (dom (objects (sworld s)) ∖ seenKeys s)).
  { apply set_eq. intros k. rewrite elem_of_union, elem_of_difference.
    rewrite Hdom, Hseen, elem_of_union.
    destruct (decide (k ∈ observed_keys (delivered remote))); tauto. }
  assert (Hsz : base.size (dom (objects (sworld s)))
                = (base.size (seenKeys s)
                   + base.size (dom (objects (sworld s)) ∖ seenKeys s))%nat).
  { rewrite Hparts at 1. apply size_union. set_solver. }
  lia.
Qed.
End RefreshAccounting.

Lemma refreshIndex_added_counts_new_keys_witness :
  exists summary,
    (refreshIndex Sample.clock Sample.folder_with_file Sample.two_files).2 = inr summary
    /\ added summary
       = base.size (observed_keys (delivered Sample.folder_with_file)
                      ∖ dom (objects Sample.two_files))
    /\ (base.size (objects (refreshIndex Sample.clock Sample.folder_with_file
                              Sample.two_files).1) + removed summary
        = base.size (objects Sample.two_files) + added summary)%nat.
Proof.
  apply (refreshIndex_added_counts_new_keys Sample.clock Sample.folder_with_file
           Sample.two_files).
  reflexivity.
Defined.


(** ** Names and folders of a key *)

Section KeySegments.

Lemma split_app_sep c x y :
  split c (x +:+ String c y) = split c x ++ split c y.
Proof.
  induction x as [|a r IH].
  - change (EmptyString +:+ String c y)%string with (String c y).
    cbn [split]. rewrite Ascii.eqb_refl. reflexivity.
  - rewrite string_app_cons. cbn [split]. rewrite IH.
    destruct (Ascii.eqb a c); [reflexivity|].
    destruct (split c r) as [|h t] eqn:Hs; [destruct (split_not_nil c r Hs)|]. reflexivity.
Qed.

Lemma nonempty_parts_app_sep x y :
  nonempty_parts (x +:+ String slash y) = nonempty_parts x ++ nonempty_parts y.
Proof. unfold nonempty_parts. rewrite split_app_sep. apply filter_app. Qed.

Lemma split_no_sep c s : has_char c s = false -> split c s = [s].
Proof.
  induction s as [|a r IH]; cbn [has_char split]; [reflexivity|].
  intros H. apply orb_false_iff in H as [-> H]. rewrite IH by exact H. reflexivity.
Qed.

Lemma split_parts_no_sep c s : Forall (fun p => has_char c p = false) (split c s).
Proof.
  induction s as [|a r IH]; cbn [split].
  - repeat constructor.
  - destruct (Ascii.eqb a c) eqn:Ha; [constructor; [reflexivity|exact IH]|].
    destruct (split c r) as [|h t]; [repeat constructor; cbn; rewrite Ha; reflexivity|].
    inversion IH as [|? ? Hh Ht]; subst. constructor; [|exact Ht].
    cbn [has_char]. rewrite Ha, Hh. reflexivity.
Qed.

Lemma nonempty_parts_no_slash key :
  Forall (fun p => has_char slash p = false) (nonempty_parts key).
Proof.
  unfold nonempty_parts. apply Forall_forall. intros p Hp.
  apply list_elem_of_filter in Hp as [_ Hp].
  exact (proj1 (Forall_forall _ _) (split_parts_no_sep slash key) p Hp).
Qed.

Lemma nonempty_parts_segment p :
  truthy p = true -> has_char slash p = false -> nonempty_parts p = [p].
Proof.
  intros Ht Hs. unfold nonempty_parts. rewrite split_no_sep by exact Hs.
  rewrite filter_cons_True by exact Ht. reflexivity.
Qed.

Lemma nonempty_parts_slashes s : slashes s = true -> nonempty_parts s = [].
Proof.
  unfold slashes. induction s as [|a r IH]; [reflexivity|]. cbn [all_chars].
  intros H. apply andb_true_iff in H as [Ha Hr].
  unfold nonempty_parts. cbn [split]. rewrite Ha.
  rewrite filter_cons_False by (cbn; congruence). exact (IH Hr).
Qed.

Lemma nonempty_parts_segment_slashes nm tail :
  truthy nm = true -> has_char slash nm = false -> slashes tail = true ->
  nonempty_parts (nm +:+ tail) = [nm].
Proof.
  intros Ht Hs Hl. destruct tail as [|a t].
  - rewrite string_app_nil_r. apply nonempty_parts_segment; assumption.
  - unfold slashes in Hl. cbn [all_chars] in Hl. apply andb_true_iff in Hl as [Ha Hl].
    apply Ascii.eqb_eq in Ha. subst a. rewrite nonempty_parts_app_sep.
    rewrite nonempty_parts_segment, nonempty_parts_slashes by assumption. reflexivity.
Qed.

Lemma endsWith_inv c s : endsWith c s = true -> exists d, s = (d +:+ String c EmptyString)%string.
Proof.
  induction s as [|a r IH]; [discriminate|]. destruct r as [|b r'].
  - cbn [endsWith]. intros H. apply Ascii.eqb_eq in H. subst a. exists EmptyString. reflexivity.
  - intros H. change (endsWith c (String b r') = true) in H.
    destruct (IH H) as [d Hd]. exists (String a d). rewrite string_app_cons, <- Hd. reflexivity.
Qed.

Lemma basename_app dir nm tail :
  dir = EmptyString \/ endsWith slash dir = true ->
  truthy nm = true -> has_char slash nm = false -> slashes tail = true ->
  basename (dir +:+ nm +:+ tail) = nm.
Proof.
  intros Hdir Ht Hs Hl. unfold basename, pop_last.
  assert (Hparts : exists l, nonempty_parts (dir +:+ nm +:+ tail) = l ++ [nm]).
  { destruct Hdir as [->|Hd].
    - exists []. change (EmptyString +:+ nm +:+ tail)%string with (nm +:+ tail)%string.
      apply nonempty_parts_segment_slashes; assumption.
    - destruct (endsWith_inv _ _ Hd) as [d ->]. exists (nonempty_parts d).
      rewrite string_app_assoc.
      change (String slash EmptyString +:+ nm +:+ tail)%string
        with (String slash (nm +:+ tail)).
      rewrite nonempty_parts_app_sep, nonempty_parts_segment_slashes by assumption.
      reflexivity. }
  destruct Hparts as [l ->]. rewrite last_snoc, Ht. reflexivity.
Qed.

Lemma endsWith_cons a s : truthy s = true -> endsWith slash (String a s) = endsWith slash s.
Proof. destruct s; [discriminate|reflexivity]. Qed.

(** Every key that is not made of separators only reads as a directory
    part, one segment and trailing separators. *)
Lemma key_segments key :
  slashes key = false ->
  exists dir nm tail,
    key = (dir +:+ nm +:+ tail)%string
    /\ (dir = EmptyString \/ endsWith slash dir = true)
    /\ truthy nm = true /\ has_char slash nm = false /\ slashes tail = true.
Proof.
  unfold slashes. induction key as [|a r IH]; [discriminate|]. cbn [all_chars].
  destruct (Ascii.eqb a slash) eqn:Ha.
  - rewrite andb_true_l. intros Hr. destruct (IH Hr) as (dir & nm & tail & -> & Hd & Ht & Hs & Hl).
    exists (String a dir), nm, tail. rewrite string_app_cons.
    split; [reflexivity|]. split; [|tauto]. right.
    destruct Hd as [->|Hd]; [cbn; exact Ha|].
    rewrite endsWith_cons; [exact Hd|]. destruct dir; [discriminate|reflexivity].
  - intros _. destruct (all_chars (fun a => Ascii.eqb a slash) r) eqn:Hr.
    + exists EmptyString, (String a EmptyString), r.
      split; [reflexivity|]. split; [left; reflexivity|]. split; [reflexivity|].
      split; [cbn; rewrite Ha; reflexivity|exact Hr].
    + destruct (IH eq_refl) as (dir & nm & tail & -> & Hd & Ht & Hs & Hl).
      destruct Hd as [->|Hd].
      * exists EmptyString, (String a nm), tail.
        split; [reflexivity|]. split; [left; reflexivity|]. split; [reflexivity|].
        split; [cbn [has_char]; rewrite Ha, Hs; reflexivity|exact Hl].
      * exists (String a dir), nm, tail. rewrite string_app_cons.
        split; [reflexivity|]. split; [|tauto]. right.
        rewrite endsWith_cons; [exact Hd|]. destruct dir; [discriminate|reflexivity].
Qed.

(** X12. [basename] gives the last non-empty segment of a key: the text between
    the end of the directory part and the trailing separators. *)
Theorem basename_of_path (dir nm tail : string) :
  dir = EmptyString \/ endsWith slash dir = true ->
  truthy nm = true -> has_char slash nm = false -> slashes tail = true ->
  basename (dir +:+ nm +:+ tail) = nm.
Proof. apply basename_app. Qed.

(** X13. A key made of separators only, the empty key among them, is its own
    [basename]; for every other key [basename] is a non-empty part of the
    key that holds no separator, comes after a separator or at the start,
    and is followed by separators only. *)
Theorem basename_spec (key : string) :
  if slashes key then basename key = key
  else exists dir tail,
      key = (dir +:+ basename key +:+ tail)%string
      /\ (dir = EmptyString \/ endsWith slash dir = true)
      /\ truthy (basename key) = true
      /\ has_char slash (basename key) = false
      /\ slashes tail = true.
Proof.
  destruct (slashes key) eqn:Hk.
  - unfold basename. rewrite nonempty_parts_slashes by exact Hk. reflexivity.
  - destruct (key_segments key Hk) as (dir & nm & tail & Hkey & Hd & Ht & Hs & Hl).
    assert (Hb : basename key = nm) by (rewrite Hkey; apply basename_app; assumption).
    exists dir, tail. rewrite Hb. tauto.
Qed.

Lemma chain_key_parts segments :
  Forall (fun p => truthy p = true) segments ->
  Forall (fun p => has_char slash p = false) segments ->
  nonempty_parts (chain_key segments) = segments.
Proof.
  induction segments as [|p rest IH]; intros Ht Hs; [reflexivity|].
  inversion Ht as [|? ? Hp Ht']; inversion Hs as [|? ? Hp' Hs']; subst.
  change (chain_key (p :: rest)) with (p +:+ String slash (chain_key rest))%string.
  rewrite nonempty_parts_app_sep, nonempty_parts_segment, IH by assumption. reflexivity.
Qed.

Lemma prefixes_loop_lookup parts :
  Forall (fun p => truthy p = true) parts ->
  forall acc i f,
    prefixes_loop acc parts !! i = Some f ->
    fkey f = (acc +:+ chain_key (take (S i) parts))%string
    /\ parts !! i = Some (fname f).
Proof.
  induction parts as [|p rest IH]; intros Ht acc i f Hf; [discriminate|].
  inversion Ht as [|? ? Hp Ht']; subst.
  destruct rest as [|q rest]; [discriminate|].
  rewrite prefixes_loop_cons in Hf by exact Hp. destruct i as [|j].
  - injection Hf as <-. split; reflexivity.
  - destruct (IH Ht' _ j f Hf) as [Hk Hn]. split; [|exact Hn].
    rewrite Hk.
    change (chain_key (take (S (S j)) (p :: q :: rest)))
      with (p +:+ String slash (chain_key (take (S j) (q :: rest))))%string.
    rewrite !string_app_assoc. reflexivity.
Qed.

Lemma prefixes_loop_take parts :
  Forall (fun p => truthy p = true) parts ->
  forall acc i, prefixes_loop acc (take (S i) parts) = take i (prefixes_loop acc parts).
Proof.
  induction parts as [|p rest IH]; intros Ht acc i; [destruct i; reflexivity|].
  inversion Ht as [|? ? Hp Ht']; subst.
  destruct rest as [|q rest]; [destruct i; reflexivity|].
  rewrite prefixes_loop_cons by exact Hp. destruct i as [|j]; [reflexivity|].
  change (take (S (S j)) (p :: q :: rest)) with (p :: q :: take j rest).
  rewrite prefixes_loop_cons by exact Hp.
  change (q :: take j rest) with (take (S j) (q :: rest)).
  rewrite IH by exact Ht'. reflexivity.
Qed.

Lemma prefixes_loop_count parts :
  Forall (fun p => truthy p = true) parts ->
  forall acc, length (prefixes_loop acc parts) = pred (length parts).
Proof.
  induction parts as [|p rest IH]; intros Ht acc; [reflexivity|].
  inversion Ht as [|? ? Hp Ht']; subst.
  destruct rest as [|q rest]; [reflexivity|].
  rewrite prefixes_loop_cons by exact Hp. cbn [length]. rewrite IH by exact Ht'. reflexivity.
Qed.

(** X14. The folders of a key are one per non-empty segment but the last, parent
    before child.  The [i]-th has for key the first [i + 1] non-empty
    segments, each followed by one separator, and for name the last of
    them, which is the [basename] of its key; and the folders of that
    folder key are the folders listed before it. *)
Theorem folders_of_a_folder_come_before_it (key : string) (i : nat) (f : folder_ref) :
  folderPrefixesForKey key !! i = Some f ->
  fkey f = chain_key (take (S i) (nonempty_parts key))
  /\ nonempty_parts key !! i = Some (fname f)
  /\ basename (fkey f) = fname f
  /\ folderPrefixesForKey (fkey f) = take i (folderPrefixesForKey key)
  /\ length (folderPrefixesForKey key) = pred (length (nonempty_parts key)).
Proof.
  unfold folderPrefixesForKey. intros Hf.
  pose proof (nonempty_parts_truthy key) as Ht.
  pose proof (nonempty_parts_no_slash key) as Hs.
  destruct (prefixes_loop_lookup _ Ht _ _ _ Hf) as [Hk Hn].
  change (EmptyString +:+ chain_key (take (S i) (nonempty_parts key)))%string
    with (chain_key (take (S i) (nonempty_parts key))) in Hk.
  assert (Hparts : nonempty_parts (fkey f) = take (S i) (nonempty_parts key)).
  { rewrite Hk. apply chain_key_parts; apply Forall_take; assumption. }
  split; [exact Hk|]. split; [exact Hn|]. split; [|split].
  - unfold basename, pop_last. rewrite Hparts.
    rewrite (take_S_r _ _ _ Hn), last_snoc.
    rewrite (proj1 (Forall_forall _ _) Ht (fname f)); [reflexivity|].
    apply (list_elem_of_lookup_2 _ i), Hn.
  - rewrite Hparts. apply prefixes_loop_take, Ht.
  - apply prefixes_loop_count, Ht.
Qed.
End KeySegments.

Lemma basename_of_path_witness :
  basename ("photos/2024/" +:+ "cat.jpg" +:+ "//")%string = "cat.jpg"%string.
Proof.
  apply (basename_of_path "photos/2024/" "cat.jpg" "//");
    [right; reflexivity|reflexivity|reflexivity|reflexivity].
Defined.

Lemma folders_of_a_folder_come_before_it_witness :
  folderPrefixesForKey "a/b/" = take 1 (folderPrefixesForKey "a//b/c.txt").
Proof.
  apply (folders_of_a_folder_come_before_it "a//b/c.txt" 1 {| fkey := "a/b/"; fname := "b" |}).
  reflexivity.
Defined.


Lemma refreshIndex_after_rebuildIndex_reports_nothing_witness :
  exists summary,
    (refreshIndex Sample.clock Sample.two_documents
       (rebuildIndex Sample.clock Sample.two_documents Sample.two_files).1).2 = inr summary
    /\ added summary = 0%nat /\ updated summary = 0%nat /\ removed summary = 0%nat
    /\ objects (refreshIndex Sample.clock Sample.two_documents
                  (rebuildIndex Sample.clock Sample.two_documents Sample.two_files).1).1
       = objects (rebuildIndex Sample.clock Sample.two_documents Sample.two_files).1.
Proof.
  apply (refreshIndex_after_rebuildIndex_reports_nothing Sample.clock Sample.two_documents
           Sample.two_files eq_refl).
  - apply (bool_decide_unpack _). vm_compute. reflexivity.
  - intros o Ho.
    apply elem_of_cons in Ho as [->|Ho]; [apply (bool_decide_unpack _); vm_compute; reflexivity|].
    apply elem_of_cons in Ho as [->|Ho]; [|inversion Ho].
    apply (bool_decide_unpack _). vm_compute. reflexivity.
Defined.


(** ** Keys of created folders and of uploads *)

Section WrittenKeys.
Variable defaultObjectAcl : string.

Lemma strip_slashes t : slashes t = true -> strip_trailing_slashes t = EmptyString.
Proof.
  unfold slashes. induction t as [|a r IH]; [reflexivity|]. cbn [all_chars].
  intros H. apply andb_true_iff in H as [Ha Hr].
  cbn [strip_trailing_slashes]. rewrite (IH Hr), Ha. reflexivity.
Qed.

Lemma strip_app_slashes s t :
  slashes t = true -> strip_trailing_slashes (s +:+ t) = strip_trailing_slashes s.
Proof.
  intros Ht. induction s as [|a r IH].
  - change (EmptyString +:+ t)%string with t. rewrite strip_slashes by exact Ht. reflexivity.
  - rewrite string_app_cons. cbn [strip_trailing_slashes]. rewrite IH. reflexivity.
Qed.

Lemma normalizePrefix_shape prefix :
  normalizePrefix prefix = EmptyString \/ endsWith slash (normalizePrefix prefix) = true.
Proof.
  unfold normalizePrefix. destruct (truthy prefix); [|left; reflexivity]. right.
  destruct (endsWith slash prefix) eqn:E; [exact E|apply endsWith_app_slash].
Qed.

Lemma extractExtension_folder_key pre : extractExtension (pre +:+ "/") = EmptyString.
Proof.
  unfold extractExtension.
  change (pre +:+ "/")%string with (pre +:+ String slash EmptyString)%string.
  rewrite (lastIndexOf_app_last slash pre EmptyString eq_refl).
  rewrite (lastIndexOf_app_not_in_tail dot pre (String slash EmptyString) eq_refl).
  pose proof (lastIndexOf_upper_bound dot pre) as Hb.
  destruct (lastIndexOf dot pre =? -1); [reflexivity|].
  rewrite (proj2 (Z.ltb_lt _ _) Hb). reflexivity.
Qed.

(** X15. The key that [createFolder] writes ends with a separator and has no
    extension; separators at the end of the name make no difference; and
    when what is left of the name is one segment, that segment is the
    [basename] of the key, the name under which the indexer stores the
    folder object. *)
Theorem createFolder_key (prefix name : string) :
  let request := createFolder defaultObjectAcl prefix name in
  endsWith slash (put_Key request) = true
  /\ extractExtension (put_Key request) = EmptyString
  /\ (forall tail, slashes tail = true ->
        createFolder defaultObjectAcl prefix (name +:+ tail) = request)
  /\ (truthy (strip_trailing_slashes name) = true ->
      has_char slash (strip_trailing_slashes name) = false ->
      basename (put_Key request) = strip_trailing_slashes name).
Proof.
  cbn zeta. unfold createFolder. cbn [put_Key].
  split; [|split; [|split]].
  - rewrite <- string_app_assoc. apply endsWith_app_slash.
  - rewrite <- string_app_assoc. apply extractExtension_folder_key.
  - intros tail Ht. rewrite strip_app_slashes by exact Ht. reflexivity.
  - intros Htr Hs. apply basename_app; [apply normalizePrefix_shape|exact Htr|exact Hs|reflexivity].
Qed.

Lemma starts_with_slash a r : starts_with "/" (String a r) = Ascii.eqb a slash.
Proof. cbn [starts_with]. rewrite andb_true_r. apply Ascii.eqb_sym. Qed.

Lemma clean_from_weaken s : clean_from true s = true -> clean_from false s = true.
Proof.
  destruct s as [|a r]; [reflexivity|]. cbn [clean_from].
  destruct (Ascii.eqb a slash); [discriminate|tauto].
Qed.

Lemma collapse_slashes_clean s :
  clean_from false (collapse_slashes s) = true
  /\ (starts_with "/" s = false -> clean_from true (collapse_slashes s) = true).
Proof.
  induction s as [|a r [IH1 IH2]]; [split; reflexivity|].
  rewrite starts_with_slash. cbn [collapse_slashes].
  destruct (Ascii.eqb a slash) eqn:Ha.
  - destruct (starts_with "/" r) eqn:Hr; cbn [andb].
    + split; [exact IH1|discriminate].
    + split; [|discriminate]. cbn [clean_from]. rewrite Ha. exact (IH2 eq_refl).
  - cbn [andb clean_from]. rewrite Ha. split; [exact IH1|intros _; exact IH1].
Qed.

Lemma collapse_slashes_fixed s : clean_from false s = true -> collapse_slashes s = s.
Proof.
  induction s as [|a r IH]; [reflexivity|]. cbn [clean_from collapse_slashes].
  destruct (Ascii.eqb a slash) eqn:Ha.
  - cbn [negb andb]. intros Hr.
    assert (Hs : starts_with "/" r = false).
    { destruct r as [|b r']; [reflexivity|]. rewrite starts_with_slash.
      cbn [clean_from] in Hr. destruct (Ascii.eqb b slash); [discriminate|reflexivity]. }
    rewrite Hs, (IH (clean_from_weaken _ Hr)). reflexivity.
  - cbn [andb]. intros Hr. rewrite (IH Hr). reflexivity.
Qed.

Lemma split_collapse_slashes s :
  exists h t t',
    split slash s = h :: t /\ split slash (collapse_slashes s) = h :: t'
    /\ filter (fun p => truthy p = true) t = filter (fun p => truthy p = true) t'.
Proof.
  induction s as [|a r (h & t & t' & Hs & Hc & Hf)].
  - exists EmptyString, [], []. repeat split.
  - cbn [collapse_slashes]. destruct (Ascii.eqb a slash) eqn:Ha.
    + destruct (starts_with "/" r) eqn:Hr; cbn [andb].
      * destruct r as [|b r']; [discriminate|]. rewrite starts_with_slash in Hr.
        cbn [split] in Hs. rewrite Hr in Hs. injection Hs as <- Ht.
        exists EmptyString, (EmptyString :: t), t'. cbn [split]. rewrite Ha, Hr.
        split; [rewrite Ht; reflexivity|]. split; [exact Hc|].
        rewrite filter_cons_False by (cbn; congruence). exact Hf.
      * exists EmptyString, (h :: t), (h :: t'). cbn [split]. rewrite Ha, Hs, Hc.
        split; [reflexivity|]. split; [reflexivity|].
        rewrite !filter_cons, Hf. reflexivity.
    + cbn [andb]. exists (String a h), t, t'. cbn [split]. rewrite Ha, Hs, Hc.
      repeat split. exact Hf.
Qed.

Lemma nonempty_parts_collapse_slashes s :
  nonempty_parts (collapse_slashes s) = nonempty_parts s.
Proof.
  unfold nonempty_parts.
  destruct (split_collapse_slashes s) as (h & t & t' & -> & -> & Hf).
  rewrite !filter_cons, Hf. reflexivity.
Qed.

Lemma upload_loop_sent rejects normalized files :
  forall i request,
    request ∈ (upload_loop defaultObjectAcl rejects normalized i files).1 ->
    exists file, file ∈ files
      /\ put_Key request = collapse_slashes (normalized +:+ upath file)
      /\ put_Body request = udata file.
Proof.
  induction files as [|file rest IH]; intros i request; cbn [upload_loop].
  - intros H. inversion H.
  - destruct (rejects i).
    + cbn [fst]. intros H. apply list_elem_of_singleton in H. subst request.
      exists file. split; [left|split; reflexivity].
    + destruct (upload_loop defaultObjectAcl rejects normalized (S i) rest) as [sent result] eqn:E.
      cbn [fst]. intros H. apply elem_of_cons in H as [->|H].
      * exists file. split; [left|split; reflexivity].
      * destruct (IH (S i) request) as (f & Hf & Hk); [rewrite E; exact H|].
        exists f. split; [right; exact Hf|exact Hk].
Qed.

Lemma upload_loop_run rejects normalized files :
  forall i,
    let run := upload_loop defaultObjectAcl rejects normalized i files in
    let request_of := fun file =>
      {| put_Key := collapse_slashes (normalized +:+ upath file);
         put_Body := udata file;
         put_ContentType :=
           Some (default "application/octet-stream"%string (opt_or_null (utype file)));
         put_ACL := defaultObjectAcl |} in
    ((forall j, (j < length files)%nat -> rejects (i + j)%nat = None) ->
     run = (map request_of files, None))
    /\ (forall k err,
          (k < length files)%nat -> rejects (i + k)%nat = Some err ->
          (forall j, (j < k)%nat -> rejects (i + j)%nat = None) ->
          run = (take (S k) (map request_of files), Some err)).
Proof.
  induction files as [|file rest IH]; intros i run request_of; unfold run; cbn [upload_loop].
  - split; [reflexivity|]. intros k err Hk. cbn in Hk. lia.
  - specialize (IH (S i)). cbn zeta in IH. destruct IH as [IHall IHfirst]. split.
    + intros Hnone. pose proof (Hnone 0%nat ltac:(cbn; lia)) as H0.
      rewrite Nat.add_0_r in H0. rewrite H0, IHall; [reflexivity|].
      intros j Hj. replace (S i + j)%nat with (i + S j)%nat by lia. apply Hnone. cbn. lia.
    + intros k err Hk Herr Hbefore. destruct k as [|k].
      * rewrite Nat.add_0_r in Herr. rewrite Herr. reflexivity.
      * pose proof (Hbefore 0%nat ltac:(lia)) as H0. rewrite Nat.add_0_r in H0. rewrite H0.
        rewrite (IHfirst k err).
        -- reflexivity.
        -- cbn in Hk. lia.
        -- replace (S i + k)%nat with (i + S k)%nat by lia. exact Herr.
        -- intros j Hj. replace (S i + j)%nat with (i + S j)%nat by lia. apply Hbefore. lia.
Qed.

Lemma upload_loop_prefix rejects normalized files :
  forall i,
    let run := upload_loop defaultObjectAcl rejects normalized i files in
    let request_of := fun file =>
      {| put_Key := collapse_slashes (normalized +:+ upath file);
         put_Body := udata file;
         put_ContentType :=
           Some (default "application/octet-stream"%string (opt_or_null (utype file)));
         put_ACL := defaultObjectAcl |} in
    run.1 = take (length run.1) (map request_of files)
    /\ (run.2 = None -> length run.1 = length files)
    /\ (files <> [] -> run.1 <> []).
Proof.
  induction files as [|file rest IH]; intros i; cbn [upload_loop].
  - repeat split. congruence.
  - destruct (rejects i); [repeat split; [discriminate|intros _; discriminate]|].
    specialize (IH (S i)). cbn zeta in IH.
    destruct (upload_loop defaultObjectAcl rejects normalized (S i) rest) as [sent result].
    cbn [fst snd] in *. destruct IH as (IH1 & IH2 & _). split; [|split].
    + cbn [map length take]. rewrite <- IH1. reflexivity.
    + intros H. cbn [length]. rewrite (IH2 H). reflexivity.
    + intros _. discriminate.
Qed.

(** X16. [uploadToPrefix] writes the files in their order, one request
    each, and stops at the first request that the store rejects: when none
    is rejected every file is written and the function returns; when the
    request of the file numbered [k] is the first rejected, the files up to
    that one have been sent and the function fails with its error; a
    request is always sent when there is a file.  The key of a request is
    the normalized prefix joined to the path of the file with each run of
    separators made one: it holds no two separators side by side, and when
    it does not begin with a separator it has no empty segment, so that its
    synthesized folders are its ancestor prefixes. *)
Theorem uploadToPrefix_keys (rejects : nat -> option string) (prefix : string)
    (files : list Uploadable) :
  let run := uploadToPrefix defaultObjectAcl rejects prefix files in
  let request_of := fun file =>
    {| put_Key := collapse_slashes (normalizePrefix prefix +:+ upath file);
       put_Body := udata file;
       put_ContentType :=
         Some (default "application/octet-stream"%string (opt_or_null (utype file)));
       put_ACL := defaultObjectAcl |} in
  ((forall j, (j < length files)%nat -> rejects j = None) ->
   run = (map request_of files, None))
  /\ (forall k err,
        (k < length files)%nat -> rejects k = Some err ->
        (forall j, (j < k)%nat -> rejects j = None) ->
        run = (take (S k) (map request_of files), Some err))
  /\ run.1 = take (length run.1) (map request_of files)
  /\ (run.2 = None -> length run.1 = length files)
  /\ (files <> [] -> run.1 <> [])
  /\ Forall (fun request =>
               single_slashes (put_Key request) = true
               /\ collapse_slashes (put_Key request) = put_Key request
               /\ (starts_with "/" (put_Key request) = false ->
                   clean (put_Key request) = true
                   /\ map fkey (folderPrefixesForKey (put_Key request))
                      = ancestor_prefixes (put_Key request)))
       run.1.
Proof.
  intros run request_of. unfold run, uploadToPrefix.
  destruct (upload_loop_run rejects (normalizePrefix prefix) files 0) as [Hall Hfirst].
  destruct (upload_loop_prefix rejects (normalizePrefix prefix) files 0) as (Hpre & Hlen & Hne).
  cbn zeta in *. fold request_of in Hall, Hfirst, Hpre.
  split; [exact Hall|]. split; [exact Hfirst|]. split; [exact Hpre|].
  split; [exact Hlen|]. split; [exact Hne|].
  rewrite Hpre. apply Forall_take, Forall_forall. intros request Hin.
  apply list_elem_of_fmap in Hin as (file & -> & _). cbn [request_of put_Key].
  pose proof (collapse_slashes_clean (normalizePrefix prefix +:+ upath file)) as [Hc1 Hc2].
  split; [exact Hc1|]. split; [apply collapse_slashes_fixed, Hc1|].
  set (key := collapse_slashes (normalizePrefix prefix +:+ upath file)) in *.
  intros Hs.
  assert (Hclean : clean key = true).
  { unfold clean. clearbody key. destruct key as [|a r]; [reflexivity|].
    rewrite starts_with_slash in Hs. cbn [clean_from] in *. rewrite Hs in *. exact Hc1. }
  split; [exact Hclean|apply folderPrefixes_clean, Hclean].
Qed.
End WrittenKeys.

Section FoldersOfUploads.
Variable defaultObjectAcl : string.

Lemma has_char_app c a b : has_char c (a +:+ b) = has_char c a || has_char c b.
Proof.
  induction a as [|x r IH]; [reflexivity|].
  rewrite string_app_cons. cbn [has_char]. rewrite IH, orb_assoc. reflexivity.
Qed.

Lemma endsWith_has_char c s : endsWith c s = true -> has_char c s = true.
Proof.
  intros H. destruct (endsWith_inv c s H) as [d ->].
  rewrite has_char_app. cbn [has_char]. rewrite Ascii.eqb_refl, orb_true_r. reflexivity.
Qed.

Lemma endsWith_app c x r : truthy r = true -> endsWith c (x +:+ r) = endsWith c r.
Proof.
  intros Hr. induction x as [|a x IH]; [reflexivity|].
  rewrite string_app_cons. destruct (x +:+ r)%string as [|b t] eqn:E.
  - destruct x; [|discriminate]. change r with (EmptyString +:+ r)%string in Hr.
    rewrite E in Hr. discriminate.
  - exact IH.
Qed.

(** A key without empty segment that ends with a separator is the chain
    of its segments. *)
Lemma chain_key_grow s :
  forall cur,
    has_char slash cur = false ->
    clean_from (negb (truthy cur)) s = true ->
    (cur +:+ s)%string = EmptyString \/ endsWith slash (cur +:+ s) = true ->
    chain_key (filter (fun p => truthy p = true) (grow cur (split slash s)))
    = (cur +:+ s)%string.
Proof.
  induction s as [|a r IH]; intros cur Hcur Hclean Hend.
  - cbn [split grow]. rewrite !string_app_nil_r in *. destruct Hend as [->|Hend]; [reflexivity|].
    rewrite (endsWith_has_char _ _ Hend) in Hcur. discriminate.
  - cbn [clean_from] in Hclean. destruct (Ascii.eqb a slash) eqn:Ha.
    + apply andb_true_iff in Hclean as [Ht Hclean]. rewrite negb_involutive in Ht.
      apply Ascii.eqb_eq in Ha. subst a.
      cbn [split]. rewrite Ascii.eqb_refl. cbn [grow]. rewrite string_app_nil_r.
      rewrite filter_cons_True by exact Ht.
      specialize (IH EmptyString eq_refl Hclean).
      assert (Hg : grow EmptyString (split slash r) = split slash r).
      { destruct (split slash r) eqn:E; [exfalso; exact (split_not_nil _ _ E)|reflexivity]. }
      rewrite Hg in IH. change (EmptyString +:+ r)%string with r in IH.
      change (chain_key (cur :: ?l)) with (cur +:+ String slash (chain_key l))%string.
      rewrite IH; [reflexivity|].
      destruct r as [|b r']; [left; reflexivity|right].
      destruct Hend as [Hend|Hend]; [destruct cur; discriminate|].
      rewrite <- Hend. symmetry.
      change (cur +:+ String slash (String b r'))%string
        with (cur +:+ (String slash EmptyString +:+ String b r'))%string.
      rewrite <- string_app_assoc. apply endsWith_app. reflexivity.
    + rewrite split_cons_other by exact Ha.
      rewrite grow_grow by apply split_not_nil.
      rewrite (IH (cur +:+ String a EmptyString)%string).
      * rewrite string_app_assoc. reflexivity.
      * rewrite has_char_app, Hcur. cbn [has_char]. rewrite Ha. reflexivity.
      * rewrite truthy_app_r by reflexivity. exact Hclean.
      * rewrite string_app_assoc. exact Hend.
Qed.

Lemma chain_key_clean key :
  clean key = true -> endsWith slash key = true -> chain_key (nonempty_parts key) = key.
Proof.
  intros Hc He. pose proof (chain_key_grow key EmptyString eq_refl Hc (or_intror He)) as H.
  assert (Hg : grow EmptyString (split slash key) = split slash key).
  { destruct (split slash key) eqn:E; [exfalso; exact (split_not_nil _ _ E)|reflexivity]. }
  rewrite Hg in H. exact H.
Qed.

Lemma nonempty_parts_not_slashes path : slashes path = false -> nonempty_parts path <> [].
Proof.
  intros Hp Hnil. revert Hp. unfold slashes.
  induction path as [|a r IH]; [discriminate|]. cbn [all_chars].
  unfold nonempty_parts in *. cbn [split] in Hnil.
  destruct (Ascii.eqb a slash) eqn:Ha.
  - rewrite filter_cons_False in Hnil by (cbn; congruence). cbn [andb]. exact (IH Hnil).
  - destruct (split slash r) as [|h t]; rewrite filter_cons_True in Hnil by reflexivity;
      discriminate.
Qed.

Lemma normalizePrefix_folder_key key : endsWith slash key = true -> normalizePrefix key = key.
Proof.
  intros H. unfold normalizePrefix. rewrite H. destruct key; [discriminate|reflexivity].
Qed.

Lemma folder_of_longer_key folder path :
  clean folder = true -> endsWith slash folder = true -> slashes path = false ->
  folder ∈ map fkey (folderPrefixesForKey (collapse_slashes (folder +:+ path))).
Proof.
  intros Hc He Hp.
  pose proof (chain_key_clean folder Hc He) as Hchain.
  destruct (endsWith_inv _ _ He) as [d Hd].
  assert (Hparts : nonempty_parts (collapse_slashes (folder +:+ path))
                   = nonempty_parts folder ++ nonempty_parts path).
  { rewrite nonempty_parts_collapse_slashes. rewrite Hd at 1 2.
    rewrite string_app_assoc.
    change (String slash EmptyString +:+ path)%string with (String slash path).
    rewrite nonempty_parts_app_sep.
    change (d +:+ String slash EmptyString)%string
      with (d +:+ String slash EmptyString)%string.
    rewrite (nonempty_parts_app_sep d EmptyString). rewrite app_nil_r. reflexivity. }
  pose proof (nonempty_parts_not_slashes path Hp) as Hne.
  assert (Hlen : (1 <= length (nonempty_parts folder))%nat).
  { destruct (nonempty_parts folder); [|cbn; lia].
    cbn in Hchain. rewrite <- Hchain in He. discriminate. }
  assert (Hplen : (1 <= length (nonempty_parts path))%nat).
  { destruct (nonempty_parts path); [congruence|cbn; lia]. }
  pose proof (nonempty_parts_truthy (collapse_slashes (folder +:+ path))) as Ht.
  pose proof (prefixes_loop_count _ Ht EmptyString) as Hcount.
  destruct (lookup_lt_is_Some_2 (folderPrefixesForKey (collapse_slashes (folder +:+ path)))
              (pred (length (nonempty_parts folder)))) as [f Hf].
  { unfold folderPrefixesForKey. rewrite Hcount, Hparts, length_app. lia. }
  destruct (prefixes_loop_lookup _ Ht _ _ _ Hf) as [Hk _].
  apply list_elem_of_fmap. exists f. split; [|exact (list_elem_of_lookup_2 _ _ _ Hf)].
  rewrite Hk. change (EmptyString +:+ ?x)%string with x.
  replace (S (pred (length (nonempty_parts folder)))) with (length (nonempty_parts folder))
    by lia.
  rewrite Hparts, take_app_length. symmetry. exact Hchain.
Qed.

(** X17. The key of a created folder is a folder key of everything uploaded
    into it.  When the key that [createFolder] wrote has no empty segment,
    every object that [uploadToPrefix] writes under that key, from a path
    that is not made of separators only, has the folder's key among its
    synthesized folder keys: the listing then holds an object whose key the
    indexer also gives to a folder row. *)
Theorem created_folder_is_folder_of_its_uploads (rejects : nat -> option string)
    (prefix name : string) (files : list Uploadable) (request : PutObject) :
  let folder := put_Key (createFolder defaultObjectAcl prefix name) in
  clean folder = true ->
  Forall (fun file => slashes (upath file) = false) files ->
  request ∈ (uploadToPrefix defaultObjectAcl rejects folder files).1 ->
  folder ∈ map fkey (folderPrefixesForKey (put_Key request))
  /\ put_Key request <> folder.
Proof.
  intros folder Hclean Hfiles Hin.
  assert (He : endsWith slash folder = true).
  { unfold folder, createFolder. cbn [put_Key].
    rewrite <- string_app_assoc. apply endsWith_app_slash. }
  unfold uploadToPrefix in Hin. rewrite (normalizePrefix_folder_key folder He) in Hin.
  destruct (upload_loop_sent defaultObjectAcl rejects folder files 0 request Hin)
    as (file & Hf & Hk & _).
  assert (Hfolder : folder ∈ map fkey (folderPrefixesForKey (put_Key request))).
  { rewrite Hk. apply folder_of_longer_key; [exact Hclean|exact He|].
    exact (proj1 (Forall_forall _ _) Hfiles file Hf). }
  split; [exact Hfolder|].
  intros Heq. rewrite <- Heq in Hfolder. exact (key_not_own_folder _ Hfolder).
Qed.
End FoldersOfUploads.

Lemma createFolder_key_witness :
  basename (put_Key (createFolder "private" "docs" "img//")) = "img"%string.
Proof.
  exact (proj2 (proj2 (proj2 (createFolder_key "private" "docs" "img//"))) eq_refl eq_refl).
Defined.

Lemma uploadToPrefix_keys_witness :
  uploadToPrefix "private" (fun i => if (i =? 1)%nat then Some "SlowDown"%string else None)
    "docs"
    [{| udata := "a"; upath := "/img//logo.png"; utype := Some EmptyString |};
     {| udata := "b"; upath := "b.txt"; utype := Some "text/plain"%string |};
     {| udata := "c"; upath := "c.txt"; utype := None |}]
  = ([{| put_Key := "docs/img/logo.png"; put_Body := "a";
         put_ContentType := Some "application/octet-stream"%string; put_ACL := "private" |};
      {| put_Key := "docs/b.txt"; put_Body := "b";
         put_ContentType := Some "text/plain"%string; put_ACL := "private" |}],
     Some "SlowDown"%string).
Proof.
  refine (proj1 (proj2 (uploadToPrefix_keys "private" _ "docs" _)) 1%nat "SlowDown"%string _ _ _).
  - cbn. lia.
  - reflexivity.
  - intros j Hj. assert (j = 0%nat) as -> by lia. reflexivity.
Defined.

Lemma created_folder_is_folder_of_its_uploads_witness :
  "docs/img/"%string ∈ map fkey (folderPrefixesForKey "docs/img/logo.png")
  /\ "docs/img/logo.png"%string <> "docs/img/"%string.
Proof.
  apply (created_folder_is_folder_of_its_uploads "private" (fun _ => None) "docs" "img"
           [{| udata := "data"; upath := "logo.png"; utype := None |}]
           {| put_Key := "docs/img/logo.png"; put_Body := "data";
              put_ContentType := Some "application/octet-stream"%string;
              put_ACL := "private" |}).
  - reflexivity.
  - repeat constructor.
  - left.
Defined.


(** ** Deleting a folder *)

Section DeleteFolder.
Variable remote : string -> listing.
Variable rejects : nat -> option string.

Lemma list_all_keys_fold l :
  forall allKeys, list_all_keys l allKeys = (allKeys ++ listing_keys l, listing_error l).
Proof.
  induction l as [err|contents|contents rest IH]; intros allKeys; cbn.
  - rewrite app_nil_r. reflexivity.
  - reflexivity.
  - rewrite IH, app_assoc. reflexivity.
Qed.

Lemma slice_keys_batch i n keys : slice_keys i (i + n) keys = take n (drop i keys).
Proof. unfold slice_keys. replace (i + n - i)%nat with n by lia. reflexivity. Qed.

Lemma delete_loop_batches fuel :
  forall i allKeys,
    let run := delete_loop rejects fuel i allKeys in
    (exists n, concat run.1 = take n (drop i allKeys))
    /\ Forall (fun batch => (1 <= length batch <= batch_limit)%nat) run.1
    /\ (run.2 = None -> (length allKeys - i <= fuel)%nat -> concat run.1 = drop i allKeys)
    /\ ((forall j, rejects j = None) -> run.2 = None).
Proof.
  assert (Hlimit : (1 <= batch_limit)%nat) by (unfold batch_limit; lia).
  induction fuel as [|fuel IH]; intros i allKeys; cbn [delete_loop].
  - cbn [fst snd concat]. split; [exists 0%nat; reflexivity|]. split; [constructor|].
    split; [|reflexivity]. intros _ Hlen. rewrite drop_ge by lia. reflexivity.
  - destruct (Nat.ltb_spec i (length allKeys)) as [Hi|Hi].
    + rewrite slice_keys_batch.
      assert (Hbatch : (1 <= length (take batch_limit (drop i allKeys)) <= batch_limit)%nat).
      { rewrite length_take, length_drop. lia. }
      destruct (rejects i) as [err|] eqn:Hr.
      * cbn [fst snd concat]. rewrite app_nil_r.
        split; [exists batch_limit; reflexivity|]. split; [constructor; [exact Hbatch|constructor]|].
        split; [discriminate|]. intros Hall. rewrite Hall in Hr. discriminate.
      * specialize (IH (i + batch_limit)%nat allKeys). cbn zeta in IH.
        destruct (delete_loop rejects fuel (i + batch_limit) allKeys) as [sent result].
        cbn [fst snd concat] in *. destruct IH as ((n & Hn) & Hall & Hdone & Hok).
        split; [|split; [|split]].
        -- exists (batch_limit + n)%nat. rewrite Hn, <- drop_drop. apply take_next_page.
        -- constructor; assumption.
        -- intros Hres Hlen. rewrite Hdone by (assumption || lia).
           rewrite <- drop_drop. apply take_drop.
        -- exact Hok.
    + cbn [fst snd concat]. split; [exists 0%nat; reflexivity|]. split; [constructor|].
      split; [|reflexivity]. intros _ _. rewrite drop_ge by lia. reflexivity.
Qed.

(** X18. When the listing under the folder fails, on whatever page,
    [deleteFolder] rejects with that error and requests no deletion. *)
Theorem deleteFolder_listing_failure_deletes_nothing (prefix err : string) :
  listing_error (remote (normalizePrefix prefix)) = Some err ->
  deleteFolder remote rejects prefix = ([], Some err).
Proof.
  intros He. unfold deleteFolder. rewrite list_all_keys_fold, He. reflexivity.
Qed.

Lemma deleteFolder_run (prefix : string) :
  listing_error (remote (normalizePrefix prefix)) = None ->
  let keys := listing_keys (remote (normalizePrefix prefix)) in
  let run := deleteFolder remote rejects prefix in
  (exists n, concat run.1 = take n keys)
  /\ Forall (fun batch => (1 <= length batch <= 1000)%nat) run.1
  /\ (run.2 = None -> concat run.1 = keys)
  /\ ((forall j, rejects j = None) -> run.2 = None /\ concat run.1 = keys).
Proof.
  intros He keys run. unfold run, deleteFolder.
  rewrite list_all_keys_fold, He. cbn [app]. fold keys.
  destruct (Nat.ltb_spec 0 (length keys)) as [Hlen|Hlen].
  - destruct (delete_loop_batches (length keys) 0 keys) as (Hn & Hall & Hdone & Hok).
    cbn zeta in *. rewrite drop_0 in *. split; [exact Hn|]. split; [exact Hall|].
    split; [intros Hres; apply Hdone; [exact Hres|lia]|].
    intros Hnone. split; [exact (Hok Hnone)|]. apply Hdone; [exact (Hok Hnone)|lia].
  - assert (keys = []) as -> by (destruct keys; [reflexivity|cbn in Hlen; lia]).
    cbn [fst snd concat]. split; [exists 0%nat; reflexivity|]. split; [constructor|].
    split; [reflexivity|]. intros _. split; reflexivity.
Qed.


Lemma page_keys_except normalized contents :
  map okey (page_objects normalized contents) = except normalized (page_keys contents).
Proof.
  unfold except, page_keys.
  induction contents as [|item rest IH]; [reflexivity|]. cbn [page_objects omap list_omap].
  destruct (item_Key item) as [k|]; cbn [opt_or_null]; [|exact IH].
  unfold or_null. destruct (truthy k); cbn [negb orb]; [|exact IH].
  destruct (String.eqb_spec k normalized) as [->|Hne].
  - rewrite filter_cons_False by (intros H; apply H; reflexivity). exact IH.
  - rewrite filter_cons_True by exact Hne. cbn [map]. rewrite IH. reflexivity.
Qed.

Lemma listing_keys_except normalized l :
  map okey (listing_objects normalized l) = except normalized (listing_keys l).
Proof.
  induction l as [err|contents|contents rest IH]; cbn [listing_objects listing_keys].
  - reflexivity.
  - apply page_keys_except.
  - rewrite map_app, page_keys_except, IH. unfold except. rewrite filter_app. reflexivity.
Qed.

(** X20. [deleteFolder] and [walkAllObjects] read the same listing differently:
    the walk under a prefix delivers the keys whose deletion [deleteFolder]
    requests, but for the key that is the prefix itself, which only the
    deletion takes. *)
Theorem deleteFolder_deletes_what_the_walk_delivers (prefix : string) :
  listing_error (remote (normalizePrefix prefix)) = None ->
  (forall j, rejects j = None) ->
  map okey (walkAllObjects (fun o seen => seen ++ [o]) prefix
              (remote (normalizePrefix prefix)) []).1
  = except (normalizePrefix prefix) (concat (deleteFolder remote rejects prefix).1).
Proof.
  intros He Hok.
  destruct (deleteFolder_run prefix He) as (_ & _ & _ & Hall).
  destruct (Hall Hok) as [_ ->].
  unfold walkAllObjects. rewrite walk_pages_fold. cbn [fst].
  rewrite <- listing_keys_except. f_equal.
  induction (listing_objects (normalizePrefix prefix) (remote (normalizePrefix prefix)))
    as [|o objs IH] using rev_ind; [reflexivity|].
  rewrite foldl_app. cbn [foldl]. rewrite IH. reflexivity.
Qed.
End DeleteFolder.

Lemma deleteFolder_listing_failure_deletes_nothing_witness :
  deleteFolder (fun _ => Sample.second_page_fails) (fun _ => None) "docs"
  = ([], Some "NetworkingError"%string).
Proof.
  apply (deleteFolder_listing_failure_deletes_nothing (fun _ => Sample.second_page_fails)
           (fun _ => None) "docs" "NetworkingError").
  reflexivity.
Defined.


Lemma deleteFolder_deletes_what_the_walk_delivers_witness :
  map okey (walkAllObjects (fun o seen => seen ++ [o]) "docs" Sample.folder_with_file []).1
  = except "docs/" (concat (deleteFolder (fun _ => Sample.folder_with_file)
                              (fun _ => None) "docs").1).
Proof.
  apply (deleteFolder_deletes_what_the_walk_delivers (fun _ => Sample.folder_with_file)
           (fun _ => None) "docs"); [reflexivity|intros j; reflexivity].
Defined.


(** ** Links *)

Section Links.

Lemma join_grow sep x h t : join sep ((x +:+ h)%string :: t) = (x +:+ join sep (h :: t))%string.
Proof.
  destruct t as [|q t]; [reflexivity|].
  change (join sep ((x +:+ h)%string :: q :: t))
    with ((x +:+ h) +:+ sep +:+ join sep (q :: t))%string.
  change (join sep (h :: q :: t)) with (h +:+ sep +:+ join sep (q :: t))%string.
  apply string_app_assoc.
Qed.

Lemma encode_char_other a :
  Ascii.eqb a slash = false ->
  encode_char a = if unreserved a then String a EmptyString else percent_encode a.
Proof. intros H. unfold encode_char. rewrite H. reflexivity. Qed.

Lemma encodeKey_cons a r : encodeKey (String a r) = (encode_char a +:+ encodeKey r)%string.
Proof.
  unfold encodeKey. cbn [split].
  destruct (split slash r) as [|h t] eqn:Hs; [destruct (split_not_nil _ _ Hs)|].
  destruct (Ascii.eqb a slash) eqn:Ha.
  - unfold encode_char. rewrite Ha. reflexivity.
  - rewrite (encode_char_other a Ha). cbn [map].
    change (encodeURIComponent (String a h))
      with ((if unreserved a then String a EmptyString else percent_encode a)
            +:+ encodeURIComponent h)%string.
    apply join_grow.
Qed.

Lemma unescape_encode_char a s : unescape (encode_char a +:+ s) = String a (unescape s).
Proof.
  destruct a as [[] [] [] [] [] [] [] []]; try reflexivity;
    destruct s as [|h [|l r']]; reflexivity.
Qed.

Lemma unescape_encodeKey key : unescape (encodeKey key) = key.
Proof.
  induction key as [|a r IH]; [reflexivity|].
  rewrite encodeKey_cons, unescape_encode_char, IH. reflexivity.
Qed.

Lemma all_chars_app P a b : all_chars P (a +:+ b) = all_chars P a && all_chars P b.
Proof.
  induction a as [|x r IH]; [reflexivity|].
  rewrite string_app_cons. cbn [all_chars]. rewrite IH, andb_assoc. reflexivity.
Qed.

Lemma encode_char_link a : all_chars link_char (encode_char a) = true.
Proof. destruct a as [[] [] [] [] [] [] [] []]; reflexivity. Qed.

Lemma encodeURIComponent_no_slash s : has_char slash (encodeURIComponent s) = false.
Proof.
  induction s as [|a r IH]; [reflexivity|]. cbn [encodeURIComponent].
  rewrite has_char_app, IH, orb_false_r.
  destruct a as [[] [] [] [] [] [] [] []]; reflexivity.
Qed.

Lemma split_join parts :
  parts <> [] -> Forall (fun p => has_char slash p = false) parts ->
  split slash (join "/" parts) = parts.
Proof.
  induction parts as [|p rest IH]; [congruence|]. intros _ Hall.
  inversion Hall as [|? ? Hp Hrest]; subst.
  destruct rest as [|q rest]; [apply split_no_sep, Hp|].
  change (join "/" (p :: q :: rest)) with (p +:+ String slash (join "/" (q :: rest)))%string.
  rewrite split_app_sep, split_no_sep by exact Hp.
  rewrite IH by (congruence || assumption). reflexivity.
Qed.

Lemma string_app_inv_head a b c : (a +:+ b)%string = (a +:+ c)%string -> b = c.
Proof.
  induction a as [|x r IH]; [tauto|]. rewrite !string_app_cons. intros [= H]. exact (IH H).
Qed.

(** X21. [encodeKey] writes a key as a link path: the path is made of kept
    characters, separators and escapes only; it has the segments of the
    key, each encoded on its own, so that the separators of the key are
    those of the path; reading the escapes back gives the key; and a key
    of kept characters and separators is its own path. *)
Theorem encodeKey_path (key : string) :
  all_chars link_char (encodeKey key) = true
  /\ split slash (encodeKey key) = map encodeURIComponent (split slash key)
  /\ unescape (encodeKey key) = key
  /\ (all_chars (fun a => unreserved a || Ascii.eqb a slash) key = true ->
      encodeKey key = key).
Proof.
  split; [|split; [|split]].
  - induction key as [|a r IH]; [reflexivity|].
    rewrite encodeKey_cons, all_chars_app, encode_char_link, IH. reflexivity.
  - unfold encodeKey. apply split_join.
    + destruct (split slash key) eqn:E; [destruct (split_not_nil _ _ E)|discriminate].
    + apply Forall_forall. intros p Hp. apply list_elem_of_fmap in Hp as (q & -> & _).
      apply encodeURIComponent_no_slash.
  - apply unescape_encodeKey.
  - induction key as [|a r IH]; [reflexivity|]. cbn [all_chars]. intros H.
    apply andb_true_iff in H as [Ha Hr]. rewrite encodeKey_cons, (IH Hr).
    unfold encode_char. destruct (Ascii.eqb a slash) eqn:Hs.
    + apply Ascii.eqb_eq in Hs. subst a. reflexivity.
    + rewrite orb_false_r in Ha. rewrite Ha. reflexivity.
Qed.

(** X22. Two keys never share a public link: under one configuration
    [objectPublicUrl] gives different keys different links. *)
Theorem objectPublicUrl_tells_keys_apart (config : LinkConfig) (key key' : string) :
  objectPublicUrl config key = objectPublicUrl config key' -> key = key'.
Proof.
  unfold objectPublicUrl. intros H.
  apply string_app_inv_head in H. apply (string_app_inv_head "/") in H.
  rewrite <- (unescape_encodeKey key), <- (unescape_encodeKey key'), H. reflexivity.
Qed.
End Links.

Lemma encodeKey_path_witness : encodeKey "docs/img/logo-1.png" = "docs/img/logo-1.png"%string.
Proof.
  exact (proj2 (proj2 (proj2 (encodeKey_path "docs/img/logo-1.png"))) eq_refl).
Defined.

Lemma objectPublicUrl_tells_keys_apart_witness : "a b/c"%string = "a b/c"%string.
Proof.
  apply (objectPublicUrl_tells_keys_apart
           {| bucket := "media"; region := "eu-west-1"; publicBaseUrl := None |}).
  reflexivity.
Defined.


(** ** What the walk hands to its callback *)

Section Delivered.

Lemma strip_quotes_no_quote s : has_char dquote (strip_quotes s) = false.
Proof.
  induction s as [|a r IH]; [reflexivity|]. cbn [strip_quotes].
  destruct (Ascii.eqb a dquote) eqn:Ha; [exact IH|]. cbn [has_char]. rewrite Ha, IH. reflexivity.
Qed.

Lemma or_null_truthy s e : or_null s = Some e -> e = s /\ truthy s = true.
Proof. unfold or_null. destruct (truthy s); [intros [= <-]; split; reflexivity|discriminate]. Qed.

Lemma page_objects_elem normalized contents o :
  o ∈ page_objects normalized contents ->
  exists item, item ∈ contents /\ item_Key item = Some (okey o)
    /\ o = detail_of (okey o) item
    /\ truthy (okey o) = true /\ okey o <> normalized.
Proof.
  induction contents as [|item rest IH]; cbn [page_objects]; [intros H; inversion H|].
  intros H.
  assert (Hrest : o ∈ page_objects normalized rest ->
                  exists item0, item0 ∈ item :: rest /\ item_Key item0 = Some (okey o)
                    /\ o = detail_of (okey o) item0
                    /\ truthy (okey o) = true /\ okey o <> normalized).
  { intros Ho. destruct (IH Ho) as (it & Hit & Hrem). exists it. split; [right; exact Hit|exact Hrem]. }
  destruct (item_Key item) as [k|] eqn:Hk; [|exact (Hrest H)].
  destruct (truthy k) eqn:Ht; cbn [negb orb] in H; [|exact (Hrest H)].
  destruct (String.eqb_spec k normalized) as [->|Hne]; [exact (Hrest H)|].
  apply elem_of_cons in H as [->|H]; [|exact (Hrest H)].
  exists item. cbn [detail_of okey]. repeat split; try assumption. left.
Qed.

Lemma listing_objects_elem normalized l o :
  o ∈ listing_objects normalized l ->
  exists item, item ∈ listing_items l /\ item_Key item = Some (okey o)
    /\ o = detail_of (okey o) item
    /\ truthy (okey o) = true /\ okey o <> normalized.
Proof.
  induction l as [err|contents|contents rest IH]; cbn [listing_objects listing_items].
  - intros H. inversion H.
  - apply page_objects_elem.
  - intros H. apply elem_of_app in H as [H|H].
    + destruct (page_objects_elem _ _ _ H) as (it & Hit & Hrem).
      exists it. split; [apply elem_of_app; left; exact Hit|exact Hrem].
    + destruct (IH H) as (it & Hit & Hrem).
      exists it. split; [apply elem_of_app; right; exact Hit|exact Hrem].
Qed.

Lemma walk_recorded prefix l :
  (walkAllObjects (fun o seen => seen ++ [o]) prefix l []).1
  = listing_objects (normalizePrefix prefix) l.
Proof.
  unfold walkAllObjects. rewrite walk_pages_fold. cbn [fst].
  induction (listing_objects (normalizePrefix prefix) l) as [|o objs IH] using rev_ind;
    [reflexivity|].
  rewrite foldl_app. cbn [foldl]. rewrite IH. reflexivity.
Qed.

(** X23. Every object that [walkAllObjects] hands to its callback comes from a
    listed item with that key; its key is not empty and is not the prefix
    of the walk; its size is the listed one, or 0 when none is listed; and
    its entity tag, when it has one, is not empty and holds no
    double-quote character. *)
Theorem walkAllObjects_delivers (prefix : string) (l : listing) (o : S3ObjectDetail) :
  o ∈ (walkAllObjects (fun o seen => seen ++ [o]) prefix l []).1 ->
  truthy (okey o) = true
  /\ okey o <> normalizePrefix prefix
  /\ (forall tag, oetag o = Some tag -> truthy tag = true /\ has_char dquote tag = false)
  /\ exists item, item ∈ listing_items l /\ item_Key item = Some (okey o)
       /\ osize o = default 0 (item_Size item)
       /\ olastModified o = item_LastModified item.
Proof.
  rewrite walk_recorded. intros H.
  destruct (listing_objects_elem _ _ _ H) as (item & Hit & Hk & Ho & Ht & Hne).
  split; [exact Ht|]. split; [exact Hne|]. split.
  - intros tag Htag. rewrite Ho in Htag. cbn [detail_of oetag] in Htag.
    destruct (item_ETag item) as [e|]; [|discriminate].
    apply or_null_truthy in Htag as [-> Htr]. split; [exact Htr|apply strip_quotes_no_quote].
  - exists item. split; [exact Hit|]. split; [exact Hk|].
    split; rewrite Ho; reflexivity.
Qed.
End Delivered.

Lemma walkAllObjects_delivers_witness :
  truthy "docs/a.txt" = true /\ "docs/a.txt"%string <> "docs/"%string.
Proof.
  refine ((fun H => conj (proj1 H) (proj1 (proj2 H)))
            (walkAllObjects_delivers "docs" Sample.folder_with_file
               (detail_of "docs/a.txt" (Sample.item "docs/a.txt" 5)) _)).
  left.
Defined.

(** ** The shape of an extension *)

Section ExtensionShape.

Lemma last_occurrence c s :
  has_char c s = true ->
  exists pre suf, s = (pre +:+ String c suf)%string /\ has_char c suf = false.
Proof.
  induction s as [|a r IH]; [discriminate|]. cbn [has_char].
  destruct (has_char c r) eqn:Hr.
  - intros _. destruct (IH eq_refl) as (pre & suf & -> & Hs).
    exists (String a pre), suf. split; [reflexivity|exact Hs].
  - rewrite orb_false_r. intros Ha. apply Ascii.eqb_eq in Ha. subst a.
    exists EmptyString, r. split; [reflexivity|exact Hr].
Qed.

Lemma extractExtension_after_last_dot pre suf :
  has_char dot suf = false ->
  extractExtension (pre +:+ String dot suf)
  = if has_char slash suf then EmptyString else toLowerCase suf.
Proof.
  intros Hdot. unfold extractExtension.
  rewrite (lastIndexOf_app_last dot pre suf Hdot).
  destruct (has_char slash suf) eqn:Hs.
  - pose proof (lastIndexOf_after_head slash pre dot suf Hs) as Hin.
    destruct (Z.of_nat (String.length pre) =? -1); [reflexivity|].
    rewrite (proj2 (Z.ltb_lt _ _) Hin). reflexivity.
  - assert (Hs' : has_char slash (String dot suf) = false) by (cbn [has_char]; rewrite Hs; reflexivity).
    rewrite (lastIndexOf_app_not_in_tail slash pre _ Hs').
    pose proof (lastIndexOf_upper_bound slash pre) as Hub.
    destruct (Z.of_nat (String.length pre) =? -1) eqn:E1; [apply Z.eqb_eq in E1; lia|].
    destruct (Z.of_nat (String.length pre) <? lastIndexOf slash pre) eqn:E2;
      [apply Z.ltb_lt in E2; lia|].
    replace (Z.to_nat (Z.of_nat (String.length pre) + 1)) with (S (String.length pre)) by lia.
    rewrite slice_after. reflexivity.
Qed.

Lemma lower_char_dot a : Ascii.eqb (lower_char a) dot = Ascii.eqb a dot.
Proof. destruct a as [[] [] [] [] [] [] [] []]; reflexivity. Qed.

Lemma lower_char_slash a : Ascii.eqb (lower_char a) slash = Ascii.eqb a slash.
Proof. destruct a as [[] [] [] [] [] [] [] []]; reflexivity. Qed.

Lemma lower_char_lower a : lower_char (lower_char a) = lower_char a.
Proof. destruct a as [[] [] [] [] [] [] [] []]; reflexivity. Qed.

Lemma toLowerCase_shape s :
  has_char dot (toLowerCase s) = has_char dot s
  /\ has_char slash (toLowerCase s) = has_char slash s
  /\ toLowerCase (toLowerCase s) = toLowerCase s.
Proof.
  induction s as [|a r (IH1 & IH2 & IH3)]; [repeat split|].
  cbn [toLowerCase has_char].
  rewrite lower_char_dot, lower_char_slash, lower_char_lower, IH1, IH2, IH3. repeat split.
Qed.

(** X24. The extension of a key never holds a dot or a path separator and has
    no upper-case letter; when it is not empty the key ends with a dot
    followed by the extension in some casing. *)
Theorem extractExtension_shape (key : string) :
  has_char dot (extractExtension key) = false
  /\ has_char slash (extractExtension key) = false
  /\ toLowerCase (extractExtension key) = extractExtension key
  /\ (truthy (extractExtension key) = true ->
      exists pre suf, key = (pre +:+ String dot suf)%string
                      /\ toLowerCase suf = extractExtension key).
Proof.
  destruct (has_char dot key) eqn:Hk.
  - destruct (last_occurrence dot key Hk) as (pre & suf & -> & Hdot).
    rewrite (extractExtension_after_last_dot pre suf Hdot).
    destruct (has_char slash suf) eqn:Hs.
    + repeat split. discriminate.
    + destruct (toLowerCase_shape suf) as (H1 & H2 & H3).
      rewrite H1, H2, H3. repeat split; try assumption. intros _. eauto.
  - unfold extractExtension. rewrite (lastIndexOf_absent _ _ Hk). repeat split. discriminate.
Qed.
End ExtensionShape.

Lemma extractExtension_shape_witness :
  exists pre suf, "a/b/report.v2.CSV"%string = (pre +:+ String dot suf)%string
                  /\ toLowerCase suf = extractExtension "a/b/report.v2.CSV".
Proof.
  exact (proj2 (proj2 (proj2 (extractExtension_shape "a/b/report.v2.CSV"))) eq_refl).
Defined.


(** ** The order of a search *)

Section SearchOrder.
Variable clock : nat -> string.

(** X25. Whatever the query, a search shows a window of its matches in the
    order newest first: the matches split into those skipped by the offset,
    those shown and those left, no row of a later part being newer than a
    row of an earlier one, and the rows shown are sorted the same way. *)
Theorem search_newest_first (params : SearchParams) (w : world) :
  exists skipped shown left : list (string * row),
    skipped ++ shown ++ left ≡ₚ matching_rows (search_pattern (search params)) w
    /\ StronglySorted newer_or_same (skipped ++ shown ++ left)
    /\ Forall2 presents (items (searchIndexedObjects clock params w).1) shown
    /\ length skipped
       = Nat.min (Z.to_nat (clampOffset (offset params)))
           (total (searchIndexedObjects clock params w).1)
    /\ (forall a b, a ∈ skipped -> b ∈ shown -> newer_or_same a b)
    /\ (forall a b, a ∈ shown -> b ∈ left -> newer_or_same a b).
Proof.
  set (hits := order_by_updated_desc (matching_rows (search_pattern (search params)) w)).
  set (o := Z.to_nat (clampOffset (offset params))).
  set (n := Z.to_nat (clampLimit (limit params))).
  exists (take o hits), (take n (drop o hits)), (drop n (drop o hits)).
  assert (Hall : take o hits ++ take n (drop o hits) ++ drop n (drop o hits) = hits).
  { rewrite take_drop. apply take_drop. }
  assert (Hsorted : StronglySorted newer_or_same hits) by apply order_by_updated_desc_strongly.
  split; [rewrite Hall; apply order_by_updated_desc_perm|].
  split; [rewrite Hall; exact Hsorted|].
  split; [apply searchIndexedObjects_fields|].
  split.
  { rewrite length_take, searchIndexedObjects_total. unfold hits.
    rewrite (Permutation_length (order_by_updated_desc_perm _)). reflexivity. }
  rewrite <- Hall in Hsorted. split.
  - intros a b Ha Hb. apply (StronglySorted_app_1_elem_of _ _ _ _ _ Hsorted Ha).
    apply elem_of_app. left. exact Hb.
  - intros a b. apply StronglySorted_app_1_r in Hsorted.
    apply (StronglySorted_app_1_elem_of _ _ _ _ _ Hsorted).
Qed.
End SearchOrder.


(** ** Full rebuild: the rows it writes *)

Section RebuildRows.
Variable clock : nat -> string.

Lemma folder_name_basename key f :
  f ∈ folderPrefixesForKey key -> basename (fkey f) = fname f.
Proof.
  intros Hin. apply list_elem_of_lookup_1 in Hin as [i Hf].
  unfold folderPrefixesForKey in Hf.
  pose proof (nonempty_parts_truthy key) as Ht.
  pose proof (nonempty_parts_no_slash key) as Hs.
  destruct (prefixes_loop_lookup _ Ht _ _ _ Hf) as [Hk Hn].
  change (EmptyString +:+ chain_key (take (S i) (nonempty_parts key)))%string
    with (chain_key (take (S i) (nonempty_parts key))) in Hk.
  unfold basename, pop_last.
  rewrite Hk, chain_key_parts by (apply Forall_take; assumption).
  rewrite (take_S_r _ _ _ Hn), last_snoc.
  rewrite (proj1 (Forall_forall _ _) Ht (fname f)); [reflexivity|].
  apply (list_elem_of_lookup_2 _ i), Hn.
Qed.

Lemma rebuild_folder_other s f k :
  k <> fkey f ->
  objects (sworld (rebuild_folder clock s f)) !! k = objects (sworld s) !! k.
Proof.
  intros Hne. unfold rebuild_folder. case_bool_decide; [reflexivity|].
  unfold nowIso, upsertObject. cbn [sworld objects]. apply lookup_insert_ne. congruence.
Qed.

Lemma rebuild_folders_other fs s k :
  k ∉ map fkey fs ->
  objects (sworld (foldl (rebuild_folder clock) s fs)) !! k = objects (sworld s) !! k.
Proof.
  revert s. induction fs as [|f fs IH]; intros s Hk; cbn [foldl]; [reflexivity|].
  cbn [map] in Hk. apply not_elem_of_cons in Hk as [Hne Hk].
  rewrite IH by exact Hk. apply rebuild_folder_other, Hne.
Qed.

Lemma rebuild_object_other o s k :
  k <> okey o -> k ∉ map fkey (folderPrefixesForKey (okey o)) ->
  objects (sworld (rebuild_object clock o s)) !! k = objects (sworld s) !! k.
Proof.
  intros Hne Hk. unfold rebuild_object, nowIso, upsertObject. cbn [sworld objects].
  rewrite lookup_insert_ne by congruence. apply rebuild_folders_other, Hk.
Qed.

Lemma folder_keys_cons o objs :
  folder_keys (o :: objs)
  = list_to_set (map fkey (folderPrefixesForKey (okey o))) ∪ folder_keys objs.
Proof. reflexivity. Qed.

Lemma rebuild_walk_other objs :
  forall s k,
    k ∉ map okey objs -> k ∉ folder_keys objs ->
    objects (sworld (rebuild_walk clock objs s)) !! k = objects (sworld s) !! k.
Proof.
  induction objs as [|o objs IH]; intros s k Hk Hf; [reflexivity|].
  change (rebuild_walk clock (o :: objs) s)
    with (rebuild_walk clock objs (rebuild_object clock o s)).
  cbn [map] in Hk. apply not_elem_of_cons in Hk as [Hne Hk].
  rewrite folder_keys_cons in Hf. apply not_elem_of_union in Hf as [Hfo Hf].
  rewrite IH by assumption. apply rebuild_object_other; [exact Hne|].
  intros Hin. apply Hfo, elem_of_list_to_set, Hin.
Qed.

Lemma rebuild_object_row o s :
  exists now,
    objects (sworld (rebuild_object clock o s)) !! okey o = Some (file_row_of o now).
Proof.
  unfold rebuild_object, nowIso, upsertObject. cbn [sworld objects].
  eexists. rewrite lookup_insert_eq. reflexivity.
Qed.

Lemma rebuild_walk_file_row objs :
  forall s o,
    NoDup (map okey objs) -> o ∈ objs -> okey o ∉ folder_keys objs ->
    exists now,
      objects (sworld (rebuild_walk clock objs s)) !! okey o = Some (file_row_of o now).
Proof.
  induction objs as [|o' objs IH]; intros s o Hnd Hin Hf; [inversion Hin|].
  change (rebuild_walk clock (o' :: objs) s)
    with (rebuild_walk clock objs (rebuild_object clock o' s)).
  cbn [map] in Hnd. apply NoDup_cons in Hnd as [Hfresh Hnd].
  rewrite folder_keys_cons in Hf. apply not_elem_of_union in Hf as [_ Hf].
  apply elem_of_cons in Hin as [->|Hin].
  - rewrite rebuild_walk_other by assumption. apply rebuild_object_row.
  - apply IH; assumption.
Qed.

(** The folder rows of the folders processed so far, where no listed
    object has the key. *)
Lemma rebuild_folder_folder_rows (listed : list string) key s f :
  f ∈ folderPrefixesForKey key ->
  (forall k, k ∈ seenFolders s -> k ∉ listed ->
             exists now, objects (sworld s) !! k = Some (folder_row_of k now)) ->
  forall k, k ∈ seenFolders (rebuild_folder clock s f) -> k ∉ listed ->
            exists now,
              objects (sworld (rebuild_folder clock s f)) !! k = Some (folder_row_of k now).
Proof.
  intros Hf Hinv k. unfold rebuild_folder. case_bool_decide as Hseen; [apply Hinv|].
  unfold nowIso, upsertObject. cbn [sworld seenFolders objects]. intros Hk Hl.
  destruct (decide (k = fkey f)) as [->|Hne].
  - eexists. rewrite lookup_insert_eq. unfold folder_row_of.
    rewrite (folder_name_basename key f Hf). reflexivity.
  - rewrite lookup_insert_ne by congruence. apply Hinv; [set_solver|exact Hl].
Qed.

Lemma rebuild_folders_folder_rows (listed : list string) key fs :
  forall s,
    (forall f, f ∈ fs -> f ∈ folderPrefixesForKey key) ->
    (forall k, k ∈ seenFolders s -> k ∉ listed ->
               exists now, objects (sworld s) !! k = Some (folder_row_of k now)) ->
    forall k, k ∈ seenFolders (foldl (rebuild_folder clock) s fs) -> k ∉ listed ->
              exists now,
                objects (sworld (foldl (rebuild_folder clock) s fs)) !! k
                = Some (folder_row_of k now).
Proof.
  induction fs as [|f fs IH]; intros s Hfs Hinv; cbn [foldl]; [exact Hinv|].
  apply IH; [intros g Hg; apply Hfs; right; exact Hg|].
  apply (rebuild_folder_folder_rows listed key); [apply Hfs; left|exact Hinv].
Qed.

Lemma rebuild_walk_folder_rows (listed : list string) objs :
  forall s,
    (forall o, o ∈ objs -> okey o ∈ listed) ->
    (forall k, k ∈ seenFolders s -> k ∉ listed ->
               exists now, objects (sworld s) !! k = Some (folder_row_of k now)) ->
    forall k, k ∈ seenFolders (rebuild_walk clock objs s) -> k ∉ listed ->
              exists now,
                objects (sworld (rebuild_walk clock objs s)) !! k = Some (folder_row_of k now).
Proof.
  induction objs as [|o objs IH]; intros s Hl Hinv; [exact Hinv|].
  change (rebuild_walk clock (o :: objs) s)
    with (rebuild_walk clock objs (rebuild_object clock o s)).
  apply IH; [intros o' Ho'; apply Hl; right; exact Ho'|].
  intros k Hk Hnot.
  pose proof (rebuild_folders_folder_rows listed (okey o) (folderPrefixesForKey (okey o)) s
                (fun f Hf => Hf) Hinv k) as Hrows.
  unfold rebuild_object, nowIso, upsertObject in *. cbn [sworld seenFolders objects] in *.
  rewrite lookup_insert_ne; [exact (Hrows Hk Hnot)|].
  intros Heq. apply Hnot. rewrite <- Heq. apply Hl. left.
Qed.

Lemma rebuild_walk_seenFolders objs :
  forall s, seenFolders (rebuild_walk clock objs s) = folder_keys objs ∪ seenFolders s.
Proof.
  induction objs as [|o objs IH]; intros s; [unfold folder_keys; cbn; set_solver|].
  change (rebuild_walk clock (o :: objs) s)
    with (rebuild_walk clock objs (rebuild_object clock o s)).
  rewrite IH, folder_keys_cons. unfold rebuild_object. cbn [seenFolders].
  rewrite rebuild_folders_seenFolders. set_solver.
Qed.

Lemma rebuildIndex_objects remote w :
  objects (rebuildIndex clock remote w).1
  = objects (sworld (rebuild_walk clock (delivered remote) (fresh_scan (clearObjects w)))).
Proof.
  destruct (listing_error remote) as [err|] eqn:He.
  - rewrite (rebuildIndex_failed clock remote w err He). reflexivity.
  - rewrite (rebuildIndex_completed clock remote w He). reflexivity.
Qed.

(** X26. What a rebuild stores, whether it completes or fails on the way.
    When no key is listed twice, every delivered object whose key is not
    the key of a synthesized folder has the file row of its listed data:
    its [basename], its extension or null, its size, modification time and
    entity tag.  Every synthesized folder key that no delivered object has
    for key has a folder row named after its last segment, of size 0 and
    without extension, time or tag. *)
Theorem rebuildIndex_rows (remote : listing) (w : world) :
  NoDup (map okey (delivered remote)) ->
  (forall o, o ∈ delivered remote -> okey o ∉ folder_keys (delivered remote) ->
     exists now,
       objects (rebuildIndex clock remote w).1 !! okey o = Some (file_row_of o now))
  /\ (forall key, key ∈ folder_keys (delivered remote) ->
        key ∉ map okey (delivered remote) ->
        exists now,
          objects (rebuildIndex clock remote w).1 !! key = Some (folder_row_of key now)).
Proof.
  intros Hnd. rewrite rebuildIndex_objects. split.
  - intros o Ho Hf. apply rebuild_walk_file_row; assumption.
  - intros key Hk Hnot.
    apply (rebuild_walk_folder_rows (map okey (delivered remote))).
    + intros o Ho. apply list_elem_of_fmap. eauto.
    + intros k Hin. cbn in Hin. set_solver.
    + rewrite rebuild_walk_seenFolders. set_solver.
    + exact Hnot.
Qed.
End RebuildRows.

Lemma rebuildIndex_rows_witness :
  (exists now,
     objects (rebuildIndex Sample.clock Sample.two_documents Sample.two_files).1
       !! "docs/img/logo.png"%string
     = Some (file_row_of (detail_of "docs/img/logo.png" (Sample.item "docs/img/logo.png" 20))
               now))
  /\ exists now,
       objects (rebuildIndex Sample.clock Sample.two_documents Sample.two_files).1
         !! "docs/img/"%string
       = Some (folder_row_of "docs/img/" now).
Proof.
  pose proof (rebuildIndex_rows Sample.clock Sample.two_documents Sample.two_files) as H.
  destruct H as [Hfiles Hfolders]; [apply (bool_decide_unpack _); vm_compute; reflexivity|].
  split.
  - apply (Hfiles (detail_of "docs/img/logo.png" (Sample.item "docs/img/logo.png" 20)));
      [left|apply (bool_decide_unpack _); vm_compute; reflexivity].
  - apply Hfolders; apply (bool_decide_unpack _); vm_compute; reflexivity.
Defined.


(** ** Delta refresh: the rows it leaves *)

Section RefreshRows.
Variable clock : nat -> string.

Lemma needsUpdate_false_fields e o :
  needsUpdate (Some e) o = false ->
  type e = File /\ size e = osize o
  /\ last_modified e = opt_or_null (olastModified o)
  /\ etag e = opt_or_null (oetag o).
Proof.
  cbn [needsUpdate]. intros H.
  apply orb_false_iff in H as [H Htag]. apply orb_false_iff in H as [H Htime].
  apply orb_false_iff in H as [Hty Hsz].
  apply negb_false_iff in Hty, Hsz, Htime, Htag.
  apply bool_decide_eq_true in Hty, Htime, Htag. apply Z.eqb_eq in Hsz. tauto.
Qed.

Lemma needsFolder_false_fields e :
  needsFolder (Some e) = false -> type e = Folder /\ size e = 0 /\ last_modified e = None.
Proof.
  cbn [needsFolder]. intros H.
  apply orb_false_iff in H as [H Htime]. apply orb_false_iff in H as [Hty Hsz].
  apply negb_false_iff in Hty, Hsz, Htime.
  apply bool_decide_eq_true in Hty, Htime. apply Z.eqb_eq in Hsz. tauto.
Qed.

(** X27. What a completed delta refresh leaves, when no key is listed twice
    and no listed object has the key of a synthesized folder: every listed
    object has a file row with its listed size, modification time and
    entity tag, an absent or empty one stored as null, and every
    synthesized folder key has a folder row of size 0 without modification
    time. *)
Theorem refreshIndex_rows_match_listing (remote : listing) (w : world) :
  listing_error remote = None ->
  NoDup (map okey (delivered remote)) ->
  (forall o, o ∈ delivered remote -> okey o ∉ folder_keys (delivered remote)) ->
  (forall o, o ∈ delivered remote ->
     exists e, objects (refreshIndex clock remote w).1 !! okey o = Some e
               /\ type e = File /\ size e = osize o
               /\ last_modified e = opt_or_null (olastModified o)
               /\ etag e = opt_or_null (oetag o))
  /\ (forall key, key ∈ folder_keys (delivered remote) ->
        exists e, objects (refreshIndex clock remote w).1 !! key = Some e
                  /\ type e = Folder /\ size e = 0 /\ last_modified e = None).
Proof.
  intros He Hnd Hapart.
  pose proof (refreshIndex_settles clock remote w He Hnd Hapart) as Hs. split.
  - intros o Ho. destruct (Hs o Ho) as ((e & Hrow & Hm) & _).
    exists e. split; [exact Hrow|apply needsUpdate_false_fields, Hm].
  - intros key Hk. apply folder_keys_elem in Hk as (o & f & Ho & Hf & ->).
    destruct (Hs o Ho) as (_ & Hfolders). destruct (Hfolders f Hf) as (e & Hrow & Hm).
    exists e. split; [exact Hrow|apply needsFolder_false_fields, Hm].
Qed.
End RefreshRows.

Lemma refreshIndex_rows_match_listing_witness :
  exists e,
    objects (refreshIndex Sample.clock Sample.two_documents Sample.two_files).1
      !! "docs/img/"%string = Some e
    /\ type e = Folder /\ size e = 0 /\ last_modified e = None.
Proof.
  refine (proj2 (refreshIndex_rows_match_listing Sample.clock Sample.two_documents
                   Sample.two_files eq_refl _ _) "docs/img/"%string _).
  - apply (bool_decide_unpack _). vm_compute. reflexivity.
  - intros o Ho.
    apply elem_of_cons in Ho as [->|Ho]; [apply (bool_decide_unpack _); vm_compute; reflexivity|].
    apply elem_of_cons in Ho as [->|Ho]; [|inversion Ho].
    apply (bool_decide_unpack _). vm_compute. reflexivity.
  - apply (bool_decide_unpack _). vm_compute. reflexivity.
Defined.
